(** * tiktok-trimmer: the trim workflow of [src/index.tsx]

    A shallow embedding of the Preact component [App] of [src/index.tsx]:
    the file-name helpers ([getFileExtension], [getMimeType], the download
    name of [downloadTrimmedVideo]), the progress handler registered on the
    engine, and the two asynchronous handlers [handleFile] and [trimVideo],
    written as state-passing functions over the component state, the browser's
    object-URL store and the engine's workspace; then the handlers of the
    file input and of the drop area, and the parts of the page that depend on
    the state, with [Number.prototype.toFixed] for the sizes shown.

    JavaScript numbers are IEEE-754 binary64 values; they are modelled with
    the Standard Library's [spec_float] at precision 53 and maximal exponent
    1024.  JavaScript strings are modelled by [string]; a character is read
    as a code unit below 256. *)

From Stdlib Require Import ZArith Lia Bool Ascii Sorted.
From Stdlib Require Import Floats.SpecFloat.
From stdpp Require Import base option list strings gmap.

Local Open Scope Z_scope.

(** ** JavaScript numbers *)

Module Num.

(** A Number is a binary64 value. *)
Definition number : Type := spec_float.

Definition prec : Z := 53.
Definition emax : Z := 1024.

(** The Number of an integer literal (exact below 2^53). *)
Definition of_Z (z : Z) : number := binary_normalize prec emax z 0 false.

Definition add : number -> number -> number := SFadd prec emax.
Definition sub : number -> number -> number := SFsub prec emax.
Definition mul : number -> number -> number := SFmul prec emax.
Definition div : number -> number -> number := SFdiv prec emax.

(** [a <= b] and [a < b]; false as soon as one side is NaN. *)
Definition leb : number -> number -> bool := SFleb.
Definition ltb : number -> number -> bool := SFltb.

(** Well-formed doubles: the mantissa of a finite one is normalised. *)
Definition valid (x : number) : bool := valid_binary prec emax x.

Definition Infinity : number := S754_infinity false.
Definition NaN : number := S754_nan.

(** The Number of a decimal literal [m / 10^k] with [m] and [10^k] below
    2^53: the division is correctly rounded, so the quotient is the double
    nearest to the literal. *)
Definition of_decimal (m : Z) (k : Z) : number := div (of_Z m) (of_Z (10 ^ k)).

(** [Math.round]: the nearest integer, a tie going towards +Infinity; the
    sign of the argument is kept on a zero result. *)
Definition Math_round (x : number) : number :=
  match x with
  | S754_finite s m e =>
      if 0 <=? e then x
      else
        let d := 2 ^ (- e) in
        let num := if s then Z.neg m else Z.pos m in
        let k := (2 * num + d) / (2 * d) in
        if k =? 0 then S754_zero s else of_Z k
  | _ => x
  end.

(** *** Number::toString, radix 10 *)

Definition digit_char (d : Z) : ascii :=
  ascii_of_N (48 + Z.to_N d).

(** The decimal digits of [n], most significant first, put before [acc]. *)
Fixpoint digits_aux (fuel : nat) (n : Z) (acc : string) : string :=
  match fuel with
  | O => acc
  | S f =>
      let acc' := String (digit_char (n mod 10)) acc in
      if n <? 10 then acc' else digits_aux f (n / 10) acc'
  end.

Definition digits (n : Z) : string :=
  digits_aux (S (Z.to_nat (Z.log2 n))) n EmptyString.

Fixpoint zeros (n : nat) : string :=
  match n with O => EmptyString | S k => String "0" (zeros k) end.

Fixpoint str_take (n : nat) (s : string) : string :=
  match n, s with
  | S k, String c t => String c (str_take k t)
  | _, _ => EmptyString
  end.

Fixpoint str_drop (n : nat) (s : string) : string :=
  match n, s with
  | S k, String _ t => str_drop k t
  | _, _ => s
  end.

(** The interval of the reals that round to the double [m * 2^e], in
    units of [2^(e-2)]: the double itself is [4 m]; the upper end is half
    way to the next double; the lower end is half way to the previous one,
    which is twice as close when [m] is the least mantissa of a binade. *)
Definition interval_lo (m : positive) (e : Z) : Z :=
  if (Z.pos m =? 2 ^ (prec - 1)) && (3 - emax - prec <? e)
  then 4 * Z.pos m - 1 else 4 * Z.pos m - 2.

Definition interval_hi (m : positive) : Z := 4 * Z.pos m + 2.

(** Candidates at decimal exponent [q]: the integers [s] such that
    [s * 10^q] rounds to the double; the ends of the interval count when
    the mantissa is even (round half to even). [None] when there is none,
    else the least one, the greatest one and the one nearest to the double
    (the even one on a tie). *)
Definition candidates (m : positive) (e : Z) (q : Z) : option (Z * Z * Z) :=
  let up := 2 ^ Z.max (e - 2) 0 in
  let D := 2 ^ Z.max (2 - e) 0 in
  let P := 10 ^ Z.max q 0 in
  let Q := 10 ^ Z.max (- q) 0 in
  let den := P * D in
  let lo := interval_lo m e * up * Q in
  let hi := interval_hi m * up * Q in
  let v := 4 * Z.pos m * up * Q in
  let closed := Z.even (Z.pos m) in
  let smin := if closed then (lo + den - 1) / den else lo / den + 1 in
  let smax := if closed then hi / den else (hi + den - 1) / den - 1 in
  let smin := Z.max smin 1 in
  if smin <=? smax then
    let fl := v / den in
    let r := v mod den in
    let near :=
      match 2 * r ?= den with
      | Lt => fl
      | Gt => fl + 1
      | Eq => if Z.even fl then fl else fl + 1
      end in
    Some (smin, smax, Z.min smax (Z.max smin near))
  else None.

(** The greatest decimal exponent [q] that has a candidate, searched
    downwards from [q]; with it the digits are as few as possible. *)
Fixpoint shortest_from (fuel : nat) (m : positive) (e : Z) (q : Z)
  : option (Z * Z) :=
  match fuel with
  | O => None
  | S f =>
      match candidates m e q with
      | Some (_, _, s) => Some (s, q)
      | None => shortest_from f m e (q - 1)
      end
  end.

(** An exponent [q] with [10^q] above the whole interval of [m * 2^e]:
    the double is below [2^E] for [E] the number of its bits plus [e], and
    30103/100000 is an upper estimate of the decimal logarithm of 2. *)
Definition start_exponent (m : positive) (e : Z) : Z :=
  let E := Z.pos (digits2_pos m) + e in
  (E + 1) * 30103 / 100000 + 2.

(** [(s, q)] with [s * 10^q] the shortest decimal that reads back as the
    double. The search starts above the interval and cannot go below
    [q = e], where the double is itself a candidate. *)
Definition shortest (m : positive) (e : Z) : option (Z * Z) :=
  shortest_from (Z.to_nat 1500) m e (start_exponent m e).

(** The position [n] of the decimal point: the value is [0.d1 d2 ... dk]
    times [10^n]. *)
Definition point_position (m : positive) (e : Z) : option Z :=
  match shortest m e with
  | Some (s, q) => Some (Z.of_nat (String.length (digits s)) + q)
  | None => None
  end.

(** Steps 5 to 12 of Number::toString for a positive finite value with
    digits [ds] and point position [n]. *)
Definition format (ds : string) (n : Z) : string :=
  let k := Z.of_nat (String.length ds) in
  if (k <=? n) && (n <=? 21) then
    ds +:+ zeros (Z.to_nat (n - k))
  else if (0 <? n) && (n <=? 21) then
    str_take (Z.to_nat n) ds +:+ "." +:+ str_drop (Z.to_nat n) ds
  else if (-6 <? n) && (n <=? 0) then
    "0." +:+ zeros (Z.to_nat (- n)) +:+ ds
  else
    let ex := n - 1 in
    let sign := if ex <? 0 then "-" else "+" in
    let mant := if k =? 1 then ds else str_take 1 ds +:+ "." +:+ str_drop 1 ds in
    mant +:+ "e" +:+ sign +:+ digits (Z.abs ex).

Definition toString_pos (m : positive) (e : Z) : string :=
  match shortest m e with
  | Some (s, q) =>
      let ds := digits s in
      format ds (Z.of_nat (String.length ds) + q)
  | None => "NaN"
  end.

(** [x.toString()] *)
Definition toString (x : number) : string :=
  match x with
  | S754_nan => "NaN"
  | S754_zero _ => "0"
  | S754_infinity false => "Infinity"
  | S754_infinity true => "-Infinity"
  | S754_finite false m e => toString_pos m e
  | S754_finite true m e => "-" +:+ toString_pos m e
  end.

End Num.

(** ** JavaScript strings *)

Module Str.

(** Code unit of a character. *)
Definition code (c : ascii) : N := N_of_ascii c.

(** [String.prototype.toLowerCase] on one code unit below 256: the letters
    A-Z and the Latin-1 capitals U+00C0..U+00DE (without the multiplication
    sign U+00D7) move 32 places up, every other code unit is kept. *)
Definition lower_char (c : ascii) : ascii :=
  let n := code c in
  if ((65 <=? n) && (n <=? 90))%N then ascii_of_N (n + 32)
  else if ((192 <=? n) && (n <=? 222) && negb (n =? 215))%N
       then ascii_of_N (n + 32)
       else c.

Fixpoint toLowerCase (s : string) : string :=
  match s with
  | EmptyString => EmptyString
  | String c t => String (lower_char c) (toLowerCase t)
  end.

(** [s.split(sep)] for a one-character separator: the segments between
    the separators, in order; never the empty array. *)
Fixpoint split (sep : ascii) (s : string) : list string :=
  match s with
  | EmptyString => [EmptyString]
  | String c t =>
      if Ascii.eqb c sep then EmptyString :: split sep t
      else match split sep t with
           | [] => [String c EmptyString]
           | seg :: rest => String c seg :: rest
           end
  end.

(** [Array.prototype.pop] as used on a temporary: the last element, or
    [None] (undefined) on the empty array. *)
Definition pop (l : list string) : option string := last l.

(** A string is falsy exactly when it is empty. *)
Definition truthy (s : string) : bool :=
  match s with EmptyString => false | _ => true end.

(** The character class [[^/.]]. *)
Definition ext_char (c : ascii) : bool :=
  negb (Ascii.eqb c "/") && negb (Ascii.eqb c ".").

Fixpoint all_ext_chars (s : string) : bool :=
  match s with
  | EmptyString => true
  | String c t => ext_char c && all_ext_chars t
  end.

(** The whole of [s] matches [\.[^/.]+]: with the anchor [$] a match that
    starts here has to run to the end of the input. *)
Definition ext_match_here (s : string) : bool :=
  match s with
  | String c t => Ascii.eqb c "." && truthy t && all_ext_chars t
  | EmptyString => false
  end.

(** [s.replace(/\.[^/.]+$/, '')]: the leftmost position where the pattern
    matches is replaced by the empty string; without a match the string is
    returned as it is. *)
Fixpoint replace_ext (s : string) : string :=
  if ext_match_here s then EmptyString
  else match s with
       | EmptyString => EmptyString
       | String c t => String c (replace_ext t)
       end.

End Str.

(** ** JavaScript values that a property read of [mimeTypes] can give *)

Inductive jsval : Type :=
  | JUndefined
  | JStr (s : string)
  | JFunction (name : string)      (* a built-in function object *)
  | JObjectPrototype.              (* the object %Object.prototype% *)

Definition js_truthy (v : jsval) : bool :=
  match v with
  | JUndefined => false
  | JStr s => Str.truthy s
  | JFunction _ => true
  | JObjectPrototype => true
  end.

(** [a || b] *)
Definition js_or (a b : jsval) : jsval := if js_truthy a then a else b.

(** The properties every ordinary object inherits from %Object.prototype%.
    [__proto__] is an accessor whose getter gives the prototype of the
    receiver, which for an object literal is %Object.prototype% itself. *)
Definition Object_prototype_get (key : string) : option jsval :=
  if decide (key = "constructor") then Some (JFunction "Object")
  else if decide (key = "__proto__") then Some JObjectPrototype
  else if decide (key = "hasOwnProperty") then Some (JFunction "hasOwnProperty")
  else if decide (key = "isPrototypeOf") then Some (JFunction "isPrototypeOf")
  else if decide (key = "propertyIsEnumerable") then Some (JFunction "propertyIsEnumerable")
  else if decide (key = "toLocaleString") then Some (JFunction "toLocaleString")
  else if decide (key = "toString") then Some (JFunction "toString")
  else if decide (key = "valueOf") then Some (JFunction "valueOf")
  else if decide (key = "__defineGetter__") then Some (JFunction "__defineGetter__")
  else if decide (key = "__defineSetter__") then Some (JFunction "__defineSetter__")
  else if decide (key = "__lookupGetter__") then Some (JFunction "__lookupGetter__")
  else if decide (key = "__lookupSetter__") then Some (JFunction "__lookupSetter__")
  else None.

(** [obj[key]] for an object literal with the own string properties [own]:
    the own property if there is one, else the inherited one, else
    undefined. *)
Definition object_get (own : gmap string string) (key : string) : jsval :=
  match own !! key with
  | Some v => JStr v
  | None => default JUndefined (Object_prototype_get key)
  end.

(** ** File-name helpers of the component *)

(** [filename.split('.').pop()?.toLowerCase() || 'mp4'] *)
Definition getFileExtension (filename : string) : string :=
  match Str.toLowerCase <$> Str.pop (Str.split "." filename) with
  | Some e => if Str.truthy e then e else "mp4"
  | None => "mp4"
  end.

Definition mimeTypes : gmap string string :=
  <["mp4" := "video/mp4"]> (
  <["webm" := "video/webm"]> (
  <["avi" := "video/x-msvideo"]> (
  <["mov" := "video/quicktime"]> (
  <["mkv" := "video/x-matroska"]> (
  <["flv" := "video/x-flv"]> (
  <["wmv" := "video/x-ms-wmv"]> ∅)))))).

Definition getMimeType (filename : string) : jsval :=
  let ext := getFileExtension filename in
  js_or (object_get mimeTypes ext) (JStr "video/mp4").

(** The name [downloadTrimmedVideo] gives to the download:
    [`${baseName}_trimmed.${originalExt}`]. *)
Definition downloadName (originalName : string) : string :=
  let originalExt := getFileExtension originalName in
  let baseName := Str.replace_ext originalName in
  baseName +:+ "_trimmed." +:+ originalExt.


(** ** Data model *)

Definition bytes : Type := list Byte.byte.

(** An object URL ([blob:...]) is an opaque handle; the browser never gives
    the same one twice. *)
Definition url : Type := nat.

(** What a thrown or rejected value prints as in a template string. *)
Definition exn : Type := string.

Module File.
Record t := { name : string; type : string; data : bytes }.
End File.

Record ProgressState := { visible : bool; percent : Num.number; text : string }.

Module VideoFile.
Record t := { file : File.t; duration : Num.number; url : url }.
End VideoFile.

Module Blob.
(** [type] is the value given as the [type] option of the constructor. *)
Record t := { data : bytes; type : jsval }.
End Blob.

Module ProcessedVideo.
Record t := { blob : Blob.t; url : url; originalName : string }.
End ProcessedVideo.

(** What happens outside the component, in the order it happens. *)
Inductive Event : Type :=
  | CreateObjectURL (u : url)
  | RevokeObjectURL (u : url)
  | WriteFile (name : string)
  | Exec (args : list string)
  | ReadFile (name : string)
  | DeleteFile (name : string)
  | SetProgress (p : ProgressState)
  | SetCurrentVideo (v : VideoFile.t)
  | SetProcessedVideo (v : option ProcessedVideo.t)
  | SetError (msg : string)
  | SetTimeout (ms : Z).

(** The state of the component (its [useState] cells and [ffmpegRef]), the
    browser's store of live object URLs, the engine's workspace, the number
    of pending progress resets and the log of events. *)
Record World := {
  currentVideo : option VideoFile.t;
  processedVideo : option ProcessedVideo.t;
  progress : ProgressState;
  error : string;
  info : string;
  isProcessing : bool;
  ffmpegReady : bool;
  ffmpegRef : bool;                  (* [ffmpegRef.current] is not null *)
  live_urls : gset url;
  next_url : url;
  workspace : gmap string bytes;
  timers : nat;
  log : list Event
}.

Definition hidden : ProgressState :=
  {| visible := false; percent := Num.of_Z 0; text := "" |}.

(** The component as first rendered. *)
Definition initial : World :=
  {| currentVideo := None; processedVideo := None; progress := hidden;
     error := ""; info := ""; isProcessing := false; ffmpegReady := false;
     ffmpegRef := false; live_urls := ∅; next_url := O; workspace := ∅;
     timers := O; log := [] |}.

Definition with_log (f : list Event -> list Event) (w : World) : World :=
  {| currentVideo := currentVideo w; processedVideo := processedVideo w;
     progress := progress w; error := error w; info := info w;
     isProcessing := isProcessing w; ffmpegReady := ffmpegReady w;
     ffmpegRef := ffmpegRef w; live_urls := live_urls w;
     next_url := next_url w; workspace := workspace w; timers := timers w;
     log := f (log w) |}.

Definition with_currentVideo (v : option VideoFile.t) (w : World) : World :=
  {| currentVideo := v; processedVideo := processedVideo w;
     progress := progress w; error := error w; info := info w;
     isProcessing := isProcessing w; ffmpegReady := ffmpegReady w;
     ffmpegRef := ffmpegRef w; live_urls := live_urls w;
     next_url := next_url w; workspace := workspace w; timers := timers w;
     log := log w |}.

Definition with_processedVideo (v : option ProcessedVideo.t) (w : World) : World :=
  {| currentVideo := currentVideo w; processedVideo := v;
     progress := progress w; error := error w; info := info w;
     isProcessing := isProcessing w; ffmpegReady := ffmpegReady w;
     ffmpegRef := ffmpegRef w; live_urls := live_urls w;
     next_url := next_url w; workspace := workspace w; timers := timers w;
     log := log w |}.

Definition with_progress (p : ProgressState) (w : World) : World :=
  {| currentVideo := currentVideo w; processedVideo := processedVideo w;
     progress := p; error := error w; info := info w;
     isProcessing := isProcessing w; ffmpegReady := ffmpegReady w;
     ffmpegRef := ffmpegRef w; live_urls := live_urls w;
     next_url := next_url w; workspace := workspace w; timers := timers w;
     log := log w |}.

Definition with_error (msg : string) (w : World) : World :=
  {| currentVideo := currentVideo w; processedVideo := processedVideo w;
     progress := progress w; error := msg; info := info w;
     isProcessing := isProcessing w; ffmpegReady := ffmpegReady w;
     ffmpegRef := ffmpegRef w; live_urls := live_urls w;
     next_url := next_url w; workspace := workspace w; timers := timers w;
     log := log w |}.

Definition with_info (msg : string) (w : World) : World :=
  {| currentVideo := currentVideo w; processedVideo := processedVideo w;
     progress := progress w; error := error w; info := msg;
     isProcessing := isProcessing w; ffmpegReady := ffmpegReady w;
     ffmpegRef := ffmpegRef w; live_urls := live_urls w;
     next_url := next_url w; workspace := workspace w; timers := timers w;
     log := log w |}.

Definition with_isProcessing (b : bool) (w : World) : World :=
  {| currentVideo := currentVideo w; processedVideo := processedVideo w;
     progress := progress w; error := error w; info := info w;
     isProcessing := b; ffmpegReady := ffmpegReady w;
     ffmpegRef := ffmpegRef w; live_urls := live_urls w;
     next_url := next_url w; workspace := workspace w; timers := timers w;
     log := log w |}.

Definition with_engine (ready ref : bool) (w : World) : World :=
  {| currentVideo := currentVideo w; processedVideo := processedVideo w;
     progress := progress w; error := error w; info := info w;
     isProcessing := isProcessing w; ffmpegReady := ready;
     ffmpegRef := ref; live_urls := live_urls w;
     next_url := next_url w; workspace := workspace w; timers := timers w;
     log := log w |}.

Definition with_urls (live : gset url) (next : url) (w : World) : World :=
  {| currentVideo := currentVideo w; processedVideo := processedVideo w;
     progress := progress w; error := error w; info := info w;
     isProcessing := isProcessing w; ffmpegReady := ffmpegReady w;
     ffmpegRef := ffmpegRef w; live_urls := live;
     next_url := next; workspace := workspace w; timers := timers w;
     log := log w |}.

Definition with_workspace (fs : gmap string bytes) (w : World) : World :=
  {| currentVideo := currentVideo w; processedVideo := processedVideo w;
     progress := progress w; error := error w; info := info w;
     isProcessing := isProcessing w; ffmpegReady := ffmpegReady w;
     ffmpegRef := ffmpegRef w; live_urls := live_urls w;
     next_url := next_url w; workspace := fs; timers := timers w;
     log := log w |}.

Definition with_timers (n : nat) (w : World) : World :=
  {| currentVideo := currentVideo w; processedVideo := processedVideo w;
     progress := progress w; error := error w; info := info w;
     isProcessing := isProcessing w; ffmpegReady := ffmpegReady w;
     ffmpegRef := ffmpegRef w; live_urls := live_urls w;
     next_url := next_url w; workspace := workspace w; timers := n;
     log := log w |}.

(** ** Effects: state passing with exceptions *)

Inductive result (A : Type) : Type :=
  | Ok (a : A)
  | Throw (e : exn).
Arguments Ok {A} a.
Arguments Throw {A} e.

Definition M (A : Type) : Type := World -> World * result A.

#[global] Instance M_ret : MRet M := fun A a w => (w, Ok a).

#[global] Instance M_bind : MBind M := fun A B f c w =>
  match c w with
  | (w', Ok a) => f a w'
  | (w', Throw e) => (w', Throw e)
  end.

Definition throw {A : Type} (e : exn) : M A := fun w => (w, Throw e).

(** [try { body } catch (error) { handler }] *)
Definition try_catch {A : Type} (body : M A) (handler : exn -> M A) : M A :=
  fun w =>
    match body w with
    | (w', Ok a) => (w', Ok a)
    | (w', Throw e) => handler e w'
    end.

(** [try { body } finally { fin }], for a [fin] that does not throw. *)
Definition try_finally {A : Type} (body : M A) (fin : World -> World) : M A :=
  fun w => let '(w', r) := body w in (fin w', r).

Definition modify (f : World -> World) : M unit := fun w => (f w, Ok tt).

Definition emit (e : Event) : World -> World := with_log (fun l => l ++ [e]).

(** *** State setters *)

Definition setProgress (p : ProgressState) : M unit :=
  modify (fun w => emit (SetProgress p) (with_progress p w)).

(** [setProgress(prev => f(prev))] *)
Definition updateProgress (f : ProgressState -> ProgressState) : M unit :=
  fun w => setProgress (f (progress w)) w.

Definition setError (msg : string) : M unit :=
  modify (fun w => emit (SetError msg) (with_error msg w)).

Definition setInfo (msg : string) : M unit := modify (with_info msg).

Definition setCurrentVideo (v : VideoFile.t) : M unit :=
  modify (fun w => emit (SetCurrentVideo v) (with_currentVideo (Some v) w)).

Definition setProcessedVideo (v : option ProcessedVideo.t) : M unit :=
  modify (fun w => emit (SetProcessedVideo v) (with_processedVideo v w)).

Definition setIsProcessing (b : bool) : M unit := modify (with_isProcessing b).

Definition clearMessages : M unit := setError "" ;; setInfo "".

(** [setTimeout(() => setProgress({visible: false, percent: 0, text: ''}), ms)]:
    the callback is left pending. *)
Definition setTimeout_reset (ms : Z) : M unit :=
  modify (fun w => emit (SetTimeout ms) (with_timers (S (timers w)) w)).

(** A pending reset fires. *)
Definition fire_reset (w : World) : World :=
  match timers w with
  | O => w
  | S n => fst (setProgress hidden (with_timers n w))
  end.

(** *** The browser's object URLs *)

Definition createObjectURL : M url := fun w =>
  let u := next_url w in
  (emit (CreateObjectURL u) (with_urls ({[u]} ∪ live_urls w) (S u) w), Ok u).

Definition revokeObjectURL (u : url) : M unit :=
  modify (fun w => emit (RevokeObjectURL u)
                     (with_urls (live_urls w ∖ {[u]}) (next_url w) w)).

(** *** The engine

    The engine is outside the component; one run of it is described by what
    it does when asked: whether staging the input fails, the progress
    fractions it reports while the command runs, the entry the command
    leaves under the output name, and whether the command throws. Reading
    or removing an entry that is not in the workspace throws. *)
Record EngineRun := {
  write_error : option exn;
  exec_progress : list Num.number;
  exec_output : option bytes;
  exec_error : option exn
}.

Definition writeFile (eng : EngineRun) (name : string) (d : bytes) : M unit :=
  fun w =>
    let w := emit (WriteFile name) w in
    match write_error eng with
    | Some e => (w, Throw e)
    | None => (with_workspace (<[name := d]> (workspace w)) w, Ok tt)
    end.

Definition readFile (name : string) : M bytes := fun w =>
  let w := emit (ReadFile name) w in
  match workspace w !! name with
  | Some d => (w, Ok d)
  | None => (w, Throw "ErrnoError: FS error")
  end.

Definition deleteFile (name : string) : M unit := fun w =>
  let w := emit (DeleteFile name) w in
  match workspace w !! name with
  | Some _ => (with_workspace (delete name (workspace w)) w, Ok tt)
  | None => (w, Throw "ErrnoError: FS error")
  end.

(** The handler registered with [ffmpeg.on('progress', ...)]. *)
Definition progressPercent (p : Num.number) : Num.number :=
  Num.Math_round (Num.mul p (Num.of_Z 100)).

Definition progressUpdate (p : Num.number) (prev : ProgressState) : ProgressState :=
  {| visible := visible prev;
     percent := Num.add (Num.of_Z 30) (Num.mul (progressPercent p) (Num.of_decimal 6 1));
     text := "Processing video... " +:+ Num.toString (progressPercent p) +:+ "%" |}.

Definition onProgress (p : Num.number) : M unit :=
  updateProgress (progressUpdate p).

Fixpoint report (ps : list Num.number) : M unit :=
  match ps with
  | [] => mret tt
  | p :: rest => onProgress p ;; report rest
  end.

(** [ffmpeg.exec(args)]: the progress events arrive while the command runs;
    then the output entry, if any, is in the workspace under the last
    argument, and the call returns or throws. *)
Definition exec (eng : EngineRun) (args : list string) : M unit :=
  modify (emit (Exec args)) ;;
  report (exec_progress eng) ;;
  modify (fun w =>
    match exec_output eng with
    | Some d => with_workspace (<[default "" (last args) := d]> (workspace w)) w
    | None => w
    end) ;;
  match exec_error eng with
  | Some e => throw e
  | None => mret tt
  end.

(** ** The component's handlers *)

(** How a call of [handleFile] ends: the early return, the [catch] of
    [handleFile], the [catch] of [trimVideo], or the end of its [try]. *)
Inductive Outcome : Type :=
  | NotReady
  | ValidationRejected (reason : exn)
  | RunFailure (reason : exn)
  | Success (v : ProcessedVideo.t).

(** [initializeFFmpeg], run once by the effect hook; [load] is the error of
    fetching and loading the engine's assets, if any. The object URLs the
    loader makes for the two assets are the library's own and not tracked. *)
Definition initializeFFmpeg (load : option exn) : M unit :=
  try_catch
    (setProgress {| visible := true; percent := Num.of_Z 0; text := "Loading FFmpeg..." |} ;;
     match load with Some e => throw e | None => mret tt end ;;
     modify (with_engine true true) ;;
     setProgress hidden ;;
     setInfo "FFmpeg loaded successfully! You can now upload a video.")
    (fun error =>
       setProgress hidden ;;
       setError ("Failed to load FFmpeg: " +:+ error
                 +:+ ". Please refresh the page and try again.")).

(** What the detached video element does with the file. *)
Inductive ProbeResult : Type :=
  | LoadedMetadata (duration : Num.number)
  | ProbeError.

(** [getVideoDuration]: the element gets an object URL of the file; on
    [loadedmetadata] the promise resolves and the URL is revoked, on
    [error] the promise rejects with the event. *)
Definition getVideoDuration (probe : ProbeResult) (file : File.t) : M Num.number :=
  src ← createObjectURL;
  match probe with
  | LoadedMetadata d => revokeObjectURL src ;; mret d
  | ProbeError => throw "[object Event]"
  end.

Definition trimVideo (eng : EngineRun) (videoFile : VideoFile.t) : M Outcome :=
  try_finally
    (try_catch
       (setProgress {| visible := true; percent := Num.of_Z 10; text := "Loading video file..." |} ;;
        let file := VideoFile.file videoFile in
        let duration := VideoFile.duration videoFile in
        ffmpeg ← (fun w => (w, Ok (ffmpegRef w)));
        (if ffmpeg : bool then mret tt else throw "Error: FFmpeg is not initialized") ;;
        setProgress {| visible := true; percent := Num.of_Z 20; text := "Preparing FFmpeg..." |} ;;
        let inputFileName := "input." +:+ getFileExtension (File.name file) in
        let outputFileName := "output." +:+ getFileExtension (File.name file) in
        writeFile eng inputFileName (File.data file) ;;
        setProgress {| visible := true; percent := Num.of_Z 30; text := "Trimming video..." |} ;;
        let endTime := Num.sub duration (Num.of_Z 3) in
        exec eng [ "-i"; inputFileName;
                   "-t"; Num.toString endTime;
                   "-c"; "copy";
                   "-avoid_negative_ts"; "make_zero";
                   outputFileName ] ;;
        setProgress {| visible := true; percent := Num.of_Z 90; text := "Finalizing..." |} ;;
        data ← readFile outputFileName;
        let mimeType := getMimeType (File.name file) in
        let blob := {| Blob.data := data; Blob.type := mimeType |} in
        deleteFile inputFileName ;;
        deleteFile outputFileName ;;
        u ← createObjectURL;
        let result := {| ProcessedVideo.blob := blob;
                         ProcessedVideo.url := u;
                         ProcessedVideo.originalName := File.name file |} in
        setProcessedVideo (Some result) ;;
        _ ← createObjectURL;
        setProgress {| visible := true; percent := Num.of_Z 100; text := "Complete!" |} ;;
        setTimeout_reset 1000 ;;
        mret (Success result))
       (fun error =>
          setError ("Error processing video: " +:+ error) ;;
          mret (RunFailure error)))
    (with_isProcessing false).

Definition handleFile (probe : ProbeResult) (eng : EngineRun) (file : File.t)
  : M Outcome :=
  fun w =>
    if negb (ffmpegReady w) then
      (setError "FFmpeg is not loaded yet. Please wait for initialization to complete." ;;
       mret NotReady) w
    else
      (clearMessages ;;
       setProcessedVideo None ;;
       setIsProcessing true ;;
       try_catch
         (duration ← getVideoDuration probe file;
          (if Num.leb duration (Num.of_Z 3)
           then throw "Error: Video is too short (3 seconds or less). Cannot trim 3 seconds."
           else mret tt) ;;
          u ← createObjectURL;
          let videoFile := {| VideoFile.file := file;
                              VideoFile.duration := duration;
                              VideoFile.url := u |} in
          setCurrentVideo videoFile ;;
          trimVideo eng videoFile)
         (fun error =>
            setError ("Error processing video: " +:+ error) ;;
            setIsProcessing false ;;
            mret (ValidationRejected error))) w.

(** [downloadTrimmedVideo]: nothing without a result, else the anchor's
    [href] and [download]. *)
Definition downloadTrimmedVideo (w : World) : option (url * string) :=
  match processedVideo w with
  | None => None
  | Some v =>
      Some (ProcessedVideo.url v, downloadName (ProcessedVideo.originalName v))
  end.

(** ** Observations on the log *)

Definition is_engine_op (e : Event) : bool :=
  match e with
  | WriteFile _ | Exec _ | ReadFile _ | DeleteFile _ => true
  | _ => false
  end.

(** The engine operations of a log, in order. *)
Fixpoint engine_ops (l : list Event) : list Event :=
  match l with
  | [] => []
  | e :: t => if is_engine_op e then e :: engine_ops t else engine_ops t
  end.

(** The argument lists of the invocations. *)
Fixpoint invocations (l : list Event) : list (list string) :=
  match l with
  | [] => []
  | Exec a :: t => a :: invocations t
  | _ :: t => invocations t
  end.

(** The percentages the progress bar was set to. *)
Fixpoint percents (l : list Event) : list Num.number :=
  match l with
  | [] => []
  | SetProgress p :: t => percent p :: percents t
  | _ :: t => percents t
  end.

(** The events in the life of object URLs and of the two videos. *)
Definition is_lifecycle (e : Event) : bool :=
  match e with
  | CreateObjectURL _ | RevokeObjectURL _
  | SetCurrentVideo _ | SetProcessedVideo _ => true
  | _ => false
  end.

Fixpoint lifecycle (l : list Event) : list Event :=
  match l with
  | [] => []
  | e :: t => if is_lifecycle e then e :: lifecycle t else lifecycle t
  end.

(** How often the object URL [u] was revoked. *)
Fixpoint revocations (u : url) (l : list Event) : nat :=
  match l with
  | [] => O
  | RevokeObjectURL u' :: t =>
      if Nat.eqb u u' then S (revocations u t) else revocations u t
  | _ :: t => revocations u t
  end.

(** The events of a run that took [w] to [w']. *)
Definition since (w w' : World) : list Event := drop (length (log w)) (log w').

Fixpoint nondecreasing (l : list Num.number) : bool :=
  match l with
  | a :: (b :: _) as t => Num.leb a b && nondecreasing t
  | _ => true
  end.

(** The final state and the outcome of a handler that cannot throw. *)
Definition final {A : Type} (r : World * result A) : World := fst r.

Definition outcome (r : World * result Outcome) : option Outcome :=
  match snd r with Ok o => Some o | Throw _ => None end.


(** ** Notions the statements use *)

(** The message of the guard at the head of [handleFile]. *)
Definition not_ready_message : string :=
  "FFmpeg is not loaded yet. Please wait for initialization to complete.".

(** The world after the engine has reported the fractions [ps]. *)
Fixpoint reported (ps : list Num.number) (w : World) : World :=
  match ps with
  | [] => w
  | p :: rest => reported rest (fst (onProgress p w))
  end.

(** The states of the progress bar the reports go through, from [prev]. *)
Fixpoint progress_states (ps : list Num.number) (prev : ProgressState)
  : list ProgressState :=
  match ps with
  | [] => []
  | p :: rest => progressUpdate p prev :: progress_states rest (progressUpdate p prev)
  end.

(** The probe fails, or gives a duration with [duration <= 3]. *)
Definition probe_rejected (probe : ProbeResult) : Prop :=
  match probe with
  | ProbeError => True
  | LoadedMetadata d => Num.leb d (Num.of_Z 3) = true
  end.

(** The [VideoFile] that [handleFile] builds for an accepted file, and the
    world in which it calls [trimVideo]: messages cleared, previous result
    dropped, the probe's URL made and revoked, the preview URL made. *)
Definition intake (d : Num.number) (file : File.t) (w : World) : VideoFile.t :=
  {| VideoFile.file := file; VideoFile.duration := d;
     VideoFile.url := S (next_url w) |}.

Definition validated (d : Num.number) (file : File.t) (w : World) : World :=
  {| currentVideo := Some (intake d file w);
     processedVideo := None;
     progress := progress w;
     error := ""; info := "";
     isProcessing := true;
     ffmpegReady := ffmpegReady w; ffmpegRef := ffmpegRef w;
     live_urls := {[S (next_url w)]} ∪ ({[next_url w]} ∪ live_urls w) ∖ {[next_url w]};
     next_url := S (S (next_url w));
     workspace := workspace w;
     timers := timers w;
     log := log w ++ [SetError ""; SetProcessedVideo None;
                      CreateObjectURL (next_url w); RevokeObjectURL (next_url w);
                      CreateObjectURL (S (next_url w));
                      SetCurrentVideo (intake d file w)] |}.

(** A decimal digit 0-9. *)
Definition is_digit (c : ascii) : bool :=
  let n := N_of_ascii c in ((48 <=? n) && (n <=? 57))%N.

Fixpoint all_digits (s : string) : bool :=
  match s with
  | EmptyString => true
  | String c t => is_digit c && all_digits t
  end.

(** One decimal digit or more. *)
Definition digit_string (s : string) : bool := Str.truthy s && all_digits s.

(** Plain decimal notation: digits, or digits, a point and digits. *)
Definition plain_decimal (s : string) : bool :=
  match Str.split "." s with
  | [a] => digit_string a
  | [a; b] => digit_string a && digit_string b
  | _ => false
  end.

(** Sample data: the component after a successful engine load, a file of
    four bytes with the given name. *)
Definition ready_world : World := final (initializeFFmpeg None initial).

Definition clip (name : string) : File.t :=
  {| File.name := name; File.type := "video/mp4";
     File.data := [Byte.x00; Byte.x00; Byte.x00; Byte.x18] |}.

(** An engine that reports the fractions [ps] and writes [out]. *)
Definition engine_ok (ps : list Num.number) (out : bytes) : EngineRun :=
  {| write_error := None; exec_progress := ps; exec_output := Some out;
     exec_error := None |}.

(** An engine whose command throws after the input was staged. *)
Definition engine_exec_fails : EngineRun :=
  {| write_error := None; exec_progress := [];
     exec_output := None; exec_error := Some "Error: ffmpeg exited" |}.

(** The states the component can be in: the first render, then the engine
    load, calls of [handleFile] and pending resets of the progress bar, in
    any order and with any behaviour of the probe and of the engine. *)
Inductive reachable : World -> Prop :=
  | reach_initial : reachable initial
  | reach_load (load : option exn) (w : World) :
      reachable w -> reachable (final (initializeFFmpeg load w))
  | reach_handleFile (probe : ProbeResult) (eng : EngineRun) (file : File.t)
      (w : World) :
      reachable w -> reachable (final (handleFile probe eng file w))
  | reach_reset (w : World) :
      reachable w -> reachable (fire_reset w).

(** What holds in all of them: the readiness flag and the engine reference
    go together; every live object URL was handed out before; the URLs of
    the current video and of the result are live. *)
Record invariant (w : World) : Prop := {
  inv_engine : ffmpegReady w = ffmpegRef w;
  inv_fresh : forall u, u ∈ live_urls w -> (u < next_url w)%nat;
  inv_current : forall v, currentVideo w = Some v -> VideoFile.url v ∈ live_urls w;
  inv_result : forall v, processedVideo w = Some v ->
                 ProcessedVideo.url v ∈ live_urls w
}.

(** The doubles 1e-6 and 1e21, between which [Number::toString] writes no
    exponent. *)
Definition millionth : Num.number := Num.of_decimal 1 6.

Definition sextillion : Num.number := Num.of_Z (10 ^ 21).

(** Scenario D: two successful runs in sequence, on "a.mov" and "b.webm". *)
Definition first_run : World * result Outcome :=
  handleFile (LoadedMetadata (Num.of_Z 10)) (engine_ok [] [Byte.x01])
    (clip "a.mov") ready_world.

Definition second_run : World * result Outcome :=
  handleFile (LoadedMetadata (Num.of_Z 12)) (engine_ok [] [Byte.x02])
    (clip "b.webm") (final first_run).

(** A second run whose invocation throws. *)
Definition second_run_failing : World * result Outcome :=
  handleFile (LoadedMetadata (Num.of_Z 12)) engine_exec_fails
    (clip "b.webm") (final first_run).

(** The results the two runs publish, and the current video of the first. *)
Definition first_result : ProcessedVideo.t :=
  {| ProcessedVideo.blob :=
       {| Blob.data := [Byte.x01]; Blob.type := JStr "video/quicktime" |};
     ProcessedVideo.url := 2%nat;
     ProcessedVideo.originalName := "a.mov" |}.

Definition second_result : ProcessedVideo.t :=
  {| ProcessedVideo.blob :=
       {| Blob.data := [Byte.x02]; Blob.type := JStr "video/webm" |};
     ProcessedVideo.url := 6%nat;
     ProcessedVideo.originalName := "b.webm" |}.

Definition first_intake : VideoFile.t :=
  {| VideoFile.file := clip "a.mov"; VideoFile.duration := Num.of_Z 10;
     VideoFile.url := 1%nat |}.

(** The percentage the handler sets for a reported fraction. *)
Definition composite (p : Num.number) : Num.number :=
  Num.add (Num.of_Z 30) (Num.mul (progressPercent p) (Num.of_decimal 6 1)).

(** The same for a whole percentage [k]. *)
Definition composite_of (k : Z) : Num.number :=
  Num.add (Num.of_Z 30) (Num.mul (Num.of_Z k) (Num.of_decimal 6 1)).

(** All the percentages a completed call of [trimVideo] sets. *)
Definition run_percents (ps : list Num.number) : list Num.number :=
  [Num.of_Z 10; Num.of_Z 20; Num.of_Z 30] ++ map composite ps
  ++ [Num.of_Z 90; Num.of_Z 100].

(** The whole percentages 0 to 100. *)
Definition whole_percentages : list Z := map Z.of_nat (seq 0 101).

(** Every element is at most each later one. *)
Fixpoint pairwise (l : list Num.number) : bool :=
  match l with
  | [] => true
  | a :: t => forallb (Num.leb a) t && pairwise t
  end.

(** The composite percentages of the whole percentages 0 to 100. *)
Definition composite_values : list Num.number :=
  map composite_of whole_percentages.

(** The engine's fractions [ps] round to the whole percentages [ks]. *)
Definition rounds_to (ps : list Num.number) (ks : list Z) : Prop :=
  Forall2 (fun p k => progressPercent p = Num.of_Z k) ps ks.

(** No capital letter A-Z. *)
Definition is_upper (c : ascii) : bool :=
  let n := Str.code c in ((65 <=? n) && (n <=? 90))%N.

Fixpoint has_upper (s : string) : bool :=
  match s with
  | EmptyString => false
  | String c t => is_upper c || has_upper t
  end.

(** The seven extensions of the table. *)
Definition known_extensions : list string :=
  ["mp4"; "webm"; "avi"; "mov"; "mkv"; "flv"; "wmv"].


(** ** More of JavaScript's strings and numbers *)

(** [s.includes(c)] for one character. *)
Fixpoint includes (c : ascii) (s : string) : bool :=
  match s with
  | EmptyString => false
  | String c' t => Ascii.eqb c' c || includes c t
  end.

(** [s.startsWith(p)] *)
Fixpoint startsWith (p s : string) : bool :=
  match p, s with
  | EmptyString, _ => true
  | String a p', String b s' => Ascii.eqb a b && startsWith p' s'
  | String _ _, EmptyString => false
  end.


(** *** Number.prototype.toFixed *)

Module Fixed.

(** The integer [n] for which [n / 10^f - x] is as close to zero as
    possible, the larger one if there are two, for [x = m * 2^e]. *)
Definition nearest (f : nat) (m : positive) (e : Z) : Z :=
  let num := Z.pos m * 10 ^ Z.of_nat f in
  if 0 <=? e then num * 2 ^ e
  else (2 * num + 2 ^ (- e)) / (2 * 2 ^ (- e)).

(** [x >= 10^21] for [x = m * 2^e]. *)
Definition huge (m : positive) (e : Z) : bool :=
  10 ^ 21 * 2 ^ Z.max (- e) 0 <=? Z.pos m * 2 ^ Z.max e 0.

(** The digits of [n] with the point before the last [f] of them, zeros
    put in front when there are not more than [f]. *)
Definition point (f : nat) (n : Z) : string :=
  let m := if n =? 0 then "0" else Num.digits n in
  match f with
  | O => m
  | S _ =>
      let k := String.length m in
      let m := if (k <=? f)%nat then Num.zeros (f + 1 - k) +:+ m else m in
      let k := String.length m in
      Num.str_take (k - f) m +:+ "." +:+ Num.str_drop (k - f) m
  end.

(** [x.toFixed(f)] for [f] from 0 to 100. *)
Definition toFixed (f : nat) (x : Num.number) : string :=
  match x with
  | S754_finite s m e =>
      (if s then "-" else "") +:+
      (if huge m e then Num.toString (S754_finite false m e)
       else point f (nearest f m e))
  | S754_zero _ => point f 0
  | _ => Num.toString x
  end.

End Fixed.

(** [1024 * 1024] *)
Definition mebibyte : Num.number := Num.mul (Num.of_Z 1024) (Num.of_Z 1024).

(** [(size / (1024 * 1024)).toFixed(2)], the size the view shows for
    [size] bytes. *)
Definition megabytes (size : Z) : string :=
  Fixed.toFixed 2 (Num.div (Num.of_Z size) mebibyte).

(** A finite number below zero, and a finite number with [|x| < 10^21]. *)
Definition is_negative (x : Num.number) : bool :=
  match x with
  | S754_finite s _ _ => s
  | _ => false
  end.

Definition below_sextillion (x : Num.number) : bool :=
  match x with
  | S754_finite _ m e => negb (Fixed.huge m e)
  | S754_zero _ => true
  | _ => false
  end.


(** ** The intake handlers *)

(** The state of [World] with the cell [isDragOver]. *)
Record Page := { isDragOver : bool; world : World }.

(** [handleFileInput]: the run starts on [e.target.files?.[0]], if there is
    one; [files] is [None] when the list is null. The probe and the engine
    are what the run meets. *)
Definition handleFileInput (files : option (list File.t))
    (probe : ProbeResult) (eng : EngineRun) (p : Page) : Page :=
  match files ≫= head with
  | Some file =>
      {| isDragOver := isDragOver p;
         world := final (handleFile probe eng file (world p)) |}
  | None => p
  end.



Definition handleDrop (files : list File.t)
    (probe : ProbeResult) (eng : EngineRun) (p : Page) : Page * bool :=
  let p := {| isDragOver := false; world := world p |} in
  (match head files with
   | Some file =>
       if startsWith "video/" (File.type file)
       then {| isDragOver := isDragOver p;
               world := final (handleFile probe eng file (world p)) |}
       else p
   | None => p
   end, true).


(** ** What the component shows *)

(** [String.prototype.toUpperCase] on one code unit below 256, as code
    units: a-z and the Latin-1 small letters U+00E0..U+00FE (without the
    division sign U+00F7) move 32 places down; the sharp s becomes "SS";
    y with diaeresis and the micro sign go to U+0178 and U+039C. *)
Definition upper_char (c : ascii) : list N :=
  let n := Str.code c in
  (if (97 <=? n) && (n <=? 122) then [n - 32]
   else if (224 <=? n) && (n <=? 254) && negb (n =? 247) then [n - 32]
   else if n =? 223 then [83; 83]
   else if n =? 255 then [376]
   else if n =? 181 then [924]
   else [n])%N.

Fixpoint toUpperCase (s : string) : list N :=
  match s with
  | EmptyString => []
  | String c t => upper_char c ++ toUpperCase t
  end.

(** [file.size] and [blob.size] *)
Definition size (data : bytes) : Z := Z.of_nat (length data).

(** The parts of the page that depend on the state: the preview of the
    current video, the progress bar, the block of the result and the two
    message boxes, each with the texts it shows. The class of the upload
    area is fixed: the page does not depend on [isDragOver]. *)
Record Preview := {
  preview_src : url;
  preview_name : string;
  preview_size : string;
  preview_type : string;
  preview_duration : string
}.

Record Bar := { bar_width : string; bar_text : string }.

Record ResultBlock := {
  result_src : url;
  original_size : string;
  new_size : string;
  result_format : list N
}.

Record View := {
  view_preview : option Preview;
  view_bar : option Bar;
  view_result : option ResultBlock;
  view_error : option string;
  view_info : option string
}.

(** [x && <div>...</div>] for a string [x] *)
Definition shown (msg : string) : option string :=
  if Str.truthy msg then Some msg else None.

Definition view (w : World) : View :=
  {| view_preview :=
       (fun c => {| preview_src := VideoFile.url c;
                    preview_name := File.name (VideoFile.file c);
                    preview_size := megabytes (size (File.data (VideoFile.file c)));
                    preview_type := File.type (VideoFile.file c);
                    preview_duration := Fixed.toFixed 1 (VideoFile.duration c) |})
       <$> currentVideo w;
     view_bar :=
       if visible (progress w)
       then Some {| bar_width := Num.toString (percent (progress w)) +:+ "%";
                    bar_text := text (progress w) |}
       else None;
     view_result :=
       (fun v => {| result_src := ProcessedVideo.url v;
                    original_size :=
                      Fixed.toFixed 2
                        (Num.div
                           match currentVideo w with
                           | Some c => Num.of_Z (size (File.data (VideoFile.file c)))
                           | None => Num.NaN
                           end
                           mebibyte);
                    new_size := megabytes (size (Blob.data (ProcessedVideo.blob v)));
                    result_format :=
                      toUpperCase (getFileExtension (ProcessedVideo.originalName v)) |})
       <$> processedVideo w;
     view_error := shown (error w);
     view_info := shown (info w) |}.


(** ** More notions the statements use *)

(** The bar as [trimVideo] leaves it on success. *)
Definition complete : ProgressState :=
  {| visible := true; percent := Num.of_Z 100; text := "Complete!" |}.

(** The object URLs the log says were created. *)
Fixpoint created (l : list Event) : list url :=
  match l with
  | [] => []
  | CreateObjectURL u :: t => u :: created t
  | _ :: t => created t
  end.

(** The arguments of the invocation and the engine operations of a run that
    goes through, for a file with extension [ext] and duration [d]. *)
Definition trim_args (ext : string) (d : Num.number) : list string :=
  [ "-i"; "input." +:+ ext;
    "-t"; Num.toString (Num.sub d (Num.of_Z 3));
    "-c"; "copy"; "-avoid_negative_ts"; "make_zero";
    "output." +:+ ext ].

Definition full_run (ext : string) (d : Num.number) : list Event :=
  [ WriteFile ("input." +:+ ext); Exec (trim_args ext d);
    ReadFile ("output." +:+ ext);
    DeleteFile ("input." +:+ ext); DeleteFile ("output." +:+ ext) ].


(** A double that is a fraction: a valid one from 0 to 1. *)
Definition fraction (p : Num.number) : bool :=
  Num.valid p && Num.leb (Num.of_Z 0) p && Num.leb p (Num.of_Z 1).

(** One of the percentages of the stages, or one between 30 and 90. *)
Definition stage_or_transcoding (x : Num.number) : Prop :=
  x = Num.of_Z 10 \/ x = Num.of_Z 20 \/ x = Num.of_Z 100 \/
  (Num.leb (Num.of_Z 30) x = true /\ Num.leb x (Num.of_Z 90) = true).


(** ** Proofs *)

(** Numbers and file names stay folded while a run is unfolded. *)
Arguments Num.of_Z : simpl never.
Arguments Num.of_decimal : simpl never.
Arguments Num.add : simpl never.
Arguments Num.sub : simpl never.
Arguments Num.mul : simpl never.
Arguments Num.leb : simpl never.
Arguments Num.ltb : simpl never.
Arguments Num.toString : simpl never.
Arguments Num.Math_round : simpl never.
Arguments getFileExtension : simpl never.
Arguments getMimeType : simpl never.
Arguments String.append : simpl never.

(** Projections of updated worlds, and nothing else, are computed. *)
Ltac proj :=
  cbn [fst snd negb app last from_option id
       currentVideo processedVideo progress error info isProcessing
       ffmpegReady ffmpegRef live_urls next_url workspace timers log
       emit with_log with_currentVideo with_processedVideo with_progress
       with_error with_info with_isProcessing with_engine with_urls
       with_workspace with_timers
       VideoFile.file VideoFile.duration VideoFile.url
       ProcessedVideo.blob ProcessedVideo.url ProcessedVideo.originalName
       File.name File.data visible percent text].

(** Unfolding of the handlers down to the state, for symbolic runs. *)
Ltac run :=
  cbv [handleFile trimVideo getVideoDuration initializeFFmpeg clearMessages
       exec writeFile readFile deleteFile createObjectURL revokeObjectURL
       setProgress updateProgress setError setInfo setCurrentVideo
       setProcessedVideo setIsProcessing setTimeout_reset
       try_catch try_finally throw modify mbind M_bind mret M_ret
       final outcome];
  proj.

Lemma since_app (w w' : World) (l : list Event) :
  log w' = log w ++ l -> since w w' = l.
Proof. intros H. unfold since. rewrite H. apply drop_app_length. Qed.


(** C7. While the engine is not ready ([ffmpegReady] false: the load has
    not finished or has failed), [handleFile] only reports the not-ready
    error and returns: the one event of the call is that error; no object
    URL, probe or engine operation happens; nothing is stored for later, the
    world being the old one with the error text set; the engine is still
    not ready afterwards. *)
Theorem C7_not_ready_rejected
  (w : World) (probe : ProbeResult) (eng : EngineRun) (file : File.t) :
  ffmpegReady w = false ->
  let r := handleFile probe eng file w in
  outcome r = Some NotReady /\
  error (final r) = not_ready_message /\
  since w (final r) = [SetError not_ready_message] /\
  final r = emit (SetError not_ready_message) (with_error not_ready_message w) /\
  ffmpegReady (final r) = false.
Proof.
  intros Hready r. subst r. run. rewrite Hready. proj.
  repeat split; try reflexivity.
  - apply since_app. reflexivity.
  - exact Hready.
Qed.

(** A failed load leaves the engine not ready. *)
Lemma load_failure_not_ready (e : exn) (w : World) :
  ffmpegReady w = false ->
  ffmpegReady (final (initializeFFmpeg (Some e) w)) = false.
Proof. intros H. run. exact H. Qed.

Lemma C7_witness :
  let w := final (initializeFFmpeg (Some "TypeError: Failed to fetch") initial) in
  let file := {| File.name := "a.mp4"; File.type := "video/mp4"; File.data := [] |} in
  let eng := {| write_error := None; exec_progress := []; exec_output := None;
                exec_error := None |} in
  ffmpegReady w = false /\
  outcome (handleFile (LoadedMetadata (Num.of_Z 10)) eng file w) = Some NotReady.
Proof.
  intros w file eng. split; [reflexivity|].
  apply (C7_not_ready_rejected w (LoadedMetadata (Num.of_Z 10)) eng file).
  reflexivity.
Defined.

(** *** The progress events of one invocation *)


Lemma report_reported (ps : list Num.number) (w : World) :
  report ps w = (reported ps w, Ok tt).
Proof.
  revert w. induction ps as [|p ps IH]; intros w; [reflexivity|].
  cbn [report reported]. unfold mbind, M_bind.
  unfold onProgress at 1. unfold updateProgress, setProgress, modify.
  rewrite IH. reflexivity.
Qed.

Section ReportedFrame.
Variable ps : list Num.number.

Lemma reported_frame (w : World) :
  currentVideo (reported ps w) = currentVideo w /\
  processedVideo (reported ps w) = processedVideo w /\
  error (reported ps w) = error w /\
  info (reported ps w) = info w /\
  isProcessing (reported ps w) = isProcessing w /\
  ffmpegReady (reported ps w) = ffmpegReady w /\
  ffmpegRef (reported ps w) = ffmpegRef w /\
  live_urls (reported ps w) = live_urls w /\
  next_url (reported ps w) = next_url w /\
  workspace (reported ps w) = workspace w /\
  timers (reported ps w) = timers w.
Proof.
  revert w. induction ps as [|p l IH]; intros w; [repeat split|].
  cbn [reported]. specialize (IH (fst (onProgress p w))).
  unfold onProgress, updateProgress, setProgress, modify in IH. cbn [fst] in IH.
  exact IH.
Qed.

Lemma reported_log (w : World) :
  log (reported ps w) = log w ++ map SetProgress (progress_states ps (progress w)).
Proof.
  revert w. induction ps as [|p l IH]; intros w.
  - cbn. symmetry. apply app_nil_r.
  - cbn [reported progress_states map]. rewrite IH.
    unfold onProgress, updateProgress, setProgress, modify. proj.
    rewrite <- app_assoc. reflexivity.
Qed.

Lemma reported_workspace (w : World) : workspace (reported ps w) = workspace w.
Proof. apply reported_frame. Qed.
Lemma reported_live_urls (w : World) : live_urls (reported ps w) = live_urls w.
Proof. apply reported_frame. Qed.
Lemma reported_next_url (w : World) : next_url (reported ps w) = next_url w.
Proof. apply reported_frame. Qed.
Lemma reported_processedVideo (w : World) :
  processedVideo (reported ps w) = processedVideo w.
Proof. apply reported_frame. Qed.
Lemma reported_currentVideo (w : World) :
  currentVideo (reported ps w) = currentVideo w.
Proof. apply reported_frame. Qed.
Lemma reported_ffmpegReady (w : World) : ffmpegReady (reported ps w) = ffmpegReady w.
Proof. apply reported_frame. Qed.
Lemma reported_ffmpegRef (w : World) : ffmpegRef (reported ps w) = ffmpegRef w.
Proof. apply reported_frame. Qed.
End ReportedFrame.

(** *** Rejected intake *)


(** C2. When the probe fails or gives a duration [d <= 3], a call of
    [handleFile] performs no engine operation (no write, invocation, read or
    removal is among its events) and leaves the workspace as it was; with
    the engine ready the call ends in the [catch] of [handleFile], that is
    as ValidationRejected. *)
Theorem C2_rejected_without_engine
  (w : World) (probe : ProbeResult) (eng : EngineRun) (file : File.t) :
  probe_rejected probe ->
  let r := handleFile probe eng file w in
  engine_ops (since w (final r)) = [] /\
  workspace (final r) = workspace w /\
  (ffmpegReady w = true ->
   exists reason, outcome r = Some (ValidationRejected reason)).
Proof.
  intros Hrej r. subst r.
  destruct (ffmpegReady w) eqn:Hready.
  - destruct probe as [d|]; cbn in Hrej.
    + run. rewrite Hready. proj. rewrite Hrej. proj.
      split; [|split; [reflexivity|eauto]].
      erewrite since_app; [|proj; rewrite <- !app_assoc; reflexivity].
      reflexivity.
    + run. rewrite Hready. proj.
      split; [|split; [reflexivity|eauto]].
      erewrite since_app; [|proj; rewrite <- !app_assoc; reflexivity].
      reflexivity.
  - run. rewrite Hready. proj.
    split; [|split; [reflexivity|discriminate]].
    erewrite since_app; [|proj; reflexivity]. reflexivity.
Qed.

Lemma C2_witness :
  let w := final (initializeFFmpeg None initial) in
  let file := {| File.name := "short.mp4"; File.type := "video/mp4"; File.data := [] |} in
  let eng := {| write_error := None; exec_progress := []; exec_output := None;
                exec_error := None |} in
  let r := handleFile (LoadedMetadata (Num.of_decimal 25 1)) eng file w in
  probe_rejected (LoadedMetadata (Num.of_decimal 25 1)) /\
  engine_ops (since w (final r)) = [] /\
  workspace (final r) = workspace w /\
  (ffmpegReady w = true ->
   exists reason, outcome r = Some (ValidationRejected reason)).
Proof.
  intros w file eng r. split; [reflexivity|].
  apply (C2_rejected_without_engine w (LoadedMetadata (Num.of_decimal 25 1)) eng file).
  reflexivity.
Defined.

(** *** Observations on appended logs *)

Lemma engine_ops_app (l k : list Event) :
  engine_ops (l ++ k) = engine_ops l ++ engine_ops k.
Proof.
  induction l as [|e l IH]; cbn; [reflexivity|].
  destruct (is_engine_op e); cbn; rewrite IH; reflexivity.
Qed.

Lemma engine_ops_progress (ps : list ProgressState) :
  engine_ops (map SetProgress ps) = [].
Proof. induction ps as [|p ps IH]; [reflexivity|exact IH]. Qed.

Lemma invocations_app (l k : list Event) :
  invocations (l ++ k) = invocations l ++ invocations k.
Proof.
  induction l as [|e l IH]; cbn; [reflexivity|].
  destruct e; cbn; rewrite IH; reflexivity.
Qed.

Lemma invocations_progress (ps : list ProgressState) :
  invocations (map SetProgress ps) = [].
Proof. induction ps as [|p ps IH]; [reflexivity|exact IH]. Qed.

Lemma percents_app (l k : list Event) :
  percents (l ++ k) = percents l ++ percents k.
Proof.
  induction l as [|e l IH]; cbn; [reflexivity|].
  destruct e; cbn; rewrite IH; reflexivity.
Qed.

Lemma percents_progress (ps : list ProgressState) :
  percents (map SetProgress ps) = map percent ps.
Proof. induction ps as [|p ps IH]; [reflexivity|]. cbn. f_equal. exact IH. Qed.

Lemma revocations_app (u : url) (l k : list Event) :
  revocations u (l ++ k) = (revocations u l + revocations u k)%nat.
Proof.
  induction l as [|e l IH]; cbn; [reflexivity|].
  destruct e; cbn; rewrite ?IH; try reflexivity.
  destruct (Nat.eqb u u0); cbn; rewrite ?IH; reflexivity.
Qed.

Lemma revocations_progress (u : url) (ps : list ProgressState) :
  revocations u (map SetProgress ps) = O.
Proof. induction ps as [|p ps IH]; [reflexivity|exact IH]. Qed.

Lemma lifecycle_app (l k : list Event) :
  lifecycle (l ++ k) = lifecycle l ++ lifecycle k.
Proof.
  induction l as [|e l IH]; cbn; [reflexivity|].
  destruct (is_lifecycle e); cbn; rewrite IH; reflexivity.
Qed.

Lemma lifecycle_progress (ps : list ProgressState) :
  lifecycle (map SetProgress ps) = [].
Proof. induction ps as [|p ps IH]; [reflexivity|exact IH]. Qed.

(** Observations of a log made of conses and appended progress reports. *)
Ltac observe :=
  repeat first
    [ progress cbn [engine_ops is_engine_op invocations percents revocations
                    lifecycle is_lifecycle app]
    | rewrite lifecycle_app | rewrite lifecycle_progress
    | rewrite engine_ops_app | rewrite engine_ops_progress
    | rewrite invocations_app | rewrite invocations_progress
    | rewrite percents_app | rewrite percents_progress
    | rewrite revocations_app | rewrite revocations_progress ].

Lemma input_output_distinct (ext : string) : "input." +:+ ext <> "output." +:+ ext.
Proof. discriminate. Qed.

Lemma output_input_distinct (ext : string) : "output." +:+ ext <> "input." +:+ ext.
Proof. discriminate. Qed.

(** *** Order of numbers *)

Lemma compare_cont_antisym_opp (p q : positive) (c : comparison) :
  Pos.compare_cont c q p = CompOpp (Pos.compare_cont (CompOpp c) p q).
Proof. rewrite <- Pos.compare_cont_antisym, CompOpp_involutive. reflexivity. Qed.

Lemma SFcompare_antisym (x y : spec_float) :
  SFcompare y x = option_map CompOpp (SFcompare x y).
Proof.
  destruct x as [sx|sx| |sx mx ex], y as [sy|sy| |sy my ey]; cbn;
    try reflexivity;
    try (destruct sx; reflexivity);
    try (destruct sy; reflexivity);
    try (destruct sx, sy; reflexivity).
  destruct sx, sy; cbn; try reflexivity;
    rewrite (Z.compare_antisym ex ey);
    destruct (ex ?= ey); cbn; try reflexivity;
    rewrite (compare_cont_antisym_opp mx my Eq); cbn;
    rewrite ?CompOpp_involutive; reflexivity.
Qed.

(** [a < b] excludes [b <= a]. *)
Lemma ltb_not_leb (a b : Num.number) : Num.ltb a b = true -> Num.leb b a = false.
Proof.
  unfold Num.ltb, Num.leb, SFltb, SFleb. rewrite (SFcompare_antisym a b).
  destruct (SFcompare a b) as [[]|]; cbn; congruence.
Qed.

(** *** Runs that pass validation *)


Lemma World_ext (a b : World) :
  currentVideo a = currentVideo b ->
  processedVideo a = processedVideo b ->
  progress a = progress b ->
  error a = error b ->
  info a = info b ->
  isProcessing a = isProcessing b ->
  ffmpegReady a = ffmpegReady b ->
  ffmpegRef a = ffmpegRef b ->
  live_urls a = live_urls b ->
  next_url a = next_url b ->
  workspace a = workspace b ->
  timers a = timers b ->
  log a = log b ->
  a = b.
Proof. destruct a, b; cbn; intros; subst; reflexivity. Qed.

(** [trimVideo] catches what its body throws: it always returns. *)
Lemma trimVideo_returns (eng : EngineRun) (vf : VideoFile.t) (w : World) :
  exists o, snd (trimVideo eng vf w) = Ok o.
Proof.
  unfold trimVideo, try_finally, try_catch.
  match goal with
  | |- context [setProgress ?p ≫= ?k] =>
      destruct ((setProgress p ≫= k) w) as [w1 [o1|e1]]
  end; cbn; eauto.
Qed.

Lemma handleFile_accepted
  (w : World) (d : Num.number) (eng : EngineRun) (file : File.t) :
  ffmpegReady w = true ->
  Num.leb d (Num.of_Z 3) = false ->
  handleFile (LoadedMetadata d) eng file w
  = trimVideo eng (intake d file w) (validated d file w).
Proof.
  intros Hready Hd. unfold handleFile. rewrite Hready. cbn [negb].
  cbv [clearMessages getVideoDuration createObjectURL revokeObjectURL
       setError setInfo setCurrentVideo setProcessedVideo setIsProcessing
       try_catch throw modify mbind M_bind mret M_ret].
  proj. rewrite Hd. proj.
  match goal with |- context [trimVideo eng ?vf ?w0] =>
    replace w0 with (validated d file w)
      by (apply World_ext; unfold validated; proj;
          rewrite <- ?app_assoc; reflexivity);
    change vf with (intake d file w)
  end.
  destruct (trimVideo_returns eng (intake d file w) (validated d file w))
    as [o Ho].
  destruct (trimVideo eng _ _) as [w' r]. cbn in Ho. subst r. reflexivity.
Qed.

Lemma since_refl_app (w : World) (l : list Event) (w' : World) :
  log w' = log w ++ l -> log w' = log w ++ since w w'.
Proof. intros H. rewrite (since_app w w' l H). exact H. Qed.

Lemma since_trans (w w' w'' : World) :
  log w' = log w ++ since w w' ->
  log w'' = log w' ++ since w' w'' ->
  since w w'' = since w w' ++ since w' w''.
Proof.
  intros H1 H2. apply since_app. rewrite H2, H1 at 1.
  rewrite <- app_assoc. reflexivity.
Qed.

Lemma since_validated (w : World) (d : Num.number) (file : File.t) :
  since w (validated d file w)
  = [SetError ""; SetProcessedVideo None;
     CreateObjectURL (next_url w); RevokeObjectURL (next_url w);
     CreateObjectURL (S (next_url w)); SetCurrentVideo (intake d file w)].
Proof. apply since_app. reflexivity. Qed.

(** One step of a [try { c; rest } catch { h } finally { fin }]. *)
Lemma step_try {A : Type} (c : M A) (f : A -> M Outcome)
  (h : exn -> M Outcome) (fin : World -> World) (w : World) :
  try_finally (try_catch (c ≫= f) h) fin w
  = match c w with
    | (w', Ok a) => try_finally (try_catch (f a) h) fin w'
    | (w', Throw e) => try_finally (h e) fin w'
    end.
Proof.
  unfold try_finally, try_catch, mbind, M_bind.
  destruct (c w) as [w' [a|e]]; reflexivity.
Qed.

(** The world an invocation leaves and whether it throws. *)
Lemma exec_eq (eng : EngineRun) (args : list string) (w : World) :
  exec eng args w
  = (match exec_output eng with
     | Some d =>
         with_workspace
           (<[default "" (last args) := d]> (workspace w))
           (reported (exec_progress eng) (emit (Exec args) w))
     | None => reported (exec_progress eng) (emit (Exec args) w)
     end,
     match exec_error eng with Some e => Throw e | None => Ok tt end).
Proof.
  unfold exec, mbind, M_bind, modify. rewrite report_reported.
  rewrite reported_workspace. proj.
  destruct (exec_output eng), (exec_error eng); reflexivity.
Qed.

(** Lookups in a workspace after the entries of a run were put or removed. *)
Section Workspace.
Variables (ws : gmap string bytes) (ext : string) (d : bytes).

Lemma ws_put_get (k : string) : <[k := d]> ws !! k = Some d.
Proof. apply lookup_insert_eq. Qed.

Lemma ws_put_input_get_output :
  <["input." +:+ ext := d]> ws !! ("output." +:+ ext) = ws !! ("output." +:+ ext).
Proof. apply lookup_insert_ne, input_output_distinct. Qed.

Lemma ws_put_output_get_input :
  <["output." +:+ ext := d]> ws !! ("input." +:+ ext) = ws !! ("input." +:+ ext).
Proof. apply lookup_insert_ne, output_input_distinct. Qed.

Lemma ws_remove_input_get_output :
  delete ("input." +:+ ext) ws !! ("output." +:+ ext) = ws !! ("output." +:+ ext).
Proof. apply lookup_delete_ne, input_output_distinct. Qed.
End Workspace.

Ltac lookups :=
  repeat match goal with
    | |- context [workspace (reported _ _)] => rewrite reported_workspace
    | |- context [<[?k := _]> _ !! ?k] => rewrite ws_put_get
    | |- context [<["input." +:+ ?e := _]> _ !! ("output." +:+ ?e)] =>
        rewrite ws_put_input_get_output
    | |- context [<["output." +:+ ?e := _]> _ !! ("input." +:+ ?e)] =>
        rewrite ws_put_output_get_input
    | |- context [delete ("input." +:+ ?e) _ !! ("output." +:+ ?e)] =>
        rewrite ws_remove_input_get_output
    | H : workspace ?w !! ?k = _ |- context [workspace ?w !! ?k] => rewrite H
    | _ => progress proj
    end.

Ltac prim :=
  cbv [writeFile readFile deleteFile createObjectURL revokeObjectURL
       setProgress setError setProcessedVideo setTimeout_reset
       throw modify mret M_ret];
  proj.

(** Runs one statement of the [try] block of [trimVideo]. *)
Ltac step :=
  rewrite step_try; cbv beta zeta;
  try match goal with |- context [exec _ _ _] => rewrite exec_eq end;
  prim; lookups.

(** Cases of a call of [trimVideo]: the engine reference, the staging, the
    invocation, the output entry. The call is run once, whatever the number
    of its occurrences in the goal. *)
Ltac trim_cases w eng vf :=
  let r := fresh "r" in
  let Hr := fresh "Hr" in
  remember (trimVideo eng vf w) as r eqn:Hr;
  revert Hr; unfold trimVideo;
  step;                                                     (* 10 % *)
  step; destruct (ffmpegRef w) eqn:?Href;
  [ step;                                                   (* engine there *)
    step;                                                   (* 20 % *)
    step; destruct (write_error eng) eqn:?Hwrite;
    [ | step;                                               (* 30 % *)
        step;                                               (* exec *)
        destruct (exec_error eng) eqn:?Hexec, (exec_output eng) eqn:?Hout;
        [ | | step; step | step; step;
              destruct (workspace w !! ("output." +:+
                          getFileExtension (File.name (VideoFile.file vf))))
                eqn:?Hstale ];
        lookups ]
  | ];
  repeat step;
  cbv [try_finally try_catch setError modify mbind M_bind mret M_ret];
  proj;
  intros Hr; subst r; unfold final, outcome; proj;
  repeat match goal with
    | |- context [next_url (reported _ _)] => rewrite reported_next_url
    | |- context [live_urls (reported _ _)] => rewrite reported_live_urls
    | |- context [processedVideo (reported _ _)] => rewrite reported_processedVideo
    | |- context [currentVideo (reported _ _)] => rewrite reported_currentVideo
    | |- context [ffmpegReady (reported _ _)] => rewrite reported_ffmpegReady
    | |- context [ffmpegRef (reported _ _)] => rewrite reported_ffmpegRef
    | |- context [log (reported _ _)] => rewrite reported_log
    | _ => progress proj
    end.

Ltac since_norm :=
  unfold since; proj; rewrite ?reported_log; proj;
  rewrite <- ?app_assoc; rewrite drop_app_length; proj.

(** The log only grows. *)
Lemma trimVideo_log (eng : EngineRun) (vf : VideoFile.t) (w : World) :
  let w' := final (trimVideo eng vf w) in
  log w' = log w ++ since w w'.
Proof.
  intros w'; subst w'. trim_cases w eng vf.
  all: since_norm; reflexivity.
Qed.

(** The argument list of the one invocation of a call that staged its
    input. *)
Lemma trimVideo_invocations (eng : EngineRun) (vf : VideoFile.t) (w : World) :
  ffmpegRef w = true ->
  write_error eng = None ->
  let ext := getFileExtension (File.name (VideoFile.file vf)) in
  invocations (since w (final (trimVideo eng vf w)))
  = [[ "-i"; "input." +:+ ext;
       "-t"; Num.toString (Num.sub (VideoFile.duration vf) (Num.of_Z 3));
       "-c"; "copy"; "-avoid_negative_ts"; "make_zero";
       "output." +:+ ext ]].
Proof.
  intros Hr Hw ext; subst ext. trim_cases w eng vf; try discriminate.
  all: since_norm.
  all: observe; reflexivity.
Qed.

(** *** The time limit as a string *)


Section DigitStrings.

Lemma digit_char_is_digit (d : Z) : 0 <= d <= 9 -> is_digit (Num.digit_char d) = true.
Proof.
  intros H.
  assert (d = 0 \/ d = 1 \/ d = 2 \/ d = 3 \/ d = 4 \/ d = 5 \/ d = 6 \/
          d = 7 \/ d = 8 \/ d = 9) as Hd by lia.
  repeat (destruct Hd as [->|Hd]; [reflexivity|]). subst d. reflexivity.
Qed.

Lemma mod10_digit (n : Z) : 0 <= n mod 10 <= 9.
Proof. pose proof (Z.mod_pos_bound n 10). lia. Qed.

Lemma digits_aux_all_digits (fuel : nat) (n : Z) (acc : string) :
  all_digits acc = true -> all_digits (Num.digits_aux fuel n acc) = true.
Proof.
  revert n acc. induction fuel as [|f IH]; intros n acc Hacc; [exact Hacc|].
  cbn [Num.digits_aux].
  assert (all_digits (String (Num.digit_char (n mod 10)) acc) = true) as H.
  { cbn [all_digits]. rewrite Hacc, digit_char_is_digit; [reflexivity|].
    apply mod10_digit. }
  destruct (n <? 10); [exact H|]. apply IH, H.
Qed.

Lemma digits_aux_truthy (fuel : nat) (n : Z) (acc : string) :
  Str.truthy acc = true -> Str.truthy (Num.digits_aux fuel n acc) = true.
Proof.
  revert n acc. induction fuel as [|f IH]; intros n acc Hacc; [exact Hacc|].
  cbn [Num.digits_aux]. destruct (n <? 10); [reflexivity|]. apply IH. reflexivity.
Qed.

Lemma digits_digit_string (n : Z) : digit_string (Num.digits n) = true.
Proof.
  unfold digit_string, Num.digits. cbn [Num.digits_aux].
  apply andb_true_intro. split.
  - destruct (n <? 10); [reflexivity|]. apply digits_aux_truthy. reflexivity.
  - destruct (n <? 10).
    + cbn [all_digits]. rewrite digit_char_is_digit; [reflexivity|].
      apply mod10_digit.
    + apply digits_aux_all_digits. cbn [all_digits].
      rewrite digit_char_is_digit; [reflexivity|].
      apply mod10_digit.
Qed.

Lemma append_cons (c : ascii) (a b : string) :
  String c a +:+ b = String c (a +:+ b).
Proof. reflexivity. Qed.

Lemma all_digits_app (a b : string) :
  all_digits (a +:+ b) = all_digits a && all_digits b.
Proof.
  induction a as [|c a IH]; [reflexivity|].
  rewrite append_cons. cbn [all_digits]. rewrite IH. apply andb_assoc.
Qed.

Lemma truthy_app_l (a b : string) :
  Str.truthy a = true -> Str.truthy (a +:+ b) = true.
Proof. destruct a; [discriminate|reflexivity]. Qed.

Lemma all_digits_zeros (n : nat) : all_digits (Num.zeros n) = true.
Proof. induction n as [|n IH]; [reflexivity|exact IH]. Qed.

Lemma all_digits_take (n : nat) (s : string) :
  all_digits s = true -> all_digits (Num.str_take n s) = true.
Proof.
  revert s. induction n as [|n IH]; intros [|c s] H; try reflexivity.
  cbn [all_digits Num.str_take] in *.
  apply andb_prop in H as [Hc Hs]. rewrite Hc, (IH s Hs). reflexivity.
Qed.

Lemma all_digits_drop (n : nat) (s : string) :
  all_digits s = true -> all_digits (Num.str_drop n s) = true.
Proof.
  revert s. induction n as [|n IH]; intros [|c s] H; try exact H.
  cbn [all_digits Num.str_drop] in *.
  apply andb_prop in H as [Hc Hs]. exact (IH s Hs).
Qed.

Lemma truthy_take (n : nat) (s : string) :
  (0 < n)%nat -> Str.truthy s = true -> Str.truthy (Num.str_take n s) = true.
Proof. destruct n, s; cbn; intros; try lia; congruence. Qed.

Lemma truthy_drop (n : nat) (s : string) :
  (n < String.length s)%nat -> Str.truthy (Num.str_drop n s) = true.
Proof.
  revert s. induction n as [|n IH]; intros [|c s] H; cbn in *; try lia;
    first [reflexivity | apply IH; lia].
Qed.

(** A digit is not the point. *)
Lemma digit_not_point (c : ascii) : is_digit c = true -> Ascii.eqb c "." = false.
Proof.
  intros H. destruct (Ascii.eqb_spec c "."); [|reflexivity].
  subst c. discriminate.
Qed.

Lemma split_digits (s : string) :
  all_digits s = true -> Str.split "." s = [s].
Proof.
  induction s as [|c s IH]; [reflexivity|].
  cbn [all_digits Str.split]. intros H. apply andb_prop in H as [Hc Hs].
  rewrite (digit_not_point c Hc), (IH Hs). reflexivity.
Qed.

Lemma split_digits_point (a b : string) :
  all_digits a = true ->
  Str.split "." (a +:+ String "." b) = a :: Str.split "." b.
Proof.
  induction a as [|c a IH]; [reflexivity|].
  rewrite append_cons. cbn [all_digits Str.split]. intros H.
  apply andb_prop in H as [Hc Ha].
  rewrite (digit_not_point c Hc), (IH Ha). reflexivity.
Qed.

(** In the range where Number::toString writes no exponent, the digits
    [ds] at point position [n] come out in plain decimal notation. *)
Lemma format_plain (ds : string) (n : Z) :
  digit_string ds = true -> -5 <= n <= 21 ->
  plain_decimal (Num.format ds n) = true.
Proof.
  unfold digit_string. intros Hds Hn. apply andb_prop in Hds as [Hne Hds].
  unfold Num.format, plain_decimal.
  destruct (Z.leb_spec (Z.of_nat (String.length ds)) n) as [Hk|Hk];
    destruct (Z.leb_spec n 21) as [_|?]; try lia; cbn [andb].
  - rewrite split_digits.
    + unfold digit_string. rewrite truthy_app_l by exact Hne.
      rewrite all_digits_app, Hds, all_digits_zeros. reflexivity.
    + rewrite all_digits_app, Hds, all_digits_zeros. reflexivity.
  - destruct (Z.ltb_spec 0 n) as [Hpos|Hpos]; cbn [andb].
    + change ("." +:+ ?x) with (String "." x).
      rewrite split_digits_point by (apply all_digits_take, Hds).
      rewrite split_digits by (apply all_digits_drop, Hds).
      unfold digit_string.
      rewrite truthy_take, truthy_drop, all_digits_take, all_digits_drop;
        try assumption; try reflexivity; lia.
    + destruct (Z.ltb_spec (-6) n) as [_|?]; [|lia].
      destruct (Z.leb_spec n 0) as [_|?]; [|lia]. cbn [andb].
      change ("0." +:+ ?x) with (String "0" (String "." x)).
      cbn [Str.split Ascii.eqb Bool.eqb]. cbn.
      rewrite split_digits
        by (rewrite all_digits_app, Hds, all_digits_zeros; reflexivity).
      unfold digit_string. rewrite all_digits_app, Hds, all_digits_zeros.
      destruct (Z.to_nat (- n)); [|reflexivity].
      change (Num.zeros 0 +:+ ds) with ds. rewrite Hne. reflexivity.
Qed.

End DigitStrings.

(** The events of an accepted call: those up to the call of [trimVideo],
    then those of [trimVideo]. *)
Lemma handleFile_accepted_since
  (w : World) (d : Num.number) (eng : EngineRun) (file : File.t) :
  ffmpegReady w = true ->
  Num.leb d (Num.of_Z 3) = false ->
  since w (final (handleFile (LoadedMetadata d) eng file w))
  = since w (validated d file w)
    ++ since (validated d file w)
         (final (trimVideo eng (intake d file w) (validated d file w))).
Proof.
  intros Hready Hd. rewrite (handleFile_accepted w d eng file Hready Hd).
  apply since_trans.
  - rewrite since_validated. reflexivity.
  - apply trimVideo_log.
Qed.

(** *** What a call of [trimVideo] leaves behind *)

(** On every path: the current video is kept, no object URL is revoked,
    live URLs stay live, and the call ends as Success or as RunFailure; on
    RunFailure the result and the object URLs are as before the call. *)
Lemma trimVideo_frame (eng : EngineRun) (vf : VideoFile.t) (w : World) :
  let r := trimVideo eng vf w in
  currentVideo (final r) = currentVideo w /\
  (forall u, revocations u (since w (final r)) = O) /\
  live_urls w ⊆ live_urls (final r) /\
  isProcessing (final r) = false /\
  ((exists v, outcome r = Some (Success v)) \/
   (exists e, outcome r = Some (RunFailure e) /\
              processedVideo (final r) = processedVideo w /\
              lifecycle (since w (final r)) = [] /\
              live_urls (final r) = live_urls w /\
              next_url (final r) = next_url w)).
Proof.
  intros r; subst r. trim_cases w eng vf.
  all: (split; [reflexivity|]).
  all: (split; [intros u; since_norm; observe; reflexivity|]).
  all: (split; [set_solver|]).
  all: (split; [reflexivity|]).
  all: first [ left; eexists; reflexivity
             | right; eexists; repeat split; try reflexivity;
               since_norm; observe; reflexivity ].
Qed.

(** On Success: the result is published under a fresh object URL, after the
    staged entries were removed. *)
Lemma trimVideo_success
  (eng : EngineRun) (vf : VideoFile.t) (w : World) (v : ProcessedVideo.t) :
  let r := trimVideo eng vf w in
  let name := File.name (VideoFile.file vf) in
  outcome r = Some (Success v) ->
  ProcessedVideo.url v = next_url w /\
  ProcessedVideo.originalName v = name /\
  Blob.type (ProcessedVideo.blob v) = getMimeType name /\
  processedVideo (final r) = Some v /\
  live_urls (final r) = {[S (next_url w)]} ∪ ({[next_url w]} ∪ live_urls w) /\
  next_url (final r) = S (S (next_url w)) /\
  workspace (final r) !! ("input." +:+ getFileExtension name) = None /\
  workspace (final r) !! ("output." +:+ getFileExtension name) = None /\
  percent (progress (final r)) = Num.of_Z 100 /\
  lifecycle (since w (final r))
  = [CreateObjectURL (next_url w); SetProcessedVideo (Some v);
     CreateObjectURL (S (next_url w))].
Proof.
  intros r name; subst r name. trim_cases w eng vf; try discriminate.
  all: intros Hv; injection Hv as <-; proj.
  all: repeat (split; [first [reflexivity | apply lookup_delete_eq
                 | rewrite ws_remove_input_get_output; apply lookup_delete_eq
                 | rewrite lookup_delete_ne by apply output_input_distinct;
                   apply lookup_delete_eq ]|]).
  all: since_norm; observe; reflexivity.
Qed.

(** *** How a call of [handleFile] can end *)

(** A call that reaches [trimVideo] had the engine ready and a probed
    duration that is not [<= 3]. *)
Lemma handleFile_trim_inv
  (w : World) (probe : ProbeResult) (eng : EngineRun) (file : File.t) :
  let r := handleFile probe eng file w in
  (exists v, outcome r = Some (Success v)) \/
  (exists e, outcome r = Some (RunFailure e)) ->
  ffmpegReady w = true /\
  exists d, probe = LoadedMetadata d /\ Num.leb d (Num.of_Z 3) = false.
Proof.
  intros r H; subst r.
  destruct (ffmpegReady w) eqn:Hready.
  - split; [reflexivity|]. destruct probe as [d|].
    + destruct (Num.leb d (Num.of_Z 3)) eqn:Hd; [|eauto].
      exfalso. revert H. run. rewrite Hready. proj. rewrite Hd. proj.
      intros [[v H]|[e H]]; discriminate.
    + exfalso. revert H. run. rewrite Hready. proj.
      intros [[v H]|[e H]]; discriminate.
  - exfalso. revert H. run. rewrite Hready. proj.
    intros [[v H]|[e H]]; discriminate.
Qed.

(** A call of [handleFile] always returns, in one of the four ways. *)
Lemma handleFile_returns
  (w : World) (probe : ProbeResult) (eng : EngineRun) (file : File.t) :
  exists o, outcome (handleFile probe eng file w) = Some o.
Proof.
  destruct (ffmpegReady w) eqn:Hready.
  - destruct probe as [d|].
    + destruct (Num.leb d (Num.of_Z 3)) eqn:Hd.
      * run. rewrite Hready. proj. rewrite Hd. proj. eauto.
      * rewrite handleFile_accepted by assumption.
        destruct (trimVideo_returns eng (intake d file w) (validated d file w))
          as [o Ho]. unfold outcome. rewrite Ho. eauto.
    + run. rewrite Hready. proj. eauto.
  - run. rewrite Hready. proj. eauto.
Qed.

(** A handle made before the run is not the one the probe revokes. *)
Lemma revocations_validated (w : World) (d : Num.number) (file : File.t) (u : url) :
  (u < next_url w)%nat ->
  revocations u (since w (validated d file w)) = O.
Proof.
  intros Hu. rewrite since_validated. cbn [revocations].
  destruct (Nat.eqb_spec u (next_url w)); [lia|reflexivity].
Qed.

Lemma live_validated (w : World) (d : Num.number) (file : File.t) (u : url) :
  (u < next_url w)%nat ->
  u ∈ live_urls w -> u ∈ live_urls (validated d file w).
Proof. intros Hu Hin. unfold validated. proj. set_solver by lia. Qed.

(** *** C3: the workspace after a run *)


(** C3 (code defect). The clean-up of [trimVideo] is inside its [try]
    block, after the invocation: when the invocation throws, the run ends as
    RunFailure, no entry is removed and the staged input is still in the
    workspace. *)
Theorem C3_failed_invocation_leaves_input :
  let r := handleFile (LoadedMetadata (Num.of_Z 10)) engine_exec_fails
             (clip "a.mp4") ready_world in
  outcome r = Some (RunFailure "Error: ffmpeg exited") /\
  workspace ready_world !! "input.mp4" = None /\
  workspace (final r) !! "input.mp4" = Some (File.data (clip "a.mp4")) /\
  engine_ops (since ready_world (final r))
  = [WriteFile "input.mp4";
     Exec ["-i"; "input.mp4"; "-t"; "7"; "-c"; "copy";
           "-avoid_negative_ts"; "make_zero"; "output.mp4"]].
Proof. vm_compute. repeat split. Qed.

(** The same on every run whose invocation throws. *)
Lemma failed_invocation_leaves_input
  (w : World) (d : Num.number) (eng : EngineRun) (file : File.t) (e : exn) :
  ffmpegReady w = true -> ffmpegRef w = true ->
  Num.leb d (Num.of_Z 3) = false ->
  write_error eng = None ->
  exec_error eng = Some e ->
  let r := handleFile (LoadedMetadata d) eng file w in
  outcome r = Some (RunFailure e) /\
  workspace (final r) !! ("input." +:+ getFileExtension (File.name file))
  = Some (File.data file).
Proof.
  intros Hready Href Hd Hwrite Hexec r; subst r.
  rewrite handleFile_accepted by assumption.
  assert (ffmpegRef (validated d file w) = true) as Href' by exact Href.
  generalize dependent (validated d file w). intros w' Href'.
  trim_cases w' eng (intake d file w); try congruence.
  all: injection Hexec as ->; split; [reflexivity|].
  all: rewrite ?reported_workspace; unfold intake; proj.
  all: rewrite ?ws_put_output_get_input; apply ws_put_get.
Qed.

(** After Success the two staged entries are gone. *)
Lemma success_clears_workspace
  (w : World) (probe : ProbeResult) (eng : EngineRun) (file : File.t)
  (v : ProcessedVideo.t) :
  let r := handleFile probe eng file w in
  outcome r = Some (Success v) ->
  workspace (final r) !! ("input." +:+ getFileExtension (File.name file)) = None /\
  workspace (final r) !! ("output." +:+ getFileExtension (File.name file)) = None.
Proof.
  intros r Hv; subst r.
  destruct (handleFile_trim_inv w probe eng file) as (Hready & d & -> & Hd);
    [eauto|].
  rewrite handleFile_accepted in * by assumption.
  apply trimVideo_success in Hv
    as (_ & _ & _ & _ & _ & _ & Hin & Hout & _).
  split; assumption.
Qed.

(** *** Reachable states *)


Lemma trimVideo_engine_kept (eng : EngineRun) (vf : VideoFile.t) (w : World) :
  let r := trimVideo eng vf w in
  ffmpegReady (final r) = ffmpegReady w /\ ffmpegRef (final r) = ffmpegRef w.
Proof.
  intros r; subst r. trim_cases w eng vf.
  all: split; first [reflexivity | assumption].
Qed.

Lemma invariant_initial : invariant initial.
Proof.
  split.
  - reflexivity.
  - intros u Hu. apply not_elem_of_empty in Hu. contradiction.
  - discriminate.
  - discriminate.
Qed.

Lemma invariant_load (load : option exn) (w : World) :
  invariant w -> invariant (final (initializeFFmpeg load w)).
Proof.
  intros [He Hf Hc Hr]. destruct load as [e|]; run; split; proj; auto.
Qed.

Lemma invariant_reset (w : World) : invariant w -> invariant (fire_reset w).
Proof.
  intros [He Hf Hc Hr]. unfold fire_reset.
  destruct (timers w); [split; assumption|].
  cbv [setProgress modify]. split; proj; auto.
Qed.

Lemma invariant_validated (d : Num.number) (file : File.t) (w : World) :
  invariant w -> invariant (validated d file w).
Proof.
  intros [He Hf Hc Hr]. unfold validated. split; proj.
  - exact He.
  - intros u Hu.
    apply elem_of_union in Hu as [Hu|Hu].
    + apply elem_of_singleton in Hu. lia.
    + apply elem_of_difference in Hu as [Hu _].
      apply elem_of_union in Hu as [Hu|Hu].
      * apply elem_of_singleton in Hu. lia.
      * specialize (Hf u Hu). lia.
  - intros v [= <-]. cbn. apply elem_of_union_l, elem_of_singleton. reflexivity.
  - discriminate.
Qed.

Lemma invariant_trimVideo (eng : EngineRun) (vf : VideoFile.t) (w : World) :
  invariant w -> invariant (final (trimVideo eng vf w)).
Proof.
  intros [He Hf Hc Hr].
  destruct (trimVideo_engine_kept eng vf w) as [Hready Href].
  destruct (trimVideo_frame eng vf w)
    as (Hcur & _ & Hsub & _ & [[v Hv]|(e & _ & Hp & _ & Hl & Hn)]).
  - apply trimVideo_success in Hv
      as (Hu & _ & _ & Hp & Hl & Hn & _).
    split.
    + rewrite Hready, Href. exact He.
    + rewrite Hl, Hn. intros u Hu'.
      apply elem_of_union in Hu' as [Hu'|Hu'];
        [apply elem_of_singleton in Hu'; lia|].
      apply elem_of_union in Hu' as [Hu'|Hu'];
        [apply elem_of_singleton in Hu'; lia|].
      specialize (Hf u Hu'). lia.
    + rewrite Hcur. intros v' Hv'. apply Hsub, Hc, Hv'.
    + rewrite Hp, Hl. intros v' [= <-]. rewrite Hu.
      apply elem_of_union_r, elem_of_union_l, elem_of_singleton. reflexivity.
  - split.
    + rewrite Hready, Href. exact He.
    + rewrite Hl, Hn. exact Hf.
    + rewrite Hcur, Hl. exact Hc.
    + rewrite Hp, Hl. exact Hr.
Qed.

Lemma invariant_handleFile
  (probe : ProbeResult) (eng : EngineRun) (file : File.t) (w : World) :
  invariant w -> invariant (final (handleFile probe eng file w)).
Proof.
  intros Hinv.
  destruct (ffmpegReady w) eqn:Hready;
    [destruct probe as [d|];
     [destruct (Num.leb d (Num.of_Z 3)) eqn:Hd|]|].
  - destruct Hinv as [He Hf Hc Hr].
    run. rewrite Hready. proj. rewrite Hd. proj. split; proj.
    + exact He.
    + intros u Hu. apply elem_of_difference in Hu as [Hu _].
      apply elem_of_union in Hu as [Hu|Hu];
        [apply elem_of_singleton in Hu; lia|].
      specialize (Hf u Hu). lia.
    + intros v Hv. specialize (Hc v Hv). specialize (Hf _ Hc).
      apply elem_of_difference. split; [apply elem_of_union_r, Hc|].
      intros Heq. apply elem_of_singleton in Heq. lia.
    + discriminate.
  - rewrite handleFile_accepted by assumption.
    apply invariant_trimVideo, invariant_validated, Hinv.
  - destruct Hinv as [He Hf Hc Hr].
    run. rewrite Hready. proj. split; proj.
    + exact He.
    + intros u Hu. apply elem_of_union in Hu as [Hu|Hu];
        [apply elem_of_singleton in Hu; lia|].
      specialize (Hf u Hu). lia.
    + intros v Hv. apply elem_of_union_r, Hc, Hv.
    + discriminate.
  - destruct Hinv as [He Hf Hc Hr].
    run. rewrite Hready. proj. split; proj; assumption.
Qed.

Theorem reachable_invariant (w : World) : reachable w -> invariant w.
Proof.
  induction 1 as [|load w _ IH|probe eng file w _ IH|w _ IH].
  - apply invariant_initial.
  - apply invariant_load, IH.
  - apply invariant_handleFile, IH.
  - apply invariant_reset, IH.
Qed.

(** *** Runs that publish a result *)

(** The life-cycle events of an accepted call that ends in Success. *)
Lemma handleFile_success_lifecycle
  (w : World) (d : Num.number) (eng : EngineRun) (file : File.t)
  (v : ProcessedVideo.t) :
  ffmpegReady w = true ->
  Num.leb d (Num.of_Z 3) = false ->
  let r := handleFile (LoadedMetadata d) eng file w in
  outcome r = Some (Success v) ->
  ProcessedVideo.url v = S (S (next_url w)) /\
  processedVideo (final r) = Some v /\
  live_urls (final r)
  = {[S (S (S (next_url w)))]} ∪ ({[S (S (next_url w))]}
      ∪ live_urls (validated d file w)) /\
  lifecycle (since w (final r))
  = [SetProcessedVideo None;
     CreateObjectURL (next_url w); RevokeObjectURL (next_url w);
     CreateObjectURL (S (next_url w)); SetCurrentVideo (intake d file w);
     CreateObjectURL (S (S (next_url w))); SetProcessedVideo (Some v);
     CreateObjectURL (S (S (S (next_url w))))].
Proof.
  intros Hready Hd r Hv; subst r.
  rewrite handleFile_accepted_since by assumption.
  rewrite handleFile_accepted in * by assumption.
  apply trimVideo_success in Hv
    as (Hu & _ & _ & Hp & Hl & _ & _ & _ & _ & Hlife).
  repeat split; try assumption.
  rewrite lifecycle_app, Hlife, since_validated. reflexivity.
Qed.

(** *** The digits Number::toString writes *)

Lemma digits2_pos_bounds (m : positive) :
  2 ^ (Z.pos (digits2_pos m) - 1) <= Z.pos m < 2 ^ Z.pos (digits2_pos m).
Proof.
  induction m as [m IH|m IH|]; cbn [digits2_pos].
  - rewrite Pos2Z.inj_succ. replace (Z.succ (Z.pos (digits2_pos m)) - 1)
      with (Z.succ (Z.pos (digits2_pos m) - 1)) by lia.
    rewrite !Z.pow_succ_r by lia. lia.
  - rewrite Pos2Z.inj_succ. replace (Z.succ (Z.pos (digits2_pos m)) - 1)
      with (Z.succ (Z.pos (digits2_pos m) - 1)) by lia.
    rewrite !Z.pow_succ_r by lia. lia.
  - cbn. lia.
Qed.

Lemma digits_aux_length (fuel : nat) (n : Z) (acc : string) :
  1 <= n < 2 ^ Z.of_nat fuel ->
  let k := Z.of_nat (String.length (Num.digits_aux fuel n acc))
           - Z.of_nat (String.length acc) in
  1 <= k /\ 10 ^ (k - 1) <= n < 10 ^ k.
Proof.
  revert n acc. induction fuel as [|f IH]; intros n acc Hn.
  - cbn in Hn. lia.
  - cbn [Num.digits_aux]. destruct (Z.ltb_spec n 10) as [Hlt|Hge].
    + cbn [String.length]. rewrite Nat2Z.inj_succ.
      replace (Z.succ (Z.of_nat (String.length acc))
               - Z.of_nat (String.length acc)) with 1 by lia.
      cbn. lia.
    + assert (1 <= n / 10 < 2 ^ Z.of_nat f) as Hdiv.
      { rewrite Nat2Z.inj_succ, Z.pow_succ_r in Hn by lia.
        split.
        - apply Z.div_le_lower_bound; lia.
        - apply Z.div_lt_upper_bound; lia. }
      specialize (IH (n / 10) (String (Num.digit_char (n mod 10)) acc) Hdiv).
      cbn zeta in IH. cbn [String.length] in IH. rewrite Nat2Z.inj_succ in IH.
      set (len := Z.of_nat (String.length (Num.digits_aux f (n / 10)
                    (String (Num.digit_char (n mod 10)) acc)))) in *.
      destruct IH as (Hk & Hlo & Hhi).
      cbn zeta.
      replace (len - Z.of_nat (String.length acc))
        with (Z.succ (len - Z.succ (Z.of_nat (String.length acc)))) by lia.
      set (k := len - Z.succ (Z.of_nat (String.length acc))) in *.
      split; [lia|].
      replace (Z.succ k - 1) with (Z.succ (k - 1)) by lia.
      rewrite !Z.pow_succ_r by lia.
      pose proof (Z.div_mod n 10 ltac:(lia)) as Hdm.
      pose proof (Z.mod_pos_bound n 10 ltac:(lia)) as Hmod.
      lia.
Qed.

Lemma digits_length (s : Z) :
  1 <= s ->
  let k := Z.of_nat (String.length (Num.digits s)) in
  1 <= k /\ 10 ^ (k - 1) <= s < 10 ^ k.
Proof.
  intros Hs. unfold Num.digits.
  pose proof (digits_aux_length (S (Z.to_nat (Z.log2 s))) s EmptyString) as H.
  cbn [String.length] in H. cbn zeta in H. rewrite Z.sub_0_r in H.
  apply H. split; [exact Hs|].
  rewrite Nat2Z.inj_succ, Z2Nat.id by apply Z.log2_nonneg.
  apply Z.log2_spec. lia.
Qed.

(** A candidate is positive and, times [10^q], lies in the interval. *)
Lemma candidates_sound (m : positive) (e q smin smax s : Z) :
  Num.candidates m e q = Some (smin, smax, s) ->
  1 <= s /\
  Num.interval_lo m e * 2 ^ Z.max (e - 2) 0 * 10 ^ Z.max (- q) 0
  <= s * (10 ^ Z.max q 0 * 2 ^ Z.max (2 - e) 0)
  <= Num.interval_hi m * 2 ^ Z.max (e - 2) 0 * 10 ^ Z.max (- q) 0.
Proof.
  unfold Num.candidates. intros H.
  set (up := 2 ^ Z.max (e - 2) 0) in *.
  set (D := 2 ^ Z.max (2 - e) 0) in *.
  set (P := 10 ^ Z.max q 0) in *.
  set (Q := 10 ^ Z.max (- q) 0) in *.
  assert (0 < P * D) as Hden.
  { apply Z.mul_pos_pos; apply Z.pow_pos_nonneg; lia. }
  set (den := P * D) in *.
  set (lo := Num.interval_lo m e * up * Q) in *.
  set (hi := Num.interval_hi m * up * Q) in *.
  set (v := 4 * Z.pos m * up * Q) in *.
  set (near := match 2 * (v mod den) ?= den with
               | Eq => if Z.even (v / den) then v / den else v / den + 1
               | Lt => v / den
               | Gt => v / den + 1
               end) in *.
  pose proof (Z.div_mod lo den ltac:(lia)) as Hlo.
  pose proof (Z.mod_pos_bound lo den Hden) as Hlo'.
  pose proof (Z.div_mod (lo + den - 1) den ltac:(lia)) as Hlo1.
  pose proof (Z.mod_pos_bound (lo + den - 1) den Hden) as Hlo1'.
  pose proof (Z.div_mod hi den ltac:(lia)) as Hhi.
  pose proof (Z.mod_pos_bound hi den Hden) as Hhi'.
  pose proof (Z.div_mod (hi + den - 1) den ltac:(lia)) as Hhi1.
  pose proof (Z.mod_pos_bound (hi + den - 1) den Hden) as Hhi1'.
  destruct (Z.even (Z.pos m)).
  - destruct (Z.leb_spec (Z.max ((lo + den - 1) / den) 1) (hi / den)) as [Hle|];
      [|discriminate].
    injection H as <- <- <-.
    set (s := Z.min (hi / den) (Z.max (Z.max ((lo + den - 1) / den) 1) near)).
    assert ((lo + den - 1) / den <= s <= hi / den /\ 1 <= s) as (Hs & Hs1)
      by (unfold s; lia).
    assert ((lo + den - 1) / den * den <= s * den)
      by (apply Z.mul_le_mono_nonneg_r; lia).
    assert (s * den <= hi / den * den)
      by (apply Z.mul_le_mono_nonneg_r; lia).
    lia.
  - destruct (Z.leb_spec (Z.max (lo / den + 1) 1) ((hi + den - 1) / den - 1))
      as [Hle|]; [|discriminate].
    injection H as <- <- <-.
    set (s := Z.min ((hi + den - 1) / den - 1)
                (Z.max (Z.max (lo / den + 1) 1) near)).
    assert (lo / den + 1 <= s <= (hi + den - 1) / den - 1 /\ 1 <= s)
      as (Hs & Hs1) by (unfold s; lia).
    assert ((lo / den + 1) * den <= s * den)
      by (apply Z.mul_le_mono_nonneg_r; lia).
    assert (s * den <= ((hi + den - 1) / den - 1) * den)
      by (apply Z.mul_le_mono_nonneg_r; lia).
    lia.
Qed.

(** The search returns a candidate of the exponent it stops at. *)
Lemma shortest_from_sound (fuel : nat) (m : positive) (e q0 s q : Z) :
  Num.shortest_from fuel m e q0 = Some (s, q) ->
  exists smin smax, Num.candidates m e q = Some (smin, smax, s).
Proof.
  revert q0. induction fuel as [|f IH]; intros q0 H; [discriminate|].
  cbn [Num.shortest_from] in H.
  destruct (Num.candidates m e q0) as [[[smin smax] s0]|] eqn:Hc.
  - injection H as -> ->. eauto.
  - exact (IH _ H).
Qed.

(** It stops at the latest where there is a candidate. *)
Lemma shortest_from_found (fuel : nat) (m : positive) (e q0 q1 : Z) :
  q1 <= q0 -> q0 - q1 < Z.of_nat fuel ->
  Num.candidates m e q1 <> None ->
  exists s q, Num.shortest_from fuel m e q0 = Some (s, q).
Proof.
  revert q0. induction fuel as [|f IH]; intros q0 Hle Hfuel Hc; [lia|].
  cbn [Num.shortest_from].
  destruct (Num.candidates m e q0) as [[[smin smax] s0]|] eqn:Hc0; [eauto|].
  destruct (Z.eq_dec q0 q1) as [->|Hne]; [congruence|].
  apply IH; [lia|lia|exact Hc].
Qed.

(** There is a candidate wherever a multiple of [10^q] is strictly inside
    the interval. *)
Lemma candidates_inside (m : positive) (e q s : Z) :
  1 <= s ->
  Num.interval_lo m e * 2 ^ Z.max (e - 2) 0 * 10 ^ Z.max (- q) 0
  < s * (10 ^ Z.max q 0 * 2 ^ Z.max (2 - e) 0)
  < Num.interval_hi m * 2 ^ Z.max (e - 2) 0 * 10 ^ Z.max (- q) 0 ->
  Num.candidates m e q <> None.
Proof.
  intros Hs Hin. unfold Num.candidates.
  set (up := 2 ^ Z.max (e - 2) 0) in *.
  set (D := 2 ^ Z.max (2 - e) 0) in *.
  set (P := 10 ^ Z.max q 0) in *.
  set (Q := 10 ^ Z.max (- q) 0) in *.
  assert (0 < P * D) as Hden.
  { apply Z.mul_pos_pos; apply Z.pow_pos_nonneg; lia. }
  set (den := P * D) in *.
  set (lo := Num.interval_lo m e * up * Q) in *.
  set (hi := Num.interval_hi m * up * Q) in *.
  destruct (Z.even (Z.pos m)).
  - assert ((lo + den - 1) / den <= s) as H1.
    { apply Z.lt_succ_r, Z.div_lt_upper_bound; lia. }
    assert (s <= hi / den) as H2.
    { apply Z.div_le_lower_bound; lia. }
    destruct (Z.leb_spec (Z.max ((lo + den - 1) / den) 1) (hi / den));
      [discriminate|lia].
  - assert (lo / den + 1 <= s) as H1.
    { assert (lo / den < s); [|lia]. apply Z.div_lt_upper_bound; lia. }
    assert (s <= (hi + den - 1) / den - 1) as H2.
    { assert (s + 1 <= (hi + den - 1) / den); [|lia].
      apply Z.div_le_lower_bound; lia. }
    destruct (Z.leb_spec (Z.max (lo / den + 1) 1) ((hi + den - 1) / den - 1));
      [discriminate|lia].
Qed.

Lemma interval_lo_below (m : positive) (e : Z) :
  0 < Num.interval_lo m e < 4 * Z.pos m.
Proof. unfold Num.interval_lo. destruct (_ && _); lia. Qed.

(** The double itself is a candidate at the exponent [min e 0]. *)
Lemma candidates_exact (m : positive) (e : Z) :
  Num.candidates m e (Z.min e 0) <> None.
Proof.
  pose proof (interval_lo_below m e) as Hlo.
  destruct (Z.le_gt_cases e 0) as [He|He].
  - (* m * 2^e = m * 5^(-e) * 10^e *)
    apply (candidates_inside m e (Z.min e 0) (Z.pos m * 5 ^ (- e))).
    + assert (0 < 5 ^ (- e)) by (apply Z.pow_pos_nonneg; lia). nia.
    + replace (Z.max (e - 2) 0) with 0 by lia.
      replace (Z.max (Z.min e 0) 0) with 0 by lia.
      replace (Z.max (- Z.min e 0) 0) with (- e) by lia.
      replace (Z.max (2 - e) 0) with (2 + - e) by lia.
      rewrite Z.pow_add_r by lia.
      change (10 ^ (- e)) with ((2 * 5) ^ (- e)). rewrite Z.pow_mul_l.
      assert (0 < 5 ^ (- e)) by (apply Z.pow_pos_nonneg; lia).
      assert (0 < 2 ^ (- e)) by (apply Z.pow_pos_nonneg; lia).
      set (a := 5 ^ (- e)) in *. set (b := 2 ^ (- e)) in *.
      change (2 ^ 0) with 1. change (10 ^ 0) with 1. change (2 ^ 2) with 4.
      unfold Num.interval_hi.
      assert (0 < b * a) by (apply Z.mul_pos_pos; assumption).
      replace (Z.pos m * a * (1 * (4 * b))) with (4 * Z.pos m * (b * a)) by ring.
      replace (Num.interval_lo m e * 1 * (b * a))
        with (Num.interval_lo m e * (b * a)) by ring.
      replace ((4 * Z.pos m + 2) * 1 * (b * a))
        with ((4 * Z.pos m + 2) * (b * a)) by ring.
      split; apply Z.mul_lt_mono_pos_r; lia.
  - replace (Z.min e 0) with 0 by lia.
    destruct (Z.eq_dec e 1) as [->|Hne].
    + apply (candidates_inside m 1 0 (2 * Z.pos m)); [lia|].
      change (Z.max (1 - 2) 0) with 0. change (Z.max (- 0) 0) with 0.
      change (Z.max 0 0) with 0. change (Z.max (2 - 1) 0) with 1.
      change (2 ^ 0) with 1. change (10 ^ 0) with 1. change (2 ^ 1) with 2.
      unfold Num.interval_hi. lia.
    + apply (candidates_inside m e 0 (Z.pos m * 2 ^ e)).
      * assert (0 < 2 ^ e) by (apply Z.pow_pos_nonneg; lia). nia.
      * replace (Z.max (e - 2) 0) with (e - 2) by lia.
        replace (Z.max (2 - e) 0) with 0 by lia.
        replace (Z.max 0 0) with 0 by lia. replace (Z.max (- 0) 0) with 0 by lia.
        change (2 ^ 0) with 1. change (10 ^ 0) with 1.
        assert (2 ^ e = 4 * 2 ^ (e - 2)) as ->.
        { replace e with (2 + (e - 2)) at 1 by lia.
          rewrite Z.pow_add_r by lia. reflexivity. }
        assert (0 < 2 ^ (e - 2)) by (apply Z.pow_pos_nonneg; lia).
        set (a := 2 ^ (e - 2)) in *. unfold Num.interval_hi.
        replace (Z.pos m * (4 * a) * (1 * 1)) with (4 * Z.pos m * a) by ring.
        replace (Num.interval_lo m e * a * 1) with (Num.interval_lo m e * a) by ring.
        replace ((4 * Z.pos m + 2) * a * 1) with ((4 * Z.pos m + 2) * a) by ring.
        split; apply Z.mul_lt_mono_pos_r; lia.
Qed.

(** A valid finite double is normal, with a mantissa of 53 bits, or
    subnormal, at the least exponent. *)
Lemma valid_finite (s : bool) (m : positive) (e : Z) :
  Num.valid (S754_finite s m e) = true ->
  (Z.pos (digits2_pos m) = 53 /\ -1074 <= e <= 971) \/
  (Z.pos (digits2_pos m) < 53 /\ e = -1074).
Proof.
  unfold Num.valid, valid_binary, bounded, canonical_mantissa, fexp, emin,
    Num.prec, Num.emax.
  intros H. apply andb_prop in H as [H1 H2].
  apply Z.eqb_eq in H1. apply Z.leb_le in H2.
  change IntDef.Z.max with Z.max in H1. change IntDef.Z.sub with Z.sub in *.
  change IntDef.Z.add with Z.add in *.
  lia.
Qed.

(** Number::toString finds digits for every valid double. *)
Lemma shortest_total (s : bool) (m : positive) (e : Z) :
  Num.valid (S754_finite s m e) = true ->
  exists s' q, Num.shortest m e = Some (s', q).
Proof.
  intros Hv. apply valid_finite in Hv.
  unfold Num.shortest.
  assert (Z.min e 0 <= Num.start_exponent m e
          /\ Num.start_exponent m e - Z.min e 0 < 1500) as [Hlo Hhi].
  { unfold Num.start_exponent.
    set (x := (Z.pos (digits2_pos m) + e + 1) * 30103).
    pose proof (Z.div_mod x 100000 ltac:(lia)) as Hdm.
    pose proof (Z.mod_pos_bound x 100000 ltac:(lia)) as Hmod.
    assert (x = (Z.pos (digits2_pos m) + e + 1) * 30103) as Hx by reflexivity.
    clearbody x. lia. }
  apply (shortest_from_found _ m e _ (Z.min e 0)).
  - exact Hlo.
  - rewrite Z2Nat.id by lia. exact Hhi.
  - apply candidates_exact.
Qed.


Lemma millionth_eq : millionth = S754_finite false 4722366482869645 (-72).
Proof. vm_compute. reflexivity. Qed.

Lemma sextillion_eq : sextillion = S754_finite false 7629394531250000 17.
Proof. vm_compute. reflexivity. Qed.

Lemma leb_finite (m1 m2 : positive) (e1 e2 : Z) :
  Num.leb (S754_finite false m1 e1) (S754_finite false m2 e2) = true ->
  e1 < e2 \/ (e1 = e2 /\ Z.pos m1 <= Z.pos m2).
Proof.
  unfold Num.leb, SFleb, SFcompare.
  destruct (Z.compare_spec e1 e2) as [->|Hlt|Hgt]; try (intros; lia || discriminate).
  change (Pos.compare_cont Eq m1 m2) with (Pos.compare m1 m2).
  destruct (Pos.compare_spec m1 m2); intros; try discriminate; right; lia.
Qed.

Lemma ltb_finite (m1 m2 : positive) (e1 e2 : Z) :
  Num.ltb (S754_finite false m1 e1) (S754_finite false m2 e2) = true ->
  e1 < e2 \/ (e1 = e2 /\ Z.pos m1 < Z.pos m2).
Proof.
  unfold Num.ltb, SFltb, SFcompare.
  destruct (Z.compare_spec e1 e2) as [->|Hlt|Hgt]; try (intros; lia || discriminate).
  change (Pos.compare_cont Eq m1 m2) with (Pos.compare m1 m2).
  destruct (Pos.compare_spec m1 m2); intros; try discriminate; right; lia.
Qed.

Lemma interval_lo_above (m : positive) (e : Z) : 4 * Z.pos m - 2 <= Num.interval_lo m e.
Proof. unfold Num.interval_lo. destruct (_ && _); lia. Qed.

(** Below 10^21 the whole interval of a double is below 10^21. *)
Lemma interval_below_sextillion (m : positive) (e : Z) :
  Z.pos m < 2 ^ 53 ->
  e < 17 \/ (e = 17 /\ Z.pos m < 7629394531250000) ->
  Num.interval_hi m * 2 ^ Z.max (e - 2) 0 < 10 ^ 21 * 2 ^ Z.max (2 - e) 0.
Proof.
  intros Hm He. unfold Num.interval_hi.
  change (2 ^ 53) with 9007199254740992 in Hm.
  change (10 ^ 21) with 1000000000000000000000.
  destruct (Z.le_gt_cases 2 e) as [H2|H2].
  - replace (Z.max (2 - e) 0) with 0 by lia. change (2 ^ 0) with 1.
    replace (Z.max (e - 2) 0) with (e - 2) by lia.
    destruct He as [He|[-> Hm']].
    + assert (2 ^ (e - 2) <= 2 ^ 14) as Hp by (apply Z.pow_le_mono_r; lia).
      assert (0 < 2 ^ (e - 2)) as Hp' by (apply Z.pow_pos_nonneg; lia).
      change (2 ^ 14) with 16384 in Hp.
      assert ((4 * Z.pos m + 2) * 2 ^ (e - 2) <= 36028797018963966 * 16384);
        [|lia].
      apply Z.mul_le_mono_nonneg; lia.
    + change (2 ^ (17 - 2)) with 32768. lia.
  - replace (Z.max (e - 2) 0) with 0 by lia. change (2 ^ 0) with 1.
    assert (0 < 2 ^ Z.max (2 - e) 0) by (apply Z.pow_pos_nonneg; lia).
    nia.
Qed.

(** From the double nearest to 10^-6 on, and apart from that double, the
    whole interval of a double is above 10^-6. *)
Lemma interval_above_millionth (m : positive) (e : Z) :
  2 ^ 52 <= Z.pos m ->
  -72 < e \/ (e = -72 /\ 4722366482869645 < Z.pos m) ->
  2 ^ Z.max (2 - e) 0 <= Num.interval_lo m e * 2 ^ Z.max (e - 2) 0 * 10 ^ 6.
Proof.
  intros Hm He. pose proof (interval_lo_above m e) as Hlo.
  change (2 ^ 52) with 4503599627370496 in Hm.
  change (10 ^ 6) with 1000000.
  destruct (Z.le_gt_cases 2 e) as [H2|H2].
  - replace (Z.max (2 - e) 0) with 0 by lia. change (2 ^ 0) with 1.
    assert (0 < 2 ^ Z.max (e - 2) 0) by (apply Z.pow_pos_nonneg; lia). nia.
  - replace (Z.max (e - 2) 0) with 0 by lia. change (2 ^ 0) with 1.
    replace (Z.max (2 - e) 0) with (2 - e) by lia.
    destruct He as [He|[-> Hm']].
    + assert (2 ^ (2 - e) <= 2 ^ 73) as Hp by (apply Z.pow_le_mono_r; lia).
      change (2 ^ 73) with 9444732965739290427392 in Hp. lia.
    + change (2 ^ (2 - -72)) with 18889465931478580854784. lia.
Qed.

(** Digits [s] of length [k] at exponent [q], inside an interval that ends
    below 10^21, have their point at 21 at most. *)
Lemma position_upper (s k q D up hi : Z) :
  0 < D -> 1 <= k -> 10 ^ (k - 1) <= s ->
  s * (10 ^ Z.max q 0 * D) <= hi * up * 10 ^ Z.max (- q) 0 ->
  hi * up < 10 ^ 21 * D ->
  k + q <= 21.
Proof.
  intros HD Hk Hs Hin Hhi.
  destruct (Z.le_gt_cases (k + q) 21) as [|Hgt]; [assumption|exfalso].
  destruct (Z.le_gt_cases 0 q) as [Hq|Hq].
  - replace (Z.max q 0) with q in Hin by lia.
    replace (Z.max (- q) 0) with 0 in Hin by lia. change (10 ^ 0) with 1 in Hin.
    assert (10 ^ 21 <= 10 ^ (k - 1) * 10 ^ q) as H1.
    { rewrite <- Z.pow_add_r by lia. apply Z.pow_le_mono_r; lia. }
    assert (0 < 10 ^ q) as HB by (apply Z.pow_pos_nonneg; lia).
    assert (10 ^ (k - 1) * 10 ^ q <= s * 10 ^ q) as H2
      by (apply Z.mul_le_mono_nonneg_r; lia).
    assert (10 ^ 21 * D <= s * 10 ^ q * D) as H3
      by (apply Z.mul_le_mono_nonneg_r; lia).
    replace (s * (10 ^ q * D)) with (s * 10 ^ q * D) in Hin by ring.
    lia.
  - replace (Z.max q 0) with 0 in Hin by lia.
    replace (Z.max (- q) 0) with (- q) in Hin by lia. change (10 ^ 0) with 1 in Hin.
    assert (0 < 10 ^ (- q)) as HQ by (apply Z.pow_pos_nonneg; lia).
    assert (10 ^ 21 * 10 ^ (- q) <= 10 ^ (k - 1)) as H1.
    { rewrite <- Z.pow_add_r by lia. apply Z.pow_le_mono_r; lia. }
    assert (10 ^ 21 * 10 ^ (- q) * D <= s * D) as H2
      by (apply Z.mul_le_mono_nonneg_r; lia).
    assert (hi * up * 10 ^ (- q) < 10 ^ 21 * D * 10 ^ (- q)) as H3
      by (apply Z.mul_lt_mono_pos_r; lia).
    replace (s * (1 * D)) with (s * D) in Hin by ring.
    replace (10 ^ 21 * D * 10 ^ (- q)) with (10 ^ 21 * 10 ^ (- q) * D) in H3 by ring.
    lia.
Qed.

(** Inside an interval that begins at 10^-6 or above, they have their point
    at -5 at least. *)
Lemma position_lower (s k q D up lo : Z) :
  0 < D -> 1 <= k -> 1 <= s -> s < 10 ^ k ->
  lo * up * 10 ^ Z.max (- q) 0 <= s * (10 ^ Z.max q 0 * D) ->
  D <= lo * up * 10 ^ 6 ->
  -5 <= k + q.
Proof.
  intros HD Hk Hs1 Hs Hin Hlo.
  destruct (Z.le_gt_cases (-5) (k + q)) as [|Hlt]; [assumption|exfalso].
  replace (Z.max q 0) with 0 in Hin by lia.
  replace (Z.max (- q) 0) with (- q) in Hin by lia. change (10 ^ 0) with 1 in Hin.
  assert (0 < 10 ^ (- q)) as HQ by (apply Z.pow_pos_nonneg; lia).
  assert (10 ^ k * 10 ^ 6 <= 10 ^ (- q)) as H1.
  { rewrite <- Z.pow_add_r by lia. apply Z.pow_le_mono_r; lia. }
  assert (s * 10 ^ 6 < 10 ^ k * 10 ^ 6) as H2
    by (apply Z.mul_lt_mono_pos_r; [reflexivity|lia]).
  assert (s * 10 ^ 6 * D < 10 ^ (- q) * D) as H3
    by (apply Z.mul_lt_mono_pos_r; lia).
  assert (D * 10 ^ (- q) <= lo * up * 10 ^ 6 * 10 ^ (- q)) as H4
    by (apply Z.mul_le_mono_nonneg_r; lia).
  assert (lo * up * 10 ^ (- q) * 10 ^ 6 <= s * (1 * D) * 10 ^ 6) as H5
    by (apply Z.mul_le_mono_nonneg_r; [reflexivity + lia|lia]).
  replace (lo * up * 10 ^ 6 * 10 ^ (- q))
    with (lo * up * 10 ^ (- q) * 10 ^ 6) in H4 by ring.
  replace (s * (1 * D) * 10 ^ 6) with (s * 10 ^ 6 * D) in H5 by ring.
  lia.
Qed.

(** Where Number::toString puts the decimal point of a double from 10^-6
    (the double nearest to it) up to, but not including, 10^21. *)
Lemma point_position_range (m : positive) (e s q : Z) :
  Num.valid (S754_finite false m e) = true ->
  Num.leb millionth (S754_finite false m e) = true ->
  Num.ltb (S754_finite false m e) sextillion = true ->
  Num.shortest m e = Some (s, q) ->
  -5 <= Z.of_nat (String.length (Num.digits s)) + q <= 21.
Proof.
  intros Hv Hlo Hhi Hs.
  rewrite millionth_eq in Hlo. rewrite sextillion_eq in Hhi.
  apply leb_finite in Hlo. apply ltb_finite in Hhi.
  apply valid_finite in Hv.
  pose proof (digits2_pos_bounds m) as Hd.
  assert (Z.pos (digits2_pos m) = 53) as Hd53 by lia.
  rewrite Hd53 in Hd. change (2 ^ (53 - 1)) with (2 ^ 52) in Hd.
  destruct (Z.eq_dec e (-72)) as [He|He];
    [destruct (Z.eq_dec (Z.pos m) 4722366482869645) as [Hm|Hm]|].
  { (* the double nearest to 10^-6 itself *)
    subst e. injection Hm as ->. vm_compute in Hs. injection Hs as <- <-.
    vm_compute. split; discriminate. }
  all: unfold Num.shortest in Hs;
    apply shortest_from_sound in Hs as (smin & smax & Hc);
    apply candidates_sound in Hc as (Hs1 & Hin);
    pose proof (digits_length s Hs1) as Hk; cbn zeta in Hk;
    set (k := Z.of_nat (String.length (Num.digits s))) in *;
    destruct Hk as (Hk1 & Hklo & Hkhi);
    pose proof (interval_below_sextillion m e ltac:(lia) ltac:(lia)) as Hup;
    pose proof (interval_above_millionth m e ltac:(lia) ltac:(lia)) as Hdown;
    set (up := 2 ^ Z.max (e - 2) 0) in *;
    set (D := 2 ^ Z.max (2 - e) 0) in *;
    assert (0 < D) as HD by (apply Z.pow_pos_nonneg; lia);
    assert (0 < up) as Hup0 by (apply Z.pow_pos_nonneg; lia).
  all: split.
  all: first
    [ apply (position_lower s k q D up (Num.interval_lo m e)); assumption || lia
    | apply (position_upper s k q D up (Num.interval_hi m)); assumption || lia ].
Qed.

(** In that range the string is in plain decimal notation. *)
Theorem toString_plain_range (x : Num.number) :
  Num.valid x = true ->
  Num.leb millionth x = true ->
  Num.ltb x sextillion = true ->
  plain_decimal (Num.toString x) = true.
Proof.
  intros Hv Hlo Hhi. rewrite millionth_eq in Hlo. rewrite sextillion_eq in Hhi.
  destruct x as [sx|sx| |sx m e]; try discriminate.
  - destruct sx; discriminate.
  - destruct sx; [discriminate|].
    rewrite <- millionth_eq in Hlo. rewrite <- sextillion_eq in Hhi.
    destruct (shortest_total false m e Hv) as (s & q & Hs).
    pose proof (point_position_range m e s q Hv Hlo Hhi Hs) as Hn.
    unfold Num.toString, Num.toString_pos. rewrite Hs. cbv zeta.
    apply format_plain; [apply digits_digit_string|exact Hn].
Qed.

(** *** Validity of the results of arithmetic *)

Section Rounding.

Local Abbreviation fexp := (SpecFloat.fexp Num.prec Num.emax).

Lemma fexp_eq (x : Z) : fexp x = Z.max (x - 53) (-1074).
Proof. reflexivity. Qed.

Lemma Zdigits2_log2 (m : Z) : 0 < m -> Zdigits2 m = Z.log2 m + 1.
Proof.
  destruct m as [|p|p]; try lia. intros _. cbn [Zdigits2].
  pose proof (digits2_pos_bounds p) as H.
  symmetry. apply Z.add_move_r. apply Z.log2_unique; [lia|].
  replace (Z.succ (Z.pos (digits2_pos p) - 1)) with (Z.pos (digits2_pos p)) by lia.
  exact H.
Qed.

Lemma Zdigits2_nonneg (m : Z) : 0 <= Zdigits2 m.
Proof. destruct m; cbn; lia. Qed.

Lemma Zdigits2_mono (a b : Z) : 0 <= a <= b -> Zdigits2 a <= Zdigits2 b.
Proof.
  intros [Ha Hab]. destruct (Z.eq_dec a 0) as [->|Hne].
  - apply Zdigits2_nonneg.
  - rewrite !Zdigits2_log2 by lia. apply Z.add_le_mono_r, Z.log2_le_mono. lia.
Qed.

(** Dividing by [2^n] takes [n] digits off. *)
Lemma Zdigits2_div_pow2 (m n : Z) :
  0 < m -> 0 <= n -> n < Zdigits2 m ->
  Zdigits2 (m / 2 ^ n) = Zdigits2 m - n.
Proof.
  intros Hm Hn Hlt. rewrite (Zdigits2_log2 m Hm) in *.
  rewrite <- Z.shiftr_div_pow2 by lia.
  assert (0 < Z.shiftr m n) as Hpos.
  { rewrite Z.shiftr_div_pow2 by lia.
    apply Z.div_str_pos. split; [apply Z.pow_pos_nonneg; lia|].
    apply Z.le_trans with (2 ^ Z.log2 m).
    - apply Z.pow_le_mono_r; lia.
    - apply Z.log2_spec. lia. }
  rewrite Zdigits2_log2 by exact Hpos.
  rewrite Z.log2_shiftr by lia. lia.
Qed.

Lemma shr_1_m (mrs : shr_record) :
  0 <= shr_m mrs -> shr_m (shr_1 mrs) = shr_m mrs / 2.
Proof.
  destruct mrs as [m r s]. cbn [shr_m]. intros Hm.
  rewrite <- Z.div2_div.
  destruct m as [|[p|p|]|p]; try lia; reflexivity.
Qed.

Lemma iter_shr_1_m (p : positive) (mrs : shr_record) :
  0 <= shr_m mrs ->
  shr_m (SpecFloat.iter_pos shr_1 p mrs) = shr_m mrs / 2 ^ Z.pos p.
Proof.
  revert mrs. induction p as [p IH|p IH|]; intros mrs Hm; cbn [SpecFloat.iter_pos].
  - assert (0 <= shr_m (shr_1 mrs)) as H1
      by (rewrite shr_1_m by exact Hm; apply Z.div_pos; lia).
    assert (0 <= shr_m (SpecFloat.iter_pos shr_1 p (shr_1 mrs))) as H2
      by (rewrite IH by exact H1; apply Z.div_pos;
          [exact H1|apply Z.pow_pos_nonneg; lia]).
    rewrite IH by exact H2. rewrite IH by exact H1. rewrite shr_1_m by exact Hm.
    rewrite !Z.div_div by (try apply Z.pow_pos_nonneg; lia).
    f_equal.
    replace (Z.pos p~1) with (1 + Z.pos p + Z.pos p) by lia.
    rewrite !Z.pow_add_r by lia. change (2 ^ 1) with 2. ring.
  - assert (0 <= shr_m (SpecFloat.iter_pos shr_1 p mrs)) as H2
      by (rewrite IH by exact Hm; apply Z.div_pos;
          [exact Hm|apply Z.pow_pos_nonneg; lia]).
    rewrite IH by exact H2. rewrite IH by exact Hm.
    rewrite !Z.div_div by (try apply Z.pow_pos_nonneg; lia).
    f_equal.
    replace (Z.pos p~0) with (Z.pos p + Z.pos p) by lia.
    rewrite !Z.pow_add_r by lia. ring.
  - rewrite shr_1_m by exact Hm. reflexivity.
Qed.

Lemma Zdigits2_small (m n : Z) :
  0 <= m -> 0 <= n -> m / 2 ^ n = 0 -> Zdigits2 m <= n.
Proof.
  intros Hm Hn Hdiv. destruct (Z.eq_dec m 0) as [->|Hne]; [cbn; lia|].
  rewrite Zdigits2_log2 by lia.
  assert (m < 2 ^ n) as Hlt.
  { apply Z.div_small_iff in Hdiv; [|apply Z.pow_nonzero; lia].
    destruct Hdiv as [H|H]; [lia|].
    assert (0 < 2 ^ n) by (apply Z.pow_pos_nonneg; lia). lia. }
  apply Z.log2_lt_pow2 in Hlt; lia.
Qed.

Lemma shr_record_of_loc_m (m : Z) (l : location) :
  shr_m (shr_record_of_loc m l) = m.
Proof. destruct l as [|[]]; reflexivity. Qed.

(** What the shift to the exponent of the format does to a mantissa that
    has digits enough. *)
Lemma shr_fexp_spec (m e : Z) (l : location) :
  0 <= m -> e <= fexp (Zdigits2 m + e) ->
  let r := shr_fexp Num.prec Num.emax m e l in
  snd r = fexp (Zdigits2 m + e) /\
  shr_m (fst r) = m / 2 ^ (snd r - e) /\
  0 <= shr_m (fst r).
Proof.
  intros Hm He r. subst r. unfold shr_fexp, shr.
  destruct (fexp (Zdigits2 m + e) - e) as [|p|p] eqn:Hn; try lia; cbn [fst snd].
  - rewrite shr_record_of_loc_m.
    replace (e - e) with 0 by lia. rewrite Z.div_1_r. lia.
  - rewrite iter_shr_1_m by (rewrite shr_record_of_loc_m; exact Hm).
    rewrite shr_record_of_loc_m.
    change (IntDef.Z.add e (Z.pos p)) with (e + Z.pos p).
    replace (e + Z.pos p - e) with (Z.pos p) by lia.
    split; [lia|]. split; [reflexivity|].
    apply Z.div_pos; [exact Hm|apply Z.pow_pos_nonneg; lia].
Qed.

(** After it a mantissa other than 0 is normalised, and a mantissa 0 means
    the least exponent. *)
Lemma shr_fexp_canonical (m e : Z) (l : location) :
  0 <= m -> e <= fexp (Zdigits2 m + e) ->
  let r := shr_fexp Num.prec Num.emax m e l in
  (0 < shr_m (fst r) -> fexp (Zdigits2 (shr_m (fst r)) + snd r) = snd r) /\
  (shr_m (fst r) = 0 -> snd r = -1074).
Proof.
  intros Hm He r.
  destruct (shr_fexp_spec m e l Hm He) as (He' & Hm' & Hpos). fold r in He', Hm', Hpos.
  set (m' := shr_m (fst r)) in *. set (e' := snd r) in *.
  assert (0 <= e' - e) as Hn by lia.
  split.
  - intros Hm'pos.
    assert (0 < m) as Hmpos.
    { destruct (Z.eq_dec m 0) as [->|]; [|lia]. rewrite Z.div_0_l in Hm'; [lia|].
      apply Z.pow_nonzero; lia. }
    assert (e' - e < Zdigits2 m) as Hlt.
    { destruct (Z.lt_ge_cases (e' - e) (Zdigits2 m)) as [|Hge]; [assumption|].
      exfalso. rewrite Zdigits2_log2 in Hge by exact Hmpos.
      assert (m < 2 ^ (e' - e)) as Hsmall.
      { apply Z.log2_lt_pow2; lia. }
      rewrite Z.div_small in Hm' by lia. lia. }
    rewrite Hm', Zdigits2_div_pow2 by lia.
    replace (Zdigits2 m - (e' - e) + e') with (Zdigits2 m + e) by lia.
    symmetry. exact He'.
  - intros Hzero. rewrite Hzero in Hm'. symmetry in Hm'.
    apply Zdigits2_small in Hm'; [|exact Hm|exact Hn].
    rewrite fexp_eq in He'. lia.
Qed.

Lemma fexp_mono (a b : Z) : a <= b -> fexp a <= fexp b.
Proof. rewrite !fexp_eq. lia. Qed.

Lemma fexp_least (a : Z) : -1074 <= fexp a.
Proof. rewrite fexp_eq. lia. Qed.

Lemma round_nearest_even_range (m : Z) (l : location) :
  m <= round_nearest_even m l <= m + 1.
Proof.
  unfold round_nearest_even.
  change IntDef.Z.add with Z.add.
  destruct l as [|[]]; try lia. destruct (Z.even m); lia.
Qed.

(** Rounding gives a valid double. *)
Lemma binary_round_aux_valid (sx : bool) (mx ex : Z) (lx : location) :
  0 <= mx -> ex <= fexp (Zdigits2 mx + ex) ->
  Num.valid (binary_round_aux Num.prec Num.emax sx mx ex lx) = true.
Proof.
  intros Hm He. unfold binary_round_aux.
  destruct (shr_fexp_spec mx ex lx Hm He) as (_ & _ & Hpos1).
  destruct (shr_fexp_canonical mx ex lx Hm He) as (Hcan1 & Hzero1).
  destruct (shr_fexp Num.prec Num.emax mx ex lx) as [mrs1 e1].
  cbn [fst snd] in *.
  set (m2 := round_nearest_even (shr_m mrs1) (loc_of_shr_record mrs1)).
  pose proof (round_nearest_even_range (shr_m mrs1) (loc_of_shr_record mrs1))
    as Hm2. fold m2 in Hm2.
  assert (0 <= m2) as Hpos2 by lia.
  assert (e1 <= fexp (Zdigits2 m2 + e1)) as He2.
  { destruct (Z.eq_dec (shr_m mrs1) 0) as [Hz|Hnz].
    - rewrite (Hzero1 Hz). apply fexp_least.
    - rewrite <- (Hcan1 ltac:(lia)) at 1. apply fexp_mono.
      apply Z.add_le_mono_r, Zdigits2_mono. lia. }
  destruct (shr_fexp_canonical m2 e1 loc_Exact Hpos2 He2) as (Hcan2 & _).
  destruct (shr_fexp Num.prec Num.emax m2 e1 loc_Exact) as [mrs3 e3].
  cbn [fst snd] in *.
  destruct (shr_m mrs3) as [|m3|m3] eqn:Hm3; try reflexivity.
  destruct (Z.leb_spec e3 (IntDef.Z.sub Num.emax Num.prec)) as [Hle|Hgt];
    [|reflexivity].
  unfold Num.valid, valid_binary, bounded, canonical_mantissa.
  apply andb_true_intro. split.
  - apply Z.eqb_eq. apply (Hcan2 ltac:(lia)).
  - apply Z.leb_le. exact Hle.
Qed.

Lemma pos_iter_xO (m d : positive) :
  Z.pos (Pos.iter xO m d) = Z.pos m * 2 ^ Z.pos d.
Proof.
  induction d as [|d IH] using Pos.peano_ind.
  - cbn. lia.
  - rewrite Pos.iter_succ, Pos2Z.inj_xO, IH, Pos2Z.inj_succ, Z.pow_succ_r by lia.
    ring.
Qed.

Lemma binary_round_valid (sx : bool) (mx : positive) (ex : Z) :
  Num.valid (binary_round Num.prec Num.emax sx mx ex) = true.
Proof.
  unfold binary_round, shl_align.
  change (IntDef.Z.add (Z.pos (digits2_pos mx)) ex) with (Zdigits2 (Z.pos mx) + ex).
  destruct (IntDef.Z.sub (fexp (Zdigits2 (Z.pos mx) + ex)) ex) as [|d|d] eqn:Hd;
    change IntDef.Z.sub with Z.sub in Hd.
  - apply binary_round_aux_valid; lia.
  - apply binary_round_aux_valid; lia.
  - apply binary_round_aux_valid; [lia|].
    assert (Zdigits2 (Z.pos (Pos.iter xO mx d)) = Zdigits2 (Z.pos mx) + Z.pos d)
      as Hdig.
    { rewrite pos_iter_xO.
      assert (0 < 2 ^ Z.pos d) by (apply Z.pow_pos_nonneg; lia).
      rewrite (Zdigits2_log2 (Z.pos mx * 2 ^ Z.pos d)) by lia.
      rewrite Z.log2_mul_pow2 by lia.
      rewrite (Zdigits2_log2 (Z.pos mx)) by lia. lia. }
    rewrite Hdig.
    replace (Zdigits2 (Z.pos mx) + Z.pos d
             + fexp (Zdigits2 (Z.pos mx) + ex))
      with (Zdigits2 (Z.pos mx) + ex) by lia.
    lia.
Qed.

Lemma binary_normalize_valid (m e : Z) (szero : bool) :
  Num.valid (binary_normalize Num.prec Num.emax m e szero) = true.
Proof.
  destruct m; cbn [binary_normalize]; [reflexivity| |]; apply binary_round_valid.
Qed.

(** The difference of two valid doubles is a valid double. *)
Theorem sub_valid (x y : Num.number) :
  Num.valid x = true -> Num.valid y = true -> Num.valid (Num.sub x y) = true.
Proof.
  intros Hx Hy. unfold Num.sub, SFsub.
  destruct x as [sx|sx| |sx mx ex], y as [sy|sy| |sy my ey];
    try reflexivity; try assumption;
    try (destruct sx, sy; reflexivity).
  apply binary_normalize_valid.
Qed.

Lemma of_Z_valid (z : Z) : Num.valid (Num.of_Z z) = true.
Proof. apply binary_normalize_valid. Qed.

End Rounding.

(** *** C1: the invocation *)

(** C1 (as amended). For an accepted file (engine ready, probed duration
    [d > 3], input staged) the engine is invoked exactly once, with the
    arguments: input path, [-t] and the time limit, the stream-copy
    directive, the timestamp directive, output path, in this order. The time
    limit is the double [d - 3] written by [Number.prototype.toString]. That
    string is in plain decimal notation whenever the limit is at least one
    millionth and below ten to the 21st; it is not for every [d > 3]. *)
Theorem C1_trim_invocation
  (w : World) (d : Num.number) (eng : EngineRun) (file : File.t) :
  reachable w ->
  ffmpegReady w = true ->
  Num.valid d = true ->
  Num.ltb (Num.of_Z 3) d = true ->
  write_error eng = None ->
  let r := handleFile (LoadedMetadata d) eng file w in
  let ext := getFileExtension (File.name file) in
  let limit := Num.sub d (Num.of_Z 3) in
  invocations (since w (final r))
  = [[ "-i"; "input." +:+ ext;
       "-t"; Num.toString limit;
       "-c"; "copy";
       "-avoid_negative_ts"; "make_zero";
       "output." +:+ ext ]] /\
  (Num.leb millionth limit = true ->
   Num.ltb limit sextillion = true ->
   plain_decimal (Num.toString limit) = true).
Proof.
  intros Hreach Hready Hvalid Hd Hwrite r ext limit. subst r ext limit. split.
  - rewrite handleFile_accepted_since by auto using ltb_not_leb.
    rewrite since_validated. rewrite invocations_app.
    rewrite (trimVideo_invocations eng (intake d file w) (validated d file w));
      [reflexivity| |exact Hwrite].
    change (ffmpegRef (validated d file w)) with (ffmpegRef w).
    rewrite <- (inv_engine w (reachable_invariant w Hreach)). exact Hready.
  - apply toString_plain_range, sub_valid; [exact Hvalid|apply of_Z_valid].
Qed.

Lemma reachable_ready_world : reachable ready_world.
Proof. apply reach_load, reach_initial. Qed.

(** Scenario A: a duration of 10 seconds gives the time limit "7". *)
Lemma C1_witness :
  let r := handleFile (LoadedMetadata (Num.of_Z 10)) (engine_ok [] [Byte.x01])
             (clip "a.mp4") ready_world in
  reachable ready_world /\
  ffmpegReady ready_world = true /\
  Num.valid (Num.of_Z 10) = true /\
  Num.ltb (Num.of_Z 3) (Num.of_Z 10) = true /\
  write_error (engine_ok [] [Byte.x01]) = None /\
  invocations (since ready_world (final r))
  = [[ "-i"; "input.mp4"; "-t"; "7"; "-c"; "copy";
       "-avoid_negative_ts"; "make_zero"; "output.mp4" ]] /\
  plain_decimal "7" = true.
Proof.
  intros r; subst r.
  destruct (C1_trim_invocation ready_world (Num.of_Z 10)
              (engine_ok [] [Byte.x01]) (clip "a.mp4")
              reachable_ready_world eq_refl eq_refl eq_refl eq_refl)
    as [Hargs Hplain].
  split; [exact reachable_ready_world|].
  split; [reflexivity|]. split; [reflexivity|]. split; [reflexivity|].
  split; [reflexivity|]. split.
  - exact Hargs.
  - apply Hplain; reflexivity.
Defined.

(** C1 (as stated) fails: a duration just above 3 seconds is accepted and
    its time limit is written with an exponent. *)
Lemma C1_counterexample :
  let d := Num.of_decimal 30000001 7 in
  let r := handleFile (LoadedMetadata d) (engine_ok [] [Byte.x01])
             (clip "a.mp4") ready_world in
  Num.ltb (Num.of_Z 3) d = true /\
  invocations (since ready_world (final r))
  = [[ "-i"; "input.mp4"; "-t"; "9.999999983634211e-8"; "-c"; "copy";
       "-avoid_negative_ts"; "make_zero"; "output.mp4" ]] /\
  plain_decimal "9.999999983634211e-8" = false.
Proof. vm_compute. repeat split. Qed.

(** A stream without a known length has the duration Infinity, which is
    accepted as well. *)
Example infinite_duration :
  let r := handleFile (LoadedMetadata Num.Infinity) (engine_ok [] [Byte.x01])
             (clip "a.webm") ready_world in
  Num.leb Num.Infinity (Num.of_Z 3) = false /\
  invocations (since ready_world (final r))
  = [[ "-i"; "input.webm"; "-t"; "Infinity"; "-c"; "copy";
       "-avoid_negative_ts"; "make_zero"; "output.webm" ]].
Proof. vm_compute. repeat split. Qed.

(** *** C4, C6, C8: the handles of superseded videos *)

(** C4 (as amended). When a run publishes a new result while a previous
    one exists, the previous result is dropped from the state at the start
    of the run, before the object URL of the new result is created and the
    new result is set; the object URL of the previous result is never
    revoked (the only revocation of the run is that of the probe's URL) and
    is still live afterwards; the new result's URL differs from the previous
    one's. *)
Theorem C4_previous_result_dropped_not_revoked
  (w : World) (prev v : ProcessedVideo.t)
  (probe : ProbeResult) (eng : EngineRun) (file : File.t) :
  reachable w ->
  processedVideo w = Some prev ->
  let r := handleFile probe eng file w in
  outcome r = Some (Success v) ->
  processedVideo (final r) = Some v /\
  (exists vf,
     lifecycle (since w (final r))
     = [SetProcessedVideo None;
        CreateObjectURL (next_url w); RevokeObjectURL (next_url w);
        CreateObjectURL (S (next_url w)); SetCurrentVideo vf;
        CreateObjectURL (ProcessedVideo.url v); SetProcessedVideo (Some v);
        CreateObjectURL (S (ProcessedVideo.url v))]) /\
  revocations (ProcessedVideo.url prev) (since w (final r)) = O /\
  ProcessedVideo.url prev ∈ live_urls (final r) /\
  ProcessedVideo.url v <> ProcessedVideo.url prev.
Proof.
  intros Hreach Hprev r Hv; subst r.
  pose proof (reachable_invariant w Hreach) as Hinv.
  pose proof (inv_result w Hinv prev Hprev) as Hlive.
  pose proof (inv_fresh w Hinv _ Hlive) as Hlt.
  destruct (handleFile_trim_inv w probe eng file) as (Hready & d & -> & Hd);
    [eauto|].
  destruct (handleFile_success_lifecycle w d eng file v Hready Hd Hv)
    as (Hu & Hp & Hl & Hlife).
  split; [exact Hp|]. split; [|split; [|split]].
  - exists (intake d file w). rewrite Hu. exact Hlife.
  - rewrite handleFile_accepted_since by assumption.
    rewrite revocations_app, revocations_validated by exact Hlt.
    apply trimVideo_frame.
  - rewrite Hl. do 2 apply elem_of_union_r. apply live_validated; assumption.
  - rewrite Hu. lia.
Qed.

(** C6 (as amended). When a run ends as RunFailure, the previous result is
    no longer in the state: [handleFile] dropped it before validation. Its
    object URL was not revoked and is still live. *)
Theorem C6_failure_drops_previous_result
  (w : World) (prev : ProcessedVideo.t)
  (probe : ProbeResult) (eng : EngineRun) (file : File.t) (e : exn) :
  reachable w ->
  processedVideo w = Some prev ->
  let r := handleFile probe eng file w in
  outcome r = Some (RunFailure e) ->
  processedVideo (final r) = None /\
  revocations (ProcessedVideo.url prev) (since w (final r)) = O /\
  ProcessedVideo.url prev ∈ live_urls (final r).
Proof.
  intros Hreach Hprev r He; subst r.
  pose proof (reachable_invariant w Hreach) as Hinv.
  pose proof (inv_result w Hinv prev Hprev) as Hlive.
  pose proof (inv_fresh w Hinv _ Hlive) as Hlt.
  destruct (handleFile_trim_inv w probe eng file) as (Hready & d & -> & Hd);
    [eauto|].
  rewrite handleFile_accepted_since by assumption.
  rewrite handleFile_accepted in * by assumption.
  destruct (trimVideo_frame eng (intake d file w) (validated d file w))
    as (_ & Hrev & Hsub & _ & [[v Hv]|(e' & _ & Hp & _)]).
  - rewrite Hv in He. discriminate.
  - split; [exact Hp|]. split.
    + rewrite revocations_app, revocations_validated by exact Hlt. apply Hrev.
    + apply Hsub, live_validated; assumption.
Qed.

(** C8 (as amended). When an accepted file supersedes a previous current
    video, the new one takes its place with a fresh preview URL; the preview
    URL of the previous one is not released: it is not revoked during the
    run and is still live after it. *)
Theorem C8_previous_preview_not_released
  (w : World) (prev : VideoFile.t)
  (d : Num.number) (eng : EngineRun) (file : File.t) :
  reachable w ->
  ffmpegReady w = true ->
  Num.leb d (Num.of_Z 3) = false ->
  currentVideo w = Some prev ->
  let r := handleFile (LoadedMetadata d) eng file w in
  currentVideo (final r) = Some (intake d file w) /\
  VideoFile.url (intake d file w) <> VideoFile.url prev /\
  VideoFile.url (intake d file w) ∈ live_urls (final r) /\
  revocations (VideoFile.url prev) (since w (final r)) = O /\
  VideoFile.url prev ∈ live_urls (final r).
Proof.
  intros Hreach Hready Hd Hprev r; subst r.
  pose proof (reachable_invariant w Hreach) as Hinv.
  pose proof (inv_current w Hinv prev Hprev) as Hlive.
  pose proof (inv_fresh w Hinv _ Hlive) as Hlt.
  rewrite handleFile_accepted_since by assumption.
  rewrite handleFile_accepted by assumption.
  destruct (trimVideo_frame eng (intake d file w) (validated d file w))
    as (Hcur & Hrev & Hsub & _).
  split; [exact Hcur|]. split; [cbn; lia|]. split; [|split].
  - apply Hsub. unfold validated. proj. set_solver.
  - rewrite revocations_app, revocations_validated by exact Hlt. apply Hrev.
  - apply Hsub, live_validated; assumption.
Qed.

(** Membership in a given set of object URLs is settled by computation. *)
Lemma live_by_computation (u : url) (live : gset url) :
  bool_decide (u ∈ live) = true -> u ∈ live.
Proof. apply bool_decide_eq_true_1. Qed.


(** C4 (as stated) fails: in Scenario D the second result is published and
    the object URL of the first result has not been revoked once, but never;
    it is still live. *)
Lemma C4_counterexample :
  outcome first_run = Some (Success first_result) /\
  processedVideo (final first_run) = Some first_result /\
  outcome second_run = Some (Success second_result) /\
  revocations (ProcessedVideo.url first_result)
    (since (final first_run) (final second_run)) = O /\
  revocations (ProcessedVideo.url first_result) (log (final second_run)) <> 1%nat /\
  ProcessedVideo.url first_result ∈ live_urls (final second_run).
Proof.
  split; [vm_compute; reflexivity|].
  split; [vm_compute; reflexivity|].
  split; [vm_compute; reflexivity|].
  split; [vm_compute; reflexivity|].
  split; [vm_compute; discriminate|].
  apply live_by_computation. vm_compute. reflexivity.
Qed.

Lemma reachable_first_run : reachable (final first_run).
Proof. apply reach_handleFile, reachable_ready_world. Qed.

Lemma C4_witness :
  reachable (final first_run) /\
  processedVideo (final first_run) = Some first_result /\
  outcome second_run = Some (Success second_result) /\
  revocations (ProcessedVideo.url first_result)
    (since (final first_run) (final second_run)) = O /\
  ProcessedVideo.url first_result ∈ live_urls (final second_run) /\
  ProcessedVideo.url second_result <> ProcessedVideo.url first_result.
Proof.
  unfold second_run.
  assert (processedVideo (final first_run) = Some first_result) as H1
    by (vm_compute; reflexivity).
  assert (outcome (handleFile (LoadedMetadata (Num.of_Z 12))
                     (engine_ok [] [Byte.x02]) (clip "b.webm")
                     (final first_run))
          = Some (Success second_result)) as H2
    by (vm_compute; reflexivity).
  destruct (C4_previous_result_dropped_not_revoked
              (final first_run) first_result second_result
              (LoadedMetadata (Num.of_Z 12)) (engine_ok [] [Byte.x02])
              (clip "b.webm") reachable_first_run H1 H2)
    as (_ & _ & Hrev & Hlive & Hne).
  split; [exact reachable_first_run|]. split; [exact H1|].
  split; [exact H2|]. split; [exact Hrev|]. split; [exact Hlive|exact Hne].
Defined.

(** C6 (as stated) fails: after a first success, a run that ends as
    RunFailure leaves no result in the state. *)
Lemma C6_counterexample :
  processedVideo (final first_run) = Some first_result /\
  outcome second_run_failing = Some (RunFailure "Error: ffmpeg exited") /\
  processedVideo (final second_run_failing) = None.
Proof. vm_compute. repeat split. Qed.

Lemma C6_witness :
  reachable (final first_run) /\
  processedVideo (final first_run) = Some first_result /\
  outcome second_run_failing = Some (RunFailure "Error: ffmpeg exited") /\
  processedVideo (final second_run_failing) = None /\
  ProcessedVideo.url first_result ∈ live_urls (final second_run_failing).
Proof.
  unfold second_run_failing.
  assert (processedVideo (final first_run) = Some first_result) as H1
    by (vm_compute; reflexivity).
  assert (outcome (handleFile (LoadedMetadata (Num.of_Z 12)) engine_exec_fails
                     (clip "b.webm") (final first_run))
          = Some (RunFailure "Error: ffmpeg exited")) as H2
    by (vm_compute; reflexivity).
  destruct (C6_failure_drops_previous_result
              (final first_run) first_result
              (LoadedMetadata (Num.of_Z 12)) engine_exec_fails
              (clip "b.webm") _ reachable_first_run H1 H2)
    as (Hnone & _ & Hlive).
  split; [exact reachable_first_run|]. split; [exact H1|].
  split; [exact H2|]. split; [exact Hnone|exact Hlive].
Defined.


(** C8 (as stated) fails: in Scenario D the second selection replaces the
    first current video, whose preview URL is not revoked and stays live. *)
Lemma C8_counterexample :
  currentVideo (final first_run) = Some first_intake /\
  (exists vf, currentVideo (final second_run) = Some vf /\
              VideoFile.url vf <> VideoFile.url first_intake) /\
  revocations (VideoFile.url first_intake) (log (final second_run)) = O /\
  VideoFile.url first_intake ∈ live_urls (final second_run).
Proof.
  split; [vm_compute; reflexivity|]. split; [|split].
  - eexists. split; [vm_compute; reflexivity|]. cbn. lia.
  - vm_compute. reflexivity.
  - apply live_by_computation. vm_compute. reflexivity.
Qed.

Lemma C8_witness :
  reachable (final first_run) /\
  ffmpegReady (final first_run) = true /\
  Num.leb (Num.of_Z 12) (Num.of_Z 3) = false /\
  currentVideo (final first_run) = Some first_intake /\
  revocations (VideoFile.url first_intake)
    (since (final first_run) (final second_run)) = O /\
  VideoFile.url first_intake ∈ live_urls (final second_run).
Proof.
  unfold second_run.
  assert (ffmpegReady (final first_run) = true) as H1 by (vm_compute; reflexivity).
  assert (Num.leb (Num.of_Z 12) (Num.of_Z 3) = false) as H2
    by (vm_compute; reflexivity).
  assert (currentVideo (final first_run) = Some first_intake) as H3
    by (vm_compute; reflexivity).
  destruct (C8_previous_preview_not_released
              (final first_run) first_intake (Num.of_Z 12)
              (engine_ok [] [Byte.x02]) (clip "b.webm")
              reachable_first_run H1 H2 H3)
    as (_ & _ & _ & Hrev & Hlive).
  split; [exact reachable_first_run|]. split; [exact H1|].
  split; [exact H2|]. split; [exact H3|]. split; [exact Hrev|exact Hlive].
Defined.

(** *** C5: the percentages of one run *)


Lemma percent_progress_states (ps : list Num.number) (prev : ProgressState) :
  map percent (progress_states ps prev) = map composite ps.
Proof.
  revert prev. induction ps as [|p ps IH]; intros prev; [reflexivity|].
  cbn [progress_states map]. rewrite IH. reflexivity.
Qed.


(** A call sets an initial part of them, and all of them on Success. *)
Lemma trimVideo_percents (eng : EngineRun) (vf : VideoFile.t) (w : World) :
  let r := trimVideo eng vf w in
  percents (since w (final r)) `prefix_of` run_percents (exec_progress eng) /\
  (forall v, outcome r = Some (Success v) ->
     percents (since w (final r)) = run_percents (exec_progress eng) /\
     percent (progress (final r)) = Num.of_Z 100).
Proof.
  intros r; subst r. unfold run_percents. trim_cases w eng vf.
  all: since_norm; observe; rewrite ?percent_progress_states.
  all: split; [|first [ intros v Hv; discriminate
                      | intros v _; split; reflexivity ]].
  all: cbn [app].
  all: repeat (apply prefix_cons).
  all: try (apply prefix_nil).
  all: try reflexivity.
  all: try (apply prefix_app, prefix_nil).
  all: try (rewrite <- (app_nil_r (map composite _)) at 1;
            apply prefix_app, prefix_nil).
  apply prefix_app. proj. apply prefix_cons, prefix_nil.
Qed.

Section Monotone.

Lemma nondecreasing_prefix (l k : list Num.number) :
  l `prefix_of` k -> nondecreasing k = true -> nondecreasing l = true.
Proof.
  intros [t ->]. revert t. induction l as [|a l IH]; intros t H; [reflexivity|].
  destruct l as [|b l]; [reflexivity|].
  cbn [app nondecreasing] in *. apply andb_prop in H as [Hab H].
  rewrite Hab. exact (IH t H).
Qed.

(** A sorted list between two bounds, put between them. *)
Lemma nondecreasing_between (lo hi : Num.number) (l : list Num.number) :
  nondecreasing l = true ->
  Forall (fun x => Num.leb lo x = true /\ Num.leb x hi = true) l ->
  Num.leb lo hi = true ->
  nondecreasing (lo :: l ++ [hi]) = true.
Proof.
  intros Hl Hall Hlh. destruct l as [|a l].
  - cbn. rewrite Hlh. reflexivity.
  - cbn [app nondecreasing]. inversion Hall as [|? ? [Hlo Hhi] Hall']; subst.
    rewrite Hlo. cbn [andb].
    clear Hlo Hall. revert a Hl Hhi Hall'.
    induction l as [|b l IH]; intros a Hl Hhi Hall'.
    + cbn. rewrite Hhi. reflexivity.
    + cbn [app nondecreasing] in *. apply andb_prop in Hl as [Hab Hl].
      rewrite Hab. cbn [andb].
      inversion Hall' as [|? ? [_ Hhi'] Hall'']; subst.
      apply IH; assumption.
Qed.


Lemma whole_percentage_in (k : Z) : 0 <= k <= 100 -> In k whole_percentages.
Proof.
  intros H. unfold whole_percentages.
  replace k with (Z.of_nat (Z.to_nat k)) by lia.
  apply in_map, in_seq. lia.
Qed.


Lemma pairwise_nth (l : list Num.number) (d : Num.number) :
  pairwise l = true ->
  forall i j, (i < j < length l)%nat ->
    Num.leb (nth i l d) (nth j l d) = true.
Proof.
  induction l as [|a l IH]; intros H i j Hij; cbn [length] in Hij; [lia|].
  cbn [pairwise] in H. apply andb_prop in H as [Ha Hl].
  destruct j as [|j]; [lia|]. destruct i as [|i]; cbn [nth].
  - rewrite forallb_forall in Ha. apply Ha, nth_In. lia.
  - apply IH; [exact Hl|lia].
Qed.


Lemma composite_values_nth (k : Z) :
  0 <= k <= 100 ->
  nth (Z.to_nat k) composite_values Num.NaN = composite_of k.
Proof.
  intros Hk. unfold composite_values, whole_percentages.
  rewrite (nth_indep _ Num.NaN (composite_of 0))
    by (rewrite !length_map, length_seq; lia).
  change (composite_of 0) with (composite_of (Z.of_nat 0)).
  rewrite !map_nth. rewrite seq_nth by lia. f_equal. lia.
Qed.

(** On the whole percentages the composite percentage is monotone and lies
    between 30 and 90: a check of the 101 values. *)
Lemma composite_table :
  pairwise composite_values
  && forallb (fun a => Num.leb (Num.of_Z 30) a && Num.leb a (Num.of_Z 90)
                       && Num.leb a a) composite_values = true.
Proof. vm_compute. reflexivity. Qed.

Lemma composite_of_checked (k : Z) :
  0 <= k <= 100 ->
  Num.leb (Num.of_Z 30) (composite_of k) = true /\
  Num.leb (composite_of k) (Num.of_Z 90) = true /\
  Num.leb (composite_of k) (composite_of k) = true.
Proof.
  intros Hk. pose proof composite_table as H.
  apply andb_prop in H as [_ H]. rewrite forallb_forall in H.
  specialize (H (composite_of k)).
  rewrite !andb_true_iff in H.
  assert (In (composite_of k) composite_values) as Hin
    by (unfold composite_values; apply in_map, whole_percentage_in, Hk).
  destruct (H Hin) as [[H1 H2] H3]. auto.
Qed.

Lemma composite_of_bounds (k : Z) :
  0 <= k <= 100 ->
  Num.leb (Num.of_Z 30) (composite_of k) = true /\
  Num.leb (composite_of k) (Num.of_Z 90) = true.
Proof. intros Hk. destruct (composite_of_checked k Hk) as (? & ? & _). auto. Qed.

Lemma composite_of_monotone (i j : Z) :
  0 <= i <= 100 -> 0 <= j <= 100 -> i <= j ->
  Num.leb (composite_of i) (composite_of j) = true.
Proof.
  intros Hi Hj Hij. destruct (Z.eq_dec i j) as [->|Hne].
  - apply composite_of_checked, Hj.
  - rewrite <- (composite_values_nth i Hi), <- (composite_values_nth j Hj).
    pose proof composite_table as H. apply andb_prop in H as [H _].
    apply pairwise_nth; [exact H|].
    unfold composite_values, whole_percentages.
    rewrite !length_map, length_seq. lia.
Qed.

Lemma nondecreasing_composites (ks : list Z) :
  Forall (fun k => 0 <= k <= 100) ks ->
  Sorted Z.le ks ->
  nondecreasing (map composite_of ks) = true.
Proof.
  intros Hall Hs. induction ks as [|a ks IH]; [reflexivity|].
  destruct ks as [|b ks]; [reflexivity|].
  cbn [map nondecreasing]. inversion Hall as [|? ? Ha Hall']; subst.
  inversion Hs as [|? ? Hs' Hhd]; subst.
  inversion Hhd as [|? ? Hab]; subst.
  inversion Hall' as [|? ? Hb _]; subst.
  rewrite composite_of_monotone by assumption.
  exact (IH Hall' Hs').
Qed.

End Monotone.


Lemma composite_rounds_to (ps : list Num.number) (ks : list Z) :
  rounds_to ps ks -> map composite ps = map composite_of ks.
Proof.
  induction 1 as [|p k ps ks Hpk _ IH]; [reflexivity|].
  cbn [map]. rewrite IH. unfold composite, composite_of. rewrite Hpk.
  reflexivity.
Qed.

Lemma nondecreasing_snoc (l : list Num.number) (a b : Num.number) :
  nondecreasing (l ++ [a]) = true ->
  Num.leb a b = true ->
  nondecreasing ((l ++ [a]) ++ [b]) = true.
Proof.
  intros Hl Hab. induction l as [|x l IH].
  - cbn. rewrite Hab. reflexivity.
  - destruct l as [|y l].
    + cbn in *. apply andb_prop in Hl as [Hxa _]. rewrite Hxa, Hab. reflexivity.
    + cbn [app nondecreasing] in *. apply andb_prop in Hl as [Hxy Hl].
      rewrite Hxy. exact (IH Hl).
Qed.

Lemma run_percents_nondecreasing (ps : list Num.number) (ks : list Z) :
  rounds_to ps ks ->
  Forall (fun k => 0 <= k <= 100) ks ->
  Sorted Z.le ks ->
  nondecreasing (run_percents ps) = true.
Proof.
  intros Hr Hall Hs. unfold run_percents.
  rewrite (composite_rounds_to ps ks Hr).
  assert (nondecreasing (Num.of_Z 30 :: map composite_of ks ++ [Num.of_Z 90]) = true)
    as H.
  { apply nondecreasing_between.
    - apply nondecreasing_composites; assumption.
    - apply Forall_map. eapply Forall_impl; [exact Hall|].
      intros k Hk. apply composite_of_bounds, Hk.
    - vm_compute. reflexivity. }
  change ([Num.of_Z 10; Num.of_Z 20; Num.of_Z 30] ++ map composite_of ks
          ++ [Num.of_Z 90; Num.of_Z 100])
    with (Num.of_Z 10 :: Num.of_Z 20
          :: ((Num.of_Z 30 :: map composite_of ks) ++ [Num.of_Z 90] ++ [Num.of_Z 100])).
  rewrite app_assoc.
  cbn [nondecreasing].
  change (Num.leb (Num.of_Z 10) (Num.of_Z 20)) with true.
  cbn [andb].
  assert (nondecreasing (((Num.of_Z 30 :: map composite_of ks) ++ [Num.of_Z 90])
                         ++ [Num.of_Z 100]) = true) as H'.
  { apply nondecreasing_snoc; [exact H|vm_compute; reflexivity]. }
  revert H'. cbn [app]. intros H'. rewrite H'.
  change (Num.leb (Num.of_Z 20) (Num.of_Z 30)) with true. reflexivity.
Qed.

Lemma run_percents_last (ps : list Num.number) :
  last (run_percents ps) = Some (Num.of_Z 100).
Proof.
  unfold run_percents.
  change [Num.of_Z 90; Num.of_Z 100] with ([Num.of_Z 90] ++ [Num.of_Z 100]).
  rewrite !app_assoc. apply last_snoc.
Qed.

(** The percentages set by a call of [handleFile]. *)
Lemma handleFile_percents
  (w : World) (probe : ProbeResult) (eng : EngineRun) (file : File.t) :
  let r := handleFile probe eng file w in
  percents (since w (final r)) `prefix_of` run_percents (exec_progress eng) /\
  (forall v, outcome r = Some (Success v) ->
     percents (since w (final r)) = run_percents (exec_progress eng) /\
     percent (progress (final r)) = Num.of_Z 100).
Proof.
  intros r; subst r.
  destruct (ffmpegReady w) eqn:Hready;
    [destruct probe as [d|];
     [destruct (Num.leb d (Num.of_Z 3)) eqn:Hd|]|].
  - run. rewrite Hready. proj. rewrite Hd. proj.
    split; [|discriminate]. since_norm. apply prefix_nil.
  - rewrite handleFile_accepted_since by assumption.
    rewrite handleFile_accepted by assumption.
    rewrite percents_app, since_validated. cbn [percents app].
    apply trimVideo_percents.
  - run. rewrite Hready. proj.
    split; [|discriminate]. since_norm. apply prefix_nil.
  - run. rewrite Hready. proj.
    split; [|discriminate]. since_norm. apply prefix_nil.
Qed.

(** C5 (as amended). The handler sets the percentage 30 + 0.6 * round(100 p)
    for a reported fraction [p], without clamping and without looking at the
    percentage already shown. When the whole percentages round(100 p) of the
    reported fractions are non-decreasing and lie between 0 and 100, the
    percentages set during one run are non-decreasing; on Success the last
    one set is exactly 100 and it is the percentage of the final state. *)
Theorem C5_progress_monotone_for_monotone_reports
  (w : World) (probe : ProbeResult) (eng : EngineRun) (file : File.t)
  (ks : list Z) :
  rounds_to (exec_progress eng) ks ->
  Forall (fun k => 0 <= k <= 100) ks ->
  Sorted Z.le ks ->
  let r := handleFile probe eng file w in
  nondecreasing (percents (since w (final r))) = true /\
  (forall v, outcome r = Some (Success v) ->
     last (percents (since w (final r))) = Some (Num.of_Z 100) /\
     percent (progress (final r)) = Num.of_Z 100).
Proof.
  intros Hr Hall Hs r; subst r.
  destruct (handleFile_percents w probe eng file) as [Hpre Hall'].
  split.
  - eapply nondecreasing_prefix; [exact Hpre|].
    eapply run_percents_nondecreasing; eassumption.
  - intros v Hv. destruct (Hall' v Hv) as [-> Hp].
    split; [apply run_percents_last|exact Hp].
Qed.

Lemma C5_witness :
  let ps := [Num.of_decimal 25 2; Num.of_decimal 5 1; Num.of_Z 1] in
  let r := handleFile (LoadedMetadata (Num.of_Z 10)) (engine_ok ps [Byte.x01])
             (clip "a.mp4") ready_world in
  rounds_to ps [25; 50; 100] /\
  Forall (fun k => 0 <= k <= 100) [25; 50; 100] /\
  Sorted Z.le [25; 50; 100] /\
  nondecreasing (percents (since ready_world (final r))) = true /\
  last (percents (since ready_world (final r))) = Some (Num.of_Z 100).
Proof.
  intros ps r. subst ps r.
  assert (rounds_to [Num.of_decimal 25 2; Num.of_decimal 5 1; Num.of_Z 1]
            [25; 50; 100]) as H1
    by (repeat constructor; vm_compute; reflexivity).
  assert (Forall (fun k => 0 <= k <= 100) [25; 50; 100]) as H2
    by (repeat constructor; lia).
  assert (Sorted Z.le [25; 50; 100]) as H3
    by (repeat constructor; lia).
  destruct (C5_progress_monotone_for_monotone_reports ready_world
              (LoadedMetadata (Num.of_Z 10))
              (engine_ok [Num.of_decimal 25 2; Num.of_decimal 5 1; Num.of_Z 1]
                 [Byte.x01])
              (clip "a.mp4") [25; 50; 100] H1 H2 H3) as [Hmono Hlast].
  split; [exact H1|]. split; [exact H2|]. split; [exact H3|].
  split; [exact Hmono|].
  eapply Hlast. vm_compute. reflexivity.
Defined.

(** C5 (as stated) fails: the engine reports 0.5 and then 0.2, both in
    [0,1]; the percentage goes from 60 down to 42. *)
Lemma C5_counterexample :
  let ps := [Num.of_decimal 5 1; Num.of_decimal 2 1] in
  let r := handleFile (LoadedMetadata (Num.of_Z 10)) (engine_ok ps [Byte.x01])
             (clip "a.mp4") ready_world in
  map Num.toString (percents (since ready_world (final r)))
  = ["10"; "20"; "30"; "60"; "42"; "90"; "100"] /\
  nondecreasing (percents (since ready_world (final r))) = false.
Proof. vm_compute. split; reflexivity. Qed.

(** A fraction above 1 is not clamped either: 1.5 gives 120 percent. *)
Example progress_not_clamped :
  Num.toString (composite (Num.of_decimal 15 1)) = "120".
Proof. vm_compute. reflexivity. Qed.

(** *** C9, C10: names and media types *)

Section FileNames.

Lemma split_nonempty (sep : ascii) (s : string) : Str.split sep s <> [].
Proof.
  destruct s as [|c s]; cbn [Str.split]; [discriminate|].
  destruct (Ascii.eqb c sep); [discriminate|].
  destruct (Str.split sep s); discriminate.
Qed.

(** Splitting around a separator splits both sides. *)
Lemma split_app (sep : ascii) (a b : string) :
  Str.split sep (a +:+ String sep b) = Str.split sep a ++ Str.split sep b.
Proof.
  induction a as [|c a IH].
  - change (EmptyString +:+ String sep b) with (String sep b).
    cbn [Str.split]. rewrite Ascii.eqb_refl. reflexivity.
  - rewrite append_cons. cbn [Str.split]. rewrite IH.
    destruct (Ascii.eqb c sep); [reflexivity|].
    pose proof (split_nonempty sep a) as Hne.
    destruct (Str.split sep a) as [|seg rest]; [congruence|reflexivity].
Qed.

Lemma split_no_separator (s : string) :
  Str.all_ext_chars s = true -> Str.split "." s = [s].
Proof.
  induction s as [|c s IH]; [reflexivity|].
  cbn [Str.all_ext_chars Str.split]. unfold Str.ext_char.
  intros H. apply andb_prop in H as [Hc Hs]. apply andb_prop in Hc as [_ Hc].
  apply negb_true_iff in Hc. rewrite Hc, (IH Hs). reflexivity.
Qed.

(** The last segment of [base.ext] is [ext]. *)
Lemma pop_split_extension (base ext : string) :
  Str.all_ext_chars ext = true ->
  Str.pop (Str.split "." (base +:+ String "." ext)) = Some ext.
Proof.
  intros H. unfold Str.pop. rewrite split_app, (split_no_separator ext H).
  apply last_snoc.
Qed.

Lemma toLowerCase_truthy (s : string) :
  Str.truthy (Str.toLowerCase s) = Str.truthy s.
Proof. destruct s; reflexivity. Qed.

Lemma getFileExtension_extension (base ext : string) :
  Str.truthy ext = true -> Str.all_ext_chars ext = true ->
  getFileExtension (base +:+ String "." ext) = Str.toLowerCase ext.
Proof.
  intros Hne H. unfold getFileExtension.
  rewrite pop_split_extension by exact H. cbn [fmap option_fmap option_map].
  rewrite toLowerCase_truthy, Hne. reflexivity.
Qed.

Lemma all_ext_chars_point (a b : string) :
  Str.all_ext_chars (a +:+ String "." b) = false.
Proof.
  induction a as [|c a IH].
  - reflexivity.
  - rewrite append_cons. cbn [Str.all_ext_chars]. rewrite IH.
    apply andb_false_r.
Qed.

(** The pattern takes [.ext] off [base.ext]. *)
Lemma replace_ext_extension (base ext : string) :
  Str.truthy ext = true -> Str.all_ext_chars ext = true ->
  Str.replace_ext (base +:+ String "." ext) = base.
Proof.
  intros Hne H. induction base as [|c base IH].
  - change (EmptyString +:+ String "." ext) with (String "." ext).
    cbn [Str.replace_ext Str.ext_match_here]. rewrite Hne, H. reflexivity.
  - rewrite append_cons. cbn [Str.replace_ext Str.ext_match_here].
    rewrite all_ext_chars_point, andb_false_r. rewrite IH. reflexivity.
Qed.


Lemma lower_char_not_upper (c : ascii) : is_upper (Str.lower_char c) = false.
Proof.
  destruct c as [[] [] [] [] [] [] [] []]; vm_compute; reflexivity.
Qed.

Lemma toLowerCase_no_upper (s : string) : has_upper (Str.toLowerCase s) = false.
Proof.
  induction s as [|c s IH]; [reflexivity|].
  cbn [Str.toLowerCase has_upper]. rewrite lower_char_not_upper, IH. reflexivity.
Qed.

Lemma getFileExtension_no_upper (name : string) :
  has_upper (getFileExtension name) = false.
Proof.
  unfold getFileExtension.
  destruct (Str.pop (Str.split "." name)) as [e|]; [|reflexivity].
  cbn [fmap option_fmap option_map].
  destruct (Str.truthy (Str.toLowerCase e)); [|reflexivity].
  apply toLowerCase_no_upper.
Qed.

End FileNames.


Lemma mimeTypes_unknown (ext : string) :
  ext ∉ known_extensions -> mimeTypes !! ext = None.
Proof.
  intros H. unfold known_extensions in H. unfold mimeTypes.
  rewrite !not_elem_of_cons in H.
  destruct H as (? & ? & ? & ? & ? & ? & ? & _).
  rewrite !lookup_insert_ne by congruence. apply lookup_empty.
Qed.

(** Of the properties inherited from %Object.prototype%, a string without
    capital letters can only name [constructor] and [__proto__]. *)
Lemma Object_prototype_get_lower (key : string) :
  has_upper key = false ->
  key <> "constructor" -> key <> "__proto__" ->
  Object_prototype_get key = None.
Proof.
  intros Hlow H1 H2. unfold Object_prototype_get.
  repeat match goal with
  | |- context [decide (key = ?s)] =>
      destruct (decide (key = s)) as [->|_];
      [first [congruence | vm_compute in Hlow; discriminate]|]
  end.
  reflexivity.
Qed.

(** Where the default does apply: an extension that is neither in the table
    nor the name of an inherited property. *)
Lemma getMimeType_default (name : string) :
  getFileExtension name ∉ known_extensions ->
  getFileExtension name <> "constructor" ->
  getFileExtension name <> "__proto__" ->
  getMimeType name = JStr "video/mp4".
Proof.
  intros Hk H1 H2. unfold getMimeType, object_get.
  rewrite (mimeTypes_unknown _ Hk).
  rewrite Object_prototype_get_lower
    by auto using getFileExtension_no_upper.
  reflexivity.
Qed.

(** C10 (code defect). [mimeTypes] is an object literal, so [mimeTypes[ext]]
    also finds what the object inherits: for the extension "constructor" the
    read gives the function [Object], for "__proto__" the prototype object;
    both are truthy, the default is not taken, and [getMimeType] returns a
    value that is no media type string at all, although neither extension
    is one of the seven known ones. A name without a dot or with another
    unknown extension does get "video/mp4". *)
Theorem C10_inherited_property_instead_of_default :
  (getFileExtension "clip.constructor" ∉ known_extensions) /\
  getMimeType "clip.constructor" = JFunction "Object" /\
  getMimeType "clip.constructor" <> JStr "video/mp4" /\
  getMimeType "clip.__proto__" = JObjectPrototype /\
  getMimeType "clip" = JStr "video/mp4" /\
  getMimeType "clip.ogv" = JStr "video/mp4".
Proof.
  split.
  - unfold known_extensions. rewrite !not_elem_of_cons.
    repeat split; try (vm_compute; discriminate). apply not_elem_of_nil.
  - repeat split; try (vm_compute; reflexivity). vm_compute. discriminate.
Qed.

(** C9 (as amended). For a result published from a file called [base.ext],
    with [ext] non-empty and free of "." and "/", the download name is
    [base], the fixed suffix "_trimmed", a dot and the extension in lower
    case (not the extension as it was); the media type of the artifact is
    what [getMimeType] gives for the name, which is "video/mp4" when the
    lower-case extension is "mp4". *)
Theorem C9_download_name_and_media_type
  (w : World) (probe : ProbeResult) (eng : EngineRun) (file : File.t)
  (v : ProcessedVideo.t) (base ext : string) :
  File.name file = base +:+ String "." ext ->
  Str.truthy ext = true ->
  Str.all_ext_chars ext = true ->
  let r := handleFile probe eng file w in
  outcome r = Some (Success v) ->
  downloadTrimmedVideo (final r)
  = Some (ProcessedVideo.url v,
          base +:+ "_trimmed." +:+ Str.toLowerCase ext) /\
  Blob.type (ProcessedVideo.blob v)
  = js_or (object_get mimeTypes (Str.toLowerCase ext)) (JStr "video/mp4") /\
  (Str.toLowerCase ext = "mp4" ->
   Blob.type (ProcessedVideo.blob v) = JStr "video/mp4").
Proof.
  intros Hname Hne Hext r Hv; subst r.
  destruct (handleFile_trim_inv w probe eng file) as (Hready & d & -> & Hd);
    [eauto|].
  rewrite handleFile_accepted in * by assumption.
  apply trimVideo_success in Hv
    as (_ & Horig & Htype & Hp & _). unfold intake in *. proj.
  assert (Blob.type (ProcessedVideo.blob v)
          = js_or (object_get mimeTypes (Str.toLowerCase ext)) (JStr "video/mp4"))
    as Htype'.
  { rewrite Htype. unfold getMimeType. cbn [VideoFile.file].
    rewrite Hname, getFileExtension_extension by assumption. reflexivity. }
  split; [|split].
  - unfold downloadTrimmedVideo. rewrite Hp, Horig. cbn [VideoFile.file].
    rewrite Hname. unfold downloadName.
    rewrite getFileExtension_extension, replace_ext_extension by assumption.
    reflexivity.
  - exact Htype'.
  - intros Hmp4. rewrite Htype', Hmp4. vm_compute. reflexivity.
Qed.

Lemma C9_witness :
  let r := handleFile (LoadedMetadata (Num.of_Z 10)) (engine_ok [] [Byte.x01])
             (clip "holiday.clip.MP4") ready_world in
  File.name (clip "holiday.clip.MP4") = "holiday.clip" +:+ String "." "MP4" /\
  Str.truthy "MP4" = true /\
  Str.all_ext_chars "MP4" = true /\
  (exists v, outcome r = Some (Success v) /\
     downloadTrimmedVideo (final r)
     = Some (ProcessedVideo.url v, "holiday.clip_trimmed.mp4") /\
     Blob.type (ProcessedVideo.blob v) = JStr "video/mp4").
Proof.
  intros r; subst r.
  split; [reflexivity|]. split; [reflexivity|]. split; [reflexivity|].
  eexists. split; [vm_compute; reflexivity|].
  match goal with
  | |- context [Some (ProcessedVideo.url ?v, _)] =>
      destruct (C9_download_name_and_media_type ready_world
                  (LoadedMetadata (Num.of_Z 10)) (engine_ok [] [Byte.x01])
                  (clip "holiday.clip.MP4") v "holiday.clip" "MP4"
                  eq_refl eq_refl eq_refl)
        as (Hname & _ & Hmp4); [vm_compute; reflexivity|]
  end.
  split; [exact Hname|]. apply Hmp4. reflexivity.
Defined.

(** C9 (as stated) fails: the extension of the download name is not the
    original one when that has capital letters. *)
Lemma C9_counterexample :
  let r := handleFile (LoadedMetadata (Num.of_Z 10)) (engine_ok [] [Byte.x01])
             (clip "clip.MOV") ready_world in
  (exists v, outcome r = Some (Success v) /\
             ProcessedVideo.originalName v = "clip" +:+ "." +:+ "MOV") /\
  (snd <$> downloadTrimmedVideo (final r)) = Some "clip_trimmed.mov" /\
  (snd <$> downloadTrimmedVideo (final r))
  <> Some ("clip" +:+ "_trimmed" +:+ "." +:+ "MOV").
Proof.
  split; [eexists; split; vm_compute; reflexivity|].
  split; [vm_compute; reflexivity|]. vm_compute. discriminate.
Qed.

(** A name without a dot has no extension to strip; the whole name is taken
    for the extension. *)
Example download_name_without_dot : downloadName "video" = "video_trimmed.video".
Proof. vm_compute. reflexivity. Qed.


(** ** The rest of the component *)

(** *** More on file names: [getFileExtension], [getMimeType], the download name *)

Section MoreFileNames.

Lemma lower_char_point (c : ascii) :
  Ascii.eqb (Str.lower_char c) "." = Ascii.eqb c ".".
Proof. destruct c as [[] [] [] [] [] [] [] []]; vm_compute; reflexivity. Qed.

Lemma lower_char_idem (c : ascii) :
  Str.lower_char (Str.lower_char c) = Str.lower_char c.
Proof. destruct c as [[] [] [] [] [] [] [] []]; vm_compute; reflexivity. Qed.

Lemma toLowerCase_idem (s : string) :
  Str.toLowerCase (Str.toLowerCase s) = Str.toLowerCase s.
Proof.
  induction s as [|c s IH]; [reflexivity|].
  cbn [Str.toLowerCase]. rewrite lower_char_idem, IH. reflexivity.
Qed.

Lemma toLowerCase_length (s : string) :
  String.length (Str.toLowerCase s) = String.length s.
Proof. induction s as [|c s IH]; [reflexivity|]. cbn. rewrite IH. reflexivity. Qed.



(** A string without a point is one segment. *)
Lemma split_without_point (s : string) :
  includes "." s = false -> Str.split "." s = [s].
Proof.
  induction s as [|c s IH]; [reflexivity|].
  cbn [includes Str.split]. intros H. apply orb_false_elim in H as [Hc Hs].
  rewrite Hc, (IH Hs). reflexivity.
Qed.

(** The last segment has no point. *)
Lemma last_split_without_point (s e : string) :
  last (Str.split "." s) = Some e -> includes "." e = false.
Proof.
  revert e. induction s as [|c s IH]; intros e.
  - cbn. intros [= <-]. reflexivity.
  - cbn [Str.split]. pose proof (split_nonempty "." s) as Hne.
    destruct (Ascii.eqb c ".") eqn:Hc.
    + destruct (Str.split "." s) as [|seg rest] eqn:Hs; [congruence|].
      intros H. apply IH. exact H.
    + destruct (Str.split "." s) as [|seg [|seg' rest]] eqn:Hs; [congruence| |].
      * intros [= <-]. cbn [includes]. rewrite Hc.
        rewrite (IH seg eq_refl). reflexivity.
      * intros H. apply IH. exact H.
Qed.

Lemma includes_toLowerCase (s : string) :
  includes "." (Str.toLowerCase s) = includes "." s.
Proof.
  induction s as [|c s IH]; [reflexivity|].
  cbn [Str.toLowerCase includes]. rewrite lower_char_point, IH. reflexivity.
Qed.

Lemma getFileExtension_segment (s : string) :
  includes "." s = false -> Str.truthy s = true ->
  getFileExtension s = Str.toLowerCase s.
Proof.
  intros Hp Hne. unfold getFileExtension, Str.pop.
  rewrite (split_without_point s Hp). cbn [last fmap option_fmap option_map].
  rewrite toLowerCase_truthy, Hne. reflexivity.
Qed.

(** X1. The extension [getFileExtension] gives is never empty, has no
    point, is in lower case, and is its own extension. *)
Theorem getFileExtension_shape (filename : string) :
  let ext := getFileExtension filename in
  Str.truthy ext = true /\
  includes "." ext = false /\
  Str.toLowerCase ext = ext /\
  getFileExtension ext = ext.
Proof.
  intros ext.
  assert (Str.truthy ext = true /\ includes "." ext = false
          /\ Str.toLowerCase ext = ext) as (Hne & Hp & Hl).
  { subst ext. unfold getFileExtension, Str.pop.
    destruct (last (Str.split "." filename)) as [e|] eqn:He;
      cbn [fmap option_fmap option_map]; [|repeat split].
    destruct (Str.truthy (Str.toLowerCase e)) eqn:Ht; [|repeat split].
    split; [exact Ht|]. split.
    - rewrite includes_toLowerCase.
      exact (last_split_without_point filename e He).
    - apply toLowerCase_idem. }
  repeat split; try assumption.
  rewrite getFileExtension_segment by assumption. exact Hl.
Qed.

Lemma getFileExtension_trailing_point (base : string) :
  getFileExtension (base +:+ ".") = "mp4".
Proof.
  unfold getFileExtension, Str.pop.
  change (base +:+ ".") with (base +:+ String "." "").
  rewrite split_app. cbn [Str.split]. rewrite last_snoc. reflexivity.
Qed.

(** X2. A name without a point is taken whole, in lower case, for its
    extension; the empty name and a name that ends in a point get the
    default "mp4". *)
Theorem getFileExtension_without_extension :
  (forall name : string,
     includes "." name = false -> Str.truthy name = true ->
     getFileExtension name = Str.toLowerCase name) /\
  getFileExtension "" = "mp4" /\
  (forall base : string, getFileExtension (base +:+ ".") = "mp4").
Proof.
  split; [exact getFileExtension_segment|]. split; [reflexivity|].
  exact getFileExtension_trailing_point.
Qed.

Lemma getFileExtension_without_extension_witness :
  includes "." "README" = false /\ Str.truthy "README" = true /\
  getFileExtension "README" = "readme" /\
  getFileExtension "clip." = "mp4".
Proof.
  destruct getFileExtension_without_extension as (Hseg & _ & Hdot).
  split; [reflexivity|]. split; [reflexivity|]. split.
  - exact (Hseg "README" eq_refl eq_refl).
  - exact (Hdot "clip").
Defined.


(** X4. Unless the extension is "constructor" or "__proto__", the media
    type is a string that starts with "video/". *)
Theorem getMimeType_video (filename : string) :
  getFileExtension filename <> "constructor" ->
  getFileExtension filename <> "__proto__" ->
  exists t : string,
    getMimeType filename = JStr t /\ startsWith "video/" t = true.
Proof.
  intros H1 H2.
  destruct (decide (getFileExtension filename ∈ known_extensions)) as [Hk|Hk].
  - unfold getMimeType. unfold known_extensions in Hk.
    repeat (apply elem_of_cons in Hk as [->|Hk];
            [eexists; split; vm_compute; reflexivity|]).
    apply elem_of_nil in Hk. contradiction.
  - exists "video/mp4". split; [|reflexivity].
    apply getMimeType_default; assumption.
Qed.

Lemma getMimeType_video_witness :
  getFileExtension "Holiday.MKV" <> "constructor" /\
  getFileExtension "Holiday.MKV" <> "__proto__" /\
  exists t : string,
    getMimeType "Holiday.MKV" = JStr t /\ startsWith "video/" t = true.
Proof.
  split; [vm_compute; discriminate|]. split; [vm_compute; discriminate|].
  apply (getMimeType_video "Holiday.MKV"); vm_compute; discriminate.
Defined.

(** What the pattern [/\.[^/.]+$/] takes off: nothing, or a last point with
    one character or more behind it, none of them a point or a slash. *)
Lemma replace_ext_cases (name : string) :
  Str.replace_ext name = name \/
  exists base ext : string,
    name = base +:+ String "." ext /\ Str.truthy ext = true /\
    Str.all_ext_chars ext = true /\ Str.replace_ext name = base.
Proof.
  induction name as [|c name IH].
  - left. reflexivity.
  - destruct (Str.ext_match_here (String c name)) eqn:Hm.
    + right. cbn [Str.ext_match_here] in Hm.
      apply andb_prop in Hm as [Hm Hall]. apply andb_prop in Hm as [Hc Hne].
      apply Ascii.eqb_eq in Hc. subst c.
      exists "", name. repeat split; try assumption.
      cbn [Str.replace_ext Str.ext_match_here]. rewrite Hne, Hall. reflexivity.
    + cbn [Str.replace_ext]. rewrite Hm.
      destruct IH as [IH|(base & ext & Hname & Hne & Hall & IH)].
      * left. rewrite IH. reflexivity.
      * right. exists (String c base), ext. rewrite IH.
        repeat split; try assumption. rewrite Hname. reflexivity.
Qed.

Lemma length_append (a b : string) :
  String.length (a +:+ b) = (String.length a + String.length b)%nat.
Proof.
  induction a as [|c a IH]; [reflexivity|].
  rewrite append_cons. cbn [String.length]. rewrite IH. reflexivity.
Qed.

(** X5. The download name is longer than the original name by eight
    characters at least ("_trimmed"); it is never the original name. *)
Theorem downloadName_longer (originalName : string) :
  (String.length originalName + 8 <= String.length (downloadName originalName))%nat /\
  downloadName originalName <> originalName.
Proof.
  assert (String.length originalName + 8
          <= String.length (downloadName originalName))%nat as Hlen.
  { unfold downloadName.
    destruct (replace_ext_cases originalName)
      as [Heq|(base & ext & Hname & Hne & Hall & Heq)].
    - rewrite Heq, !length_append. cbn [String.length]. lia.
    - rewrite Heq. rewrite Hname at 2.
      rewrite getFileExtension_extension by assumption.
      rewrite Hname, !length_append, toLowerCase_length.
      cbn [String.length]. lia. }
  split; [exact Hlen|]. intros Heq. rewrite Heq in Hlen. lia.
Qed.

Lemma replace_ext_without_point (s : string) :
  includes "." s = false -> Str.replace_ext s = s.
Proof.
  induction s as [|c s IH]; [reflexivity|].
  cbn [includes Str.replace_ext Str.ext_match_here].
  intros H. apply orb_false_elim in H as [Hc Hs].
  rewrite Hc, (IH Hs). reflexivity.
Qed.

Lemma replace_ext_trailing_point (base : string) :
  Str.replace_ext (base +:+ ".") = base +:+ ".".
Proof.
  induction base as [|c base IH]; [reflexivity|].
  rewrite append_cons. cbn [Str.replace_ext Str.ext_match_here].
  change (base +:+ ".") with (base +:+ String "." "") at 2.
  rewrite all_ext_chars_point, andb_false_r, IH. reflexivity.
Qed.

(** X6. Without an extension to strip nothing is stripped: a name without
    a point is followed by "_trimmed." and by itself in lower case, a name
    that ends in a point by "_trimmed.mp4". *)
Theorem downloadName_without_extension :
  (forall name : string,
     includes "." name = false -> Str.truthy name = true ->
     downloadName name = name +:+ "_trimmed." +:+ Str.toLowerCase name) /\
  (forall base : string,
     downloadName (base +:+ ".") = (base +:+ ".") +:+ "_trimmed.mp4").
Proof.
  split.
  - intros name Hp Hne. unfold downloadName.
    rewrite replace_ext_without_point, getFileExtension_segment by assumption.
    reflexivity.
  - intros base. unfold downloadName.
    rewrite replace_ext_trailing_point, getFileExtension_trailing_point.
    reflexivity.
Qed.

Lemma downloadName_without_extension_witness :
  includes "." "video" = false /\ Str.truthy "video" = true /\
  downloadName "video" = "video_trimmed.video" /\
  downloadName "clip." = "clip._trimmed.mp4".
Proof.
  destruct downloadName_without_extension as (Hseg & Hdot).
  split; [reflexivity|]. split; [reflexivity|]. split.
  - exact (Hseg "video" eq_refl eq_refl).
  - exact (Hdot "clip").
Defined.

End MoreFileNames.

(** *** Fixed-point notation *)

Section FixedPoint.

Lemma zeros_length (n : nat) : String.length (Num.zeros n) = n.
Proof. induction n as [|n IH]; [reflexivity|]. cbn. rewrite IH. reflexivity. Qed.

Lemma str_drop_length (n : nat) (s : string) :
  String.length (Num.str_drop n s) = (String.length s - n)%nat.
Proof.
  revert s. induction n as [|n IH]; intros [|c s]; cbn; try reflexivity.
  apply IH.
Qed.

Lemma truthy_length (s : string) :
  Str.truthy s = true -> (0 < String.length s)%nat.
Proof. destruct s; [discriminate|cbn; lia]. Qed.

(** With [f >= 1] digits asked for, [point] gives digits, the point and
    exactly [f] digits. *)
Lemma point_format (f : nat) (n : Z) :
  (1 <= f)%nat ->
  exists a b : string,
    Fixed.point f n = a +:+ "." +:+ b /\
    digit_string a = true /\ all_digits b = true /\ String.length b = f.
Proof.
  intros Hf. unfold Fixed.point.
  set (m := if n =? 0 then "0" else Num.digits n).
  assert (digit_string m = true) as Hm.
  { subst m. destruct (n =? 0); [reflexivity|apply digits_digit_string]. }
  destruct f as [|f]; [lia|].
  set (m' := if (String.length m <=? S f)%nat
             then Num.zeros (S f + 1 - String.length m) +:+ m else m).
  unfold digit_string in Hm. apply andb_prop in Hm as [Hne Hall].
  assert (all_digits m' = true /\ (S f < String.length m')%nat) as [Hall' Hlen].
  { subst m'. destruct (Nat.leb_spec (String.length m) (S f)) as [Hle|Hgt].
    - split.
      + rewrite all_digits_app, all_digits_zeros, Hall. reflexivity.
      + rewrite length_append, zeros_length.
        pose proof (truthy_length m Hne). lia.
    - split; [exact Hall|lia]. }
  exists (Num.str_take (String.length m' - S f) m'),
         (Num.str_drop (String.length m' - S f) m').
  split; [reflexivity|]. split; [|split].
  - unfold digit_string. rewrite all_digits_take by exact Hall'.
    rewrite truthy_take; [reflexivity|lia|].
    destruct m'; [cbn in Hlen; lia|reflexivity].
  - apply all_digits_drop, Hall'.
  - rewrite str_drop_length. lia.
Qed.


(** X7. [toFixed] with one digit or more after the point writes a finite
    number below 10^21 in fixed-point notation: a minus sign if the number
    is negative, digits, the point, and exactly as many digits as asked
    for; it never writes an exponent there. *)
Theorem toFixed_format (f : nat) (x : Num.number) :
  (1 <= f)%nat ->
  below_sextillion x = true ->
  exists a b : string,
    Fixed.toFixed f x = (if is_negative x then "-" else "") +:+ a +:+ "." +:+ b /\
    digit_string a = true /\ all_digits b = true /\ String.length b = f.
Proof.
  intros Hf Hx. destruct x as [s|s| |s m e]; try discriminate.
  - destruct (point_format f 0 Hf) as (a & b & Hp & Ha & Hb & Hl).
    exists a, b. cbn [Fixed.toFixed is_negative]. rewrite Hp. auto.
  - cbn [below_sextillion] in Hx. apply negb_true_iff in Hx.
    destruct (point_format f (Fixed.nearest f m e) Hf)
      as (a & b & Hp & Ha & Hb & Hl).
    exists a, b. cbn [Fixed.toFixed is_negative]. rewrite Hx, Hp. auto.
Qed.

Lemma toFixed_format_witness :
  (1 <= 1)%nat /\
  below_sextillion (Num.of_decimal 1234567 5) = true /\
  Fixed.toFixed 1 (Num.of_decimal 1234567 5) = "12.3" /\
  exists a b : string,
    Fixed.toFixed 1 (Num.of_decimal 1234567 5) = "" +:+ a +:+ "." +:+ b /\
    digit_string a = true /\ all_digits b = true /\ String.length b = 1%nat.
Proof.
  split; [lia|]. split; [vm_compute; reflexivity|].
  split; [vm_compute; reflexivity|].
  apply (toFixed_format 1 (Num.of_decimal 1234567 5)); [lia|].
  vm_compute. reflexivity.
Defined.

End FixedPoint.

(** *** The size in megabytes *)

Section Megabytes.

Local Abbreviation fexp := (SpecFloat.fexp Num.prec Num.emax).

(** A mantissa of 53 bits with an exponent in range is its own rounding. *)
Lemma binary_round_aux_exact (s : bool) (m : positive) (e : Z) :
  Zdigits2 (Z.pos m) = 53 -> -1074 <= e <= 971 ->
  binary_round_aux Num.prec Num.emax s (Z.pos m) e loc_Exact = S754_finite s m e.
Proof.
  intros Hd He.
  assert (shr_fexp Num.prec Num.emax (Z.pos m) e loc_Exact
          = ({| shr_m := Z.pos m; shr_r := false; shr_s := false |}, e)) as Hshr.
  { unfold shr_fexp, shr. rewrite Hd.
    replace (IntDef.Z.sub (fexp (IntDef.Z.add 53 e)) e) with 0; [reflexivity|].
    change IntDef.Z.sub with Z.sub. change IntDef.Z.add with Z.add.
    rewrite fexp_eq. lia. }
  unfold binary_round_aux. rewrite Hshr. cbn [shr_m loc_of_shr_record round_nearest_even].
  rewrite Hshr. cbn [shr_m].
  replace (e <=? IntDef.Z.sub Num.emax Num.prec) with true; [reflexivity|].
  symmetry. apply Z.leb_le. change (IntDef.Z.sub Num.emax Num.prec) with 971. lia.
Qed.

(** Twice such a mantissa is rounded to it, one exponent higher. *)
Lemma binary_round_aux_exact_half (s : bool) (m : positive) (e : Z) :
  Zdigits2 (Z.pos m) = 53 -> -1075 <= e <= 970 ->
  binary_round_aux Num.prec Num.emax s (Z.pos m~0) e loc_Exact
  = S754_finite s m (e + 1).
Proof.
  intros Hd He.
  assert (Zdigits2 (Z.pos m~0) = 54) as Hd2.
  { cbn [Zdigits2 digits2_pos] in *. lia. }
  assert (shr_fexp Num.prec Num.emax (Z.pos m~0) e loc_Exact
          = ({| shr_m := Z.pos m; shr_r := false; shr_s := false |}, e + 1)) as Hshr.
  { unfold shr_fexp, shr. rewrite Hd2.
    replace (IntDef.Z.sub (fexp (IntDef.Z.add 54 e)) e) with 1; [reflexivity|].
    change IntDef.Z.sub with Z.sub. change IntDef.Z.add with Z.add.
    rewrite fexp_eq. lia. }
  assert (shr_fexp Num.prec Num.emax (Z.pos m) (e + 1) loc_Exact
          = ({| shr_m := Z.pos m; shr_r := false; shr_s := false |}, e + 1)) as Hshr2.
  { unfold shr_fexp, shr. rewrite Hd.
    replace (IntDef.Z.sub (fexp (IntDef.Z.add 53 (e + 1))) (e + 1)) with 0;
      [reflexivity|].
    change IntDef.Z.sub with Z.sub. change IntDef.Z.add with Z.add.
    rewrite fexp_eq. lia. }
  unfold binary_round_aux. rewrite Hshr.
  cbn [shr_m loc_of_shr_record round_nearest_even].
  rewrite Hshr2. cbn [shr_m].
  replace (e + 1 <=? IntDef.Z.sub Num.emax Num.prec) with true; [reflexivity|].
  symmetry. apply Z.leb_le. change (IntDef.Z.sub Num.emax Num.prec) with 971. lia.
Qed.

(** The Number of a positive integer below 2^53 is the integer. *)
Lemma of_Z_exact (n : Z) :
  0 < n < 2 ^ 53 ->
  exists (m : positive) (e : Z),
    Num.of_Z n = S754_finite false m e /\
    Zdigits2 (Z.pos m) = 53 /\ -52 <= e <= 0 /\ Z.pos m = n * 2 ^ (- e).
Proof.
  intros Hn. destruct n as [|p|p]; try lia.
  assert (1 <= Zdigits2 (Z.pos p) <= 53) as Hd.
  { rewrite Zdigits2_log2 by lia.
    pose proof (Z.log2_nonneg (Z.pos p)).
    assert (Z.log2 (Z.pos p) < 53) by (apply Z.log2_lt_pow2; lia). lia. }
  unfold Num.of_Z. cbn [binary_normalize]. unfold binary_round, shl_align.
  change (IntDef.Z.add (Z.pos (digits2_pos p)) 0) with (Zdigits2 (Z.pos p) + 0).
  rewrite Z.add_0_r.
  destruct (IntDef.Z.sub (fexp (Zdigits2 (Z.pos p))) 0) as [|k|k] eqn:Hk;
    change IntDef.Z.sub with Z.sub in Hk; rewrite fexp_eq in Hk.
  - exists p, 0. rewrite binary_round_aux_exact by lia.
    repeat split; try lia.
  - lia.
  - exists (Pos.iter xO p k), (fexp (Zdigits2 (Z.pos p))).
    assert (Zdigits2 (Z.pos (Pos.iter xO p k)) = 53) as Hd'.
    { rewrite pos_iter_xO.
      assert (0 < 2 ^ Z.pos k) by (apply Z.pow_pos_nonneg; lia).
      rewrite (Zdigits2_log2 (Z.pos p * 2 ^ Z.pos k)) by lia.
      rewrite Z.log2_mul_pow2 by lia.
      pose proof (Zdigits2_log2 (Z.pos p) ltac:(lia)) as Hlog.
      pose proof (Pos2Z.neg_is_neg k). pose proof (Pos2Z.opp_neg k). lia. }
    rewrite fexp_eq.
    rewrite binary_round_aux_exact by (try exact Hd'; lia).
    split; [reflexivity|]. split; [exact Hd'|]. split; [lia|].
    rewrite pos_iter_xO. f_equal. f_equal. lia.
Qed.

Lemma mebibyte_eq : mebibyte = S754_finite false 4503599627370496 (-32).
Proof. vm_compute. reflexivity. Qed.

(** Division by 2^20 takes 20 off the exponent. *)
Lemma div_mebibyte (m : positive) (e : Z) :
  Zdigits2 (Z.pos m) = 53 -> -1000 <= e <= 900 ->
  Num.div (S754_finite false m e) mebibyte = S754_finite false m (e - 20).
Proof.
  intros Hd He. rewrite mebibyte_eq. unfold Num.div, SFdiv.
  assert (SFdiv_core_binary Num.prec Num.emax (Z.pos m) e
            4503599627370496 (-32)
          = (Z.pos m~0, e - 21, loc_Exact)) as Hcore.
  { unfold SFdiv_core_binary. rewrite Hd.
    change (Zdigits2 4503599627370496) with 53.
    change IntDef.Z.sub with Z.sub. change IntDef.Z.add with Z.add.
    change IntDef.Z.min with Z.min.
    rewrite fexp_eq.
    replace (Z.min (Z.max (53 + e - (53 + -32) - 53) (-1074)) (e - -32))
      with (e - 21) by lia.
    replace (e - -32 - (e - 21)) with 53 by lia.
    change (IntDef.Z.shiftl (Z.pos m) 53) with (Z.shiftl (Z.pos m) 53).
    rewrite Z.shiftl_mul_pow2 by lia.
    change IntDef.Z.div_eucl with Z.div_eucl.
    pose proof (Z.div_eucl_eq (Z.pos m * 2 ^ 53) 4503599627370496) as Heq.
    pose proof (Z.mod_pos_bound (Z.pos m * 2 ^ 53) 4503599627370496) as Hmod.
    unfold Z.modulo in Hmod.
    destruct (Z.div_eucl (Z.pos m * 2 ^ 53) 4503599627370496) as [q r].
    specialize (Heq ltac:(lia)). specialize (Hmod ltac:(lia)).
    change (2 ^ 53) with (2 * 4503599627370496) in Heq.
    assert (q = Z.pos m~0 /\ r = 0) as [-> ->] by lia.
    reflexivity. }
  rewrite Hcore. cbn [xorb].
  rewrite binary_round_aux_exact_half by (try exact Hd; lia).
  f_equal. lia.
Qed.

(** Division by 2^20 is exact, so the nearest integer to a hundred times
    the quotient is read off the number of bytes. *)
Lemma megabytes_eq (n : Z) :
  0 <= n < 2 ^ 53 ->
  megabytes n = Fixed.point 2 ((200 * n + 2 ^ 20) / 2 ^ 21).
Proof.
  intros Hn.
  destruct (Z.eq_dec n 0) as [->|Hne]; [vm_compute; reflexivity|].
    destruct (of_Z_exact n ltac:(lia)) as (m & e & Hof & Hd & He & Hm).
    unfold megabytes. rewrite Hof, div_mebibyte by (try exact Hd; lia).
    unfold Fixed.toFixed.
    assert (0 < 2 ^ (- e)) as Hpow by (apply Z.pow_pos_nonneg; lia).
    assert (2 ^ (- (e - 20)) = 2 ^ 20 * 2 ^ (- e)) as Hsplit.
    { replace (- (e - 20)) with (20 + - e) by lia.
      apply Z.pow_add_r; lia. }
    assert (Fixed.huge m (e - 20) = false) as Hhuge.
    { unfold Fixed.huge. apply Z.leb_gt.
      replace (Z.max (- (e - 20)) 0) with (- (e - 20)) by lia.
      replace (Z.max (e - 20) 0) with 0 by lia.
      rewrite Hsplit, Hm.
      change (2 ^ 0) with 1. rewrite Z.mul_1_r.
      change (10 ^ 21) with 1000000000000000000000.
      change (2 ^ 20) with 1048576. change (2 ^ 53) with 9007199254740992 in Hn.
      nia. }
    rewrite Hhuge. change ("" +:+ ?x) with x. f_equal.
    unfold Fixed.nearest.
    replace (0 <=? e - 20) with false by (symmetry; apply Z.leb_gt; lia).
    rewrite Hsplit, Hm.
    change (10 ^ Z.of_nat 2) with 100. change (2 ^ 20) with 1048576.
    change (2 ^ 21) with 2097152.
    replace (2 * (n * 2 ^ (- e) * 100) + 1048576 * 2 ^ (- e))
      with ((200 * n + 1048576) * 2 ^ (- e)) by ring.
    replace (2 * (1048576 * 2 ^ (- e))) with (2097152 * 2 ^ (- e)) by ring.
    apply Z.div_mul_cancel_r; lia.
Qed.

(** X8. The size shown for a file of [n] bytes, [n] below 2^53, is the
    integer nearest to [n * 100 / 2^20] (halves go up) written with two
    digits after the point; a file of fewer than 5243 bytes is shown as
    "0.00". *)
Theorem megabytes_rounds_half_up (n : Z) :
  0 <= n < 2 ^ 53 ->
  megabytes n = Fixed.point 2 ((200 * n + 2 ^ 20) / 2 ^ 21) /\
  (n < 5243 -> megabytes n = "0.00").
Proof.
  intros Hn. pose proof (megabytes_eq n Hn) as Heq.
  split; [exact Heq|].
  intros Hsmall. rewrite Heq.
  replace ((200 * n + 2 ^ 20) / 2 ^ 21) with 0; [reflexivity|].
  symmetry. apply Z.div_small.
  change (2 ^ 20) with 1048576. change (2 ^ 21) with 2097152. lia.
Qed.

Lemma megabytes_rounds_half_up_witness :
  0 <= 1572864 < 2 ^ 53 /\
  megabytes 1572864 = "1.50" /\
  Fixed.point 2 ((200 * 1572864 + 2 ^ 20) / 2 ^ 21) = "1.50".
Proof.
  split; [lia|].
  destruct (megabytes_rounds_half_up 1572864 ltac:(lia)) as [Heq _].
  split; [|reflexivity].
  rewrite Heq. reflexivity.
Defined.

End Megabytes.

(** *** Messages, progress bar and flags after a run *)

Lemma reported_error (ps : list Num.number) (w : World) :
  error (reported ps w) = error w.
Proof. apply reported_frame. Qed.

Lemma reported_info (ps : list Num.number) (w : World) :
  info (reported ps w) = info w.
Proof. apply reported_frame. Qed.

Lemma reported_timers (ps : list Num.number) (w : World) :
  timers (reported ps w) = timers w.
Proof. apply reported_frame. Qed.

(** The progress handler keeps the bar as visible as it was. *)
Lemma reported_visible (ps : list Num.number) (w : World) :
  visible (progress (reported ps w)) = visible (progress w).
Proof.
  revert w. induction ps as [|p ps IH]; intros w; [reflexivity|].
  cbn [reported]. rewrite IH.
  unfold onProgress, updateProgress, setProgress, modify. proj. reflexivity.
Qed.

Ltac reported_norm :=
  repeat match goal with
    | |- context [error (reported _ _)] => rewrite reported_error
    | |- context [info (reported _ _)] => rewrite reported_info
    | |- context [timers (reported _ _)] => rewrite reported_timers
    | |- context [visible (progress (reported _ _))] => rewrite reported_visible
    | _ => progress proj
    end.

(** What a call of [trimVideo] does to the messages, the bar and the
    pending resets. *)
Lemma trimVideo_display (eng : EngineRun) (vf : VideoFile.t) (w : World) :
  let r := trimVideo eng vf w in
  info (final r) = info w /\
  match outcome r with
  | Some (Success _) =>
      error (final r) = error w /\
      progress (final r) = complete /\
      timers (final r) = S (timers w)
  | Some (RunFailure e) =>
      error (final r) = "Error processing video: " +:+ e /\
      visible (progress (final r)) = true /\
      timers (final r) = timers w
  | _ => False
  end.
Proof.
  intros r; subst r. trim_cases w eng vf.
  all: reported_norm.
  all: repeat split; reflexivity.
Qed.

(** A call that validation rejects: the outcome, the messages, and what is
    left of the probe's object URL. *)
Lemma handleFile_rejected
  (w : World) (probe : ProbeResult) (eng : EngineRun) (file : File.t) :
  ffmpegReady w = true ->
  probe_rejected probe ->
  let r := handleFile probe eng file w in
  let reason : exn :=
    match probe with
    | ProbeError => "[object Event]"
    | LoadedMetadata _ =>
        "Error: Video is too short (3 seconds or less). Cannot trim 3 seconds."
    end in
  outcome r = Some (ValidationRejected reason) /\
  error (final r) = "Error processing video: " +:+ reason /\
  info (final r) = "" /\
  isProcessing (final r) = false /\
  processedVideo (final r) = None /\
  currentVideo (final r) = currentVideo w /\
  progress (final r) = progress w /\
  timers (final r) = timers w /\
  ffmpegReady (final r) = true /\
  next_url (final r) = S (next_url w) /\
  live_urls (final r)
  = match probe with
    | ProbeError => {[next_url w]} ∪ live_urls w
    | LoadedMetadata _ => ({[next_url w]} ∪ live_urls w) ∖ {[next_url w]}
    end /\
  lifecycle (since w (final r))
  = SetProcessedVideo None :: CreateObjectURL (next_url w)
    :: match probe with
       | ProbeError => []
       | LoadedMetadata _ => [RevokeObjectURL (next_url w)]
       end.
Proof.
  intros Hready Hrej r reason; subst r reason.
  destruct probe as [d|]; cbn in Hrej.
  - run. rewrite Hready. proj. rewrite Hd || rewrite Hrej. proj.
    repeat (split; [first [reflexivity|assumption]|]).
    erewrite since_app; [|proj; rewrite <- !app_assoc; reflexivity].
    reflexivity.
  - run. rewrite Hready. proj.
    repeat (split; [first [reflexivity|assumption]|]).
    erewrite since_app; [|proj; rewrite <- !app_assoc; reflexivity].
    reflexivity.
Qed.

(** The three ways a call with the engine ready can end. *)
Lemma handleFile_ready_cases
  (w : World) (probe : ProbeResult) (eng : EngineRun) (file : File.t) :
  ffmpegReady w = true ->
  probe_rejected probe \/
  exists d, probe = LoadedMetadata d /\ Num.leb d (Num.of_Z 3) = false.
Proof.
  intros _. destruct probe as [d|]; [|left; exact I].
  destruct (Num.leb d (Num.of_Z 3)) eqn:Hd; [left; exact Hd|right; eauto].
Qed.

(** The flags, the messages, the bar and the result after a call with the
    engine ready, by outcome. *)
Lemma handleFile_after
  (w : World) (probe : ProbeResult) (eng : EngineRun) (file : File.t) :
  ffmpegReady w = true ->
  let r := handleFile probe eng file w in
  isProcessing (final r) = false /\
  info (final r) = "" /\
  match outcome r with
  | Some (Success res) =>
      error (final r) = "" /\
      progress (final r) = complete /\
      timers (final r) = S (timers w) /\
      processedVideo (final r) = Some res
  | Some (RunFailure e) =>
      error (final r) = "Error processing video: " +:+ e /\
      visible (progress (final r)) = true /\
      timers (final r) = timers w /\
      processedVideo (final r) = None
  | Some (ValidationRejected e) =>
      error (final r) = "Error processing video: " +:+ e /\
      progress (final r) = progress w /\
      timers (final r) = timers w /\
      processedVideo (final r) = None
  | _ => False
  end.
Proof.
  intros Hready r; subst r.
  destruct (handleFile_ready_cases w probe eng file Hready)
    as [Hrej|(d & -> & Hd)].
  - destruct (handleFile_rejected w probe eng file Hready Hrej)
      as (Ho & He & Hi & Hp & Hres & _ & Hprog & Ht & _).
    rewrite Ho. repeat split; assumption.
  - rewrite handleFile_accepted by assumption.
    destruct (trimVideo_frame eng (intake d file w) (validated d file w))
      as (_ & _ & _ & Hp & Hcases).
    destruct (trimVideo_display eng (intake d file w) (validated d file w))
      as (Hi & Hdisp).
    split; [exact Hp|]. split; [exact Hi|].
    destruct (outcome (trimVideo eng (intake d file w) (validated d file w)))
      as [[| |e|res]|] eqn:Ho; try contradiction.
    + destruct Hdisp as (He & Hv & Ht).
      destruct Hcases as [[v' Hv']|(e' & _ & Hres & _)]; [discriminate|].
      repeat split; assumption.
    + destruct Hdisp as (He & Hv & Ht).
      unfold outcome in Ho.
      assert (outcome (trimVideo eng (intake d file w) (validated d file w))
              = Some (Success res)) as Ho' by exact Ho.
      apply trimVideo_success in Ho' as (_ & _ & _ & Hres & _).
      repeat split; assumption.
Qed.

(** X9. After a call of [handleFile] with the engine ready the processing
    flag is off and the info message is empty, whatever the outcome; the
    error message is empty on Success and else "Error processing video: "
    followed by what was thrown. *)
Theorem handleFile_settles
  (w : World) (probe : ProbeResult) (eng : EngineRun) (file : File.t) :
  ffmpegReady w = true ->
  let r := handleFile probe eng file w in
  isProcessing (final r) = false /\
  info (final r) = "" /\
  match outcome r with
  | Some (Success _) => error (final r) = ""
  | Some (RunFailure e) | Some (ValidationRejected e) =>
      error (final r) = "Error processing video: " +:+ e
  | _ => False
  end.
Proof.
  intros Hready r; subst r.
  destruct (handleFile_after w probe eng file Hready) as (Hp & Hi & H).
  split; [exact Hp|]. split; [exact Hi|].
  destruct (outcome _) as [[| | |]|]; try contradiction; apply H.
Qed.

Lemma handleFile_settles_witness :
  let r := handleFile ProbeError (engine_ok [] [Byte.x01]) (clip "a.txt")
             ready_world in
  ffmpegReady ready_world = true /\
  isProcessing (final r) = false /\
  info (final r) = "" /\
  error (final r) = "Error processing video: [object Event]".
Proof.
  intros r; subst r. split; [reflexivity|].
  destruct (handleFile_settles ready_world ProbeError (engine_ok [] [Byte.x01])
              (clip "a.txt") eq_refl) as (Hp & Hi & He).
  split; [exact Hp|]. split; [exact Hi|]. exact He.
Defined.

(** *** The probe's object URL *)

Lemma created_app (l k : list Event) : created (l ++ k) = created l ++ created k.
Proof.
  induction l as [|e l IH]; [reflexivity|].
  destruct e; cbn; rewrite IH; reflexivity.
Qed.

(** The life-cycle events hold all the creations. *)
Lemma created_lifecycle (l : list Event) : created (lifecycle l) = created l.
Proof.
  induction l as [|e l IH]; [reflexivity|].
  destruct e; cbn; rewrite IH; reflexivity.
Qed.

Lemma revocations_lifecycle (u : url) (l : list Event) :
  revocations u (lifecycle l) = revocations u l.
Proof.
  induction l as [|e l IH]; [reflexivity|].
  destruct e; cbn; rewrite ?IH; reflexivity.
Qed.

(** X10. The object URL [getVideoDuration] makes for the probe is revoked
    only when the metadata loads. On a rejected call it is the one URL
    created: for a duration of 3 seconds or less it is revoked and the live
    URLs are as before; when the probe fails it is never revoked and stays
    live, though neither video of the state holds it. *)
Theorem probe_url_revoked_only_on_metadata
  (w : World) (probe : ProbeResult) (eng : EngineRun) (file : File.t) :
  reachable w ->
  ffmpegReady w = true ->
  probe_rejected probe ->
  let r := handleFile probe eng file w in
  let u := next_url w in
  created (since w (final r)) = [u] /\
  match probe with
  | LoadedMetadata _ =>
      revocations u (since w (final r)) = 1%nat /\
      live_urls (final r) = live_urls w
  | ProbeError =>
      revocations u (since w (final r)) = 0%nat /\
      u ∈ live_urls (final r) /\
      processedVideo (final r) = None /\
      (forall c, currentVideo (final r) = Some c -> VideoFile.url c <> u)
  end.
Proof.
  intros Hreach Hready Hrej r u; subst r u.
  pose proof (reachable_invariant w Hreach) as [_ Hfresh Hcur _].
  destruct (handleFile_rejected w probe eng file Hready Hrej)
    as (_ & _ & _ & _ & Hp & Hc & _ & _ & _ & _ & Hl & Hlife).
  split.
  - rewrite <- created_lifecycle, Hlife. destruct probe; reflexivity.
  - destruct probe as [d|].
    + split.
      * rewrite <- revocations_lifecycle, Hlife. cbn.
        rewrite Nat.eqb_refl. reflexivity.
      * rewrite Hl. apply set_eq. intros x. split.
        -- intros Hx. apply elem_of_difference in Hx as [Hx Hne].
           apply elem_of_union in Hx as [Hx|Hx]; [contradiction|exact Hx].
        -- intros Hx. apply elem_of_difference. split; [apply elem_of_union_r, Hx|].
           intros Heq. apply elem_of_singleton in Heq. subst x.
           specialize (Hfresh _ Hx). lia.
    + split; [|split; [|split]].
      * rewrite <- revocations_lifecycle, Hlife. reflexivity.
      * rewrite Hl. apply elem_of_union_l, elem_of_singleton. reflexivity.
      * exact Hp.
      * rewrite Hc. intros c Hcv Heq.
        specialize (Hfresh _ (Hcur c Hcv)). lia.
Qed.

Lemma probe_url_revoked_only_on_metadata_witness :
  let r := handleFile ProbeError (engine_ok [] [Byte.x01]) (clip "notes.txt")
             ready_world in
  reachable ready_world /\
  ffmpegReady ready_world = true /\
  probe_rejected ProbeError /\
  created (since ready_world (final r)) = [0%nat] /\
  revocations 0%nat (since ready_world (final r)) = 0%nat /\
  0%nat ∈ live_urls (final r).
Proof.
  intros r; subst r.
  destruct (probe_url_revoked_only_on_metadata ready_world ProbeError
              (engine_ok [] [Byte.x01]) (clip "notes.txt")
              reachable_ready_world eq_refl I) as (Hc & Hr & Hl & _).
  split; [exact reachable_ready_world|]. split; [reflexivity|].
  split; [exact I|]. split; [exact Hc|]. split; [exact Hr|exact Hl].
Defined.

(** *** The progress bar after a run *)

(** X11. On Success the bar is left at 100 % with one more reset pending,
    and the reset hides it; on RunFailure no reset is scheduled and the bar
    stays visible; a rejected call leaves the bar as it was. *)
Theorem progress_bar_after_run
  (w : World) (probe : ProbeResult) (eng : EngineRun) (file : File.t) :
  ffmpegReady w = true ->
  let r := handleFile probe eng file w in
  match outcome r with
  | Some (Success _) =>
      progress (final r) = complete /\
      timers (final r) = S (timers w) /\
      progress (fire_reset (final r)) = hidden
  | Some (RunFailure _) =>
      visible (progress (final r)) = true /\
      timers (final r) = timers w
  | Some (ValidationRejected _) =>
      progress (final r) = progress w /\
      timers (final r) = timers w
  | _ => False
  end.
Proof.
  intros Hready r; subst r.
  destruct (handleFile_after w probe eng file Hready) as (_ & _ & H).
  destruct (outcome _) as [[| | |]|]; try contradiction.
  - destruct H as (_ & Hp & Ht & _). split; assumption.
  - destruct H as (_ & Hp & Ht & _). split; assumption.
  - destruct H as (_ & Hp & Ht & _). split; [exact Hp|]. split; [exact Ht|].
    unfold fire_reset. rewrite Ht. reflexivity.
Qed.

Lemma progress_bar_after_run_witness :
  let r := handleFile (LoadedMetadata (Num.of_Z 10)) engine_exec_fails
             (clip "a.mp4") ready_world in
  ffmpegReady ready_world = true /\
  outcome r = Some (RunFailure "Error: ffmpeg exited") /\
  visible (progress (final r)) = true /\
  timers (final r) = timers ready_world.
Proof.
  intros r; subst r.
  pose proof (progress_bar_after_run ready_world (LoadedMetadata (Num.of_Z 10))
                engine_exec_fails (clip "a.mp4") eq_refl) as H.
  cbv zeta in H.
  assert (outcome (handleFile (LoadedMetadata (Num.of_Z 10)) engine_exec_fails
                     (clip "a.mp4") ready_world)
          = Some (RunFailure "Error: ffmpeg exited")) as Ho
    by (vm_compute; reflexivity).
  rewrite Ho in H.
  split; [reflexivity|]. split; [exact Ho|exact H].
Defined.

(** *** The engine reference *)

(** X12. Once the engine is ready it stays ready: no later end of a load,
    no run and no reset of the bar unsets the flag. *)
Theorem engine_stays_ready
  (w : World) (load : option exn)
  (probe : ProbeResult) (eng : EngineRun) (file : File.t) :
  ffmpegReady w = true ->
  ffmpegReady (final (initializeFFmpeg load w)) = true /\
  ffmpegReady (final (handleFile probe eng file w)) = true /\
  ffmpegReady (fire_reset w) = true.
Proof.
  intros Hready. split; [|split].
  - destruct load; run; first [reflexivity|exact Hready].
  - destruct (handleFile_ready_cases w probe eng file Hready)
      as [Hrej|(d & -> & Hd)].
    + apply (handleFile_rejected w probe eng file Hready Hrej).
    + rewrite handleFile_accepted by assumption.
      destruct (trimVideo_engine_kept eng (intake d file w) (validated d file w))
        as [-> _]. exact Hready.
  - unfold fire_reset. destruct (timers w); [exact Hready|].
    cbv [setProgress modify]. proj. exact Hready.
Qed.

Lemma engine_stays_ready_witness :
  ffmpegReady ready_world = true /\
  ffmpegReady (final (initializeFFmpeg (Some "TypeError: Failed to fetch")
                        ready_world)) = true.
Proof.
  split; [reflexivity|].
  apply (engine_stays_ready ready_world (Some "TypeError: Failed to fetch")
           ProbeError engine_exec_fails (clip "a.mp4") eq_refl).
Defined.

(** X13. The error of a selection made before the engine was loaded is not
    cleared when the load succeeds: the not-ready message and the success
    message of the load are then set together. *)
Theorem not_ready_error_outlives_load
  (w : World) (probe : ProbeResult) (eng : EngineRun) (file : File.t) :
  ffmpegReady w = false ->
  let w1 := final (handleFile probe eng file w) in
  let w2 := final (initializeFFmpeg None w1) in
  ffmpegReady w2 = true /\
  error w2 = not_ready_message /\
  info w2 = "FFmpeg loaded successfully! You can now upload a video.".
Proof.
  intros Hready w1 w2; subst w1 w2.
  run. rewrite Hready. proj. repeat split.
Qed.

Lemma not_ready_error_outlives_load_witness :
  let w1 := final (handleFile (LoadedMetadata (Num.of_Z 10))
                     (engine_ok [] [Byte.x01]) (clip "a.mp4") initial) in
  let w2 := final (initializeFFmpeg None w1) in
  ffmpegReady initial = false /\
  ffmpegReady w2 = true /\
  error w2 = not_ready_message /\
  info w2 = "FFmpeg loaded successfully! You can now upload a video.".
Proof.
  intros w1 w2; subst w1 w2. split; [reflexivity|].
  apply (not_ready_error_outlives_load initial (LoadedMetadata (Num.of_Z 10))
           (engine_ok [] [Byte.x01]) (clip "a.mp4") eq_refl).
Defined.

(** *** The engine operations of a run *)

(** How far a call of [trimVideo] gets with the engine. *)
Lemma trimVideo_engine_ops (eng : EngineRun) (vf : VideoFile.t) (w : World) :
  ffmpegRef w = true ->
  let r := trimVideo eng vf w in
  let ext := getFileExtension (File.name (VideoFile.file vf)) in
  let ops := full_run ext (VideoFile.duration vf) in
  match outcome r with
  | Some (Success _) => engine_ops (since w (final r)) = ops
  | Some (RunFailure e) =>
      match write_error eng with
      | Some e' =>
          e = e' /\
          engine_ops (since w (final r)) = take 1 ops /\
          workspace (final r) = workspace w
      | None =>
          workspace (final r) !! ("input." +:+ ext)
          = Some (File.data (VideoFile.file vf)) /\
          match exec_error eng with
          | Some e' => e = e' /\ engine_ops (since w (final r)) = take 2 ops
          | None =>
              engine_ops (since w (final r)) = take 3 ops /\
              exec_output eng = None /\
              workspace w !! ("output." +:+ ext) = None
          end
      end
  | _ => False
  end.
Proof.
  intros Href r ext ops; subst r ext ops.
  trim_cases w eng vf; try discriminate.
  all: unfold full_run, trim_args; cbn [take].
  all: repeat split; try reflexivity; try assumption.
  all: try (since_norm; observe; reflexivity).
  all: rewrite ?reported_workspace; proj.
  all: rewrite ?ws_put_output_get_input; apply ws_put_get.
Qed.

Lemma handleFile_accepted_engine_ops
  (w : World) (d : Num.number) (eng : EngineRun) (file : File.t) :
  ffmpegReady w = true ->
  Num.leb d (Num.of_Z 3) = false ->
  engine_ops (since w (final (handleFile (LoadedMetadata d) eng file w)))
  = engine_ops (since (validated d file w)
                  (final (trimVideo eng (intake d file w) (validated d file w)))).
Proof.
  intros Hready Hd. rewrite handleFile_accepted_since by assumption.
  rewrite engine_ops_app, since_validated. reflexivity.
Qed.

Lemma reachable_engine_ref (w : World) :
  reachable w -> ffmpegReady w = true -> ffmpegRef w = true.
Proof.
  intros Hreach Hready.
  rewrite <- (inv_engine w (reachable_invariant w Hreach)). exact Hready.
Qed.

(** X14. The engine operations of an accepted run are the five of a full
    run (write the input, invoke, read the output, remove the input, remove
    the output) on Success, and on RunFailure the first one, two or three of
    them: the input is always staged, nothing is invoked before it, and
    nothing is removed unless the output was read. *)
Theorem engine_ops_cut_at_failure
  (w : World) (d : Num.number) (eng : EngineRun) (file : File.t) :
  reachable w ->
  ffmpegReady w = true ->
  Num.leb d (Num.of_Z 3) = false ->
  let r := handleFile (LoadedMetadata d) eng file w in
  let ops := full_run (getFileExtension (File.name file)) d in
  match outcome r with
  | Some (Success _) => engine_ops (since w (final r)) = ops
  | Some (RunFailure _) =>
      exists n : nat,
        (1 <= n <= 3)%nat /\ engine_ops (since w (final r)) = take n ops
  | _ => False
  end.
Proof.
  intros Hreach Hready Hd r ops; subst r ops.
  rewrite handleFile_accepted_engine_ops by assumption.
  rewrite handleFile_accepted by assumption.
  pose proof (trimVideo_engine_ops eng (intake d file w) (validated d file w)
                (reachable_engine_ref w Hreach Hready)) as H.
  cbv zeta in H. change (VideoFile.file (intake d file w)) with file in H.
  change (VideoFile.duration (intake d file w)) with d in H.
  destruct (outcome _) as [[| |e|]|]; try contradiction; [|exact H].
  destruct (write_error eng).
  - exists 1%nat. split; [lia|apply H].
  - destruct H as (_ & H). destruct (exec_error eng).
    + exists 2%nat. split; [lia|apply H].
    + exists 3%nat. split; [lia|apply H].
Qed.

Lemma engine_ops_cut_at_failure_witness :
  let r := handleFile (LoadedMetadata (Num.of_Z 10)) (engine_ok [] [Byte.x01])
             (clip "a.mp4") ready_world in
  reachable ready_world /\
  ffmpegReady ready_world = true /\
  Num.leb (Num.of_Z 10) (Num.of_Z 3) = false /\
  engine_ops (since ready_world (final r)) = full_run "mp4" (Num.of_Z 10).
Proof.
  intros r; subst r.
  pose proof (engine_ops_cut_at_failure ready_world (Num.of_Z 10)
                (engine_ok [] [Byte.x01]) (clip "a.mp4")
                reachable_ready_world eq_refl eq_refl) as H.
  cbv zeta in H.
  assert (exists v, outcome (handleFile (LoadedMetadata (Num.of_Z 10))
                               (engine_ok [] [Byte.x01]) (clip "a.mp4")
                               ready_world) = Some (Success v)) as [v Ho]
    by (eexists; vm_compute; reflexivity).
  rewrite Ho in H.
  split; [exact reachable_ready_world|]. split; [reflexivity|].
  split; [reflexivity|]. exact H.
Defined.

(** X15. When staging the input fails the run ends as RunFailure with
    what the engine threw; the engine is not invoked and the workspace is as
    it was. *)
Theorem staging_failure_stops_run
  (w : World) (d : Num.number) (eng : EngineRun) (file : File.t) (e : exn) :
  reachable w ->
  ffmpegReady w = true ->
  Num.leb d (Num.of_Z 3) = false ->
  write_error eng = Some e ->
  let r := handleFile (LoadedMetadata d) eng file w in
  outcome r = Some (RunFailure e) /\
  engine_ops (since w (final r))
  = [WriteFile ("input." +:+ getFileExtension (File.name file))] /\
  invocations (since w (final r)) = [] /\
  workspace (final r) = workspace w.
Proof.
  intros Hreach Hready Hd Hwrite r; subst r.
  rewrite handleFile_accepted_engine_ops by assumption.
  rewrite handleFile_accepted_since by assumption.
  rewrite handleFile_accepted by assumption.
  pose proof (reachable_engine_ref w Hreach Hready) as Href.
  change (ffmpegRef w) with (ffmpegRef (validated d file w)) in Href.
  change (workspace w) with (workspace (validated d file w)).
  rewrite invocations_app, since_validated. cbn [invocations app].
  generalize dependent (validated d file w). intros w' Href.
  trim_cases w' eng (intake d file w); try congruence.
  injection Hwrite as ->.
  repeat split; since_norm; observe; reflexivity.
Qed.

Lemma staging_failure_stops_run_witness :
  let eng := {| write_error := Some "Error: out of memory"; exec_progress := [];
                exec_output := None; exec_error := None |} in
  let r := handleFile (LoadedMetadata (Num.of_Z 10)) eng (clip "a.mp4")
             ready_world in
  reachable ready_world /\
  ffmpegReady ready_world = true /\
  Num.leb (Num.of_Z 10) (Num.of_Z 3) = false /\
  write_error eng = Some "Error: out of memory" /\
  outcome r = Some (RunFailure "Error: out of memory") /\
  engine_ops (since ready_world (final r)) = [WriteFile "input.mp4"] /\
  invocations (since ready_world (final r)) = [] /\
  workspace (final r) = workspace ready_world.
Proof.
  intros eng r; subst eng r.
  split; [exact reachable_ready_world|]. split; [reflexivity|].
  split; [reflexivity|]. split; [reflexivity|].
  apply (staging_failure_stops_run ready_world (Num.of_Z 10)
           {| write_error := Some "Error: out of memory"; exec_progress := [];
              exec_output := None; exec_error := None |}
           (clip "a.mp4") "Error: out of memory"
           reachable_ready_world eq_refl eq_refl eq_refl).
Defined.

(** X16. A run that staged its input and then fails, because the
    invocation throws or because there is no output to read, removes
    nothing: the staged input is still in the workspace afterwards. *)
Theorem run_failure_leaves_input
  (w : World) (d : Num.number) (eng : EngineRun) (file : File.t) (e : exn) :
  reachable w ->
  ffmpegReady w = true ->
  Num.leb d (Num.of_Z 3) = false ->
  write_error eng = None ->
  let r := handleFile (LoadedMetadata d) eng file w in
  let ext := getFileExtension (File.name file) in
  outcome r = Some (RunFailure e) ->
  workspace (final r) !! ("input." +:+ ext) = Some (File.data file) /\
  exists n : nat,
    (2 <= n <= 3)%nat /\
    engine_ops (since w (final r)) = take n (full_run ext d).
Proof.
  intros Hreach Hready Hd Hwrite r ext; subst r ext.
  rewrite handleFile_accepted_engine_ops by assumption.
  rewrite handleFile_accepted by assumption.
  pose proof (trimVideo_engine_ops eng (intake d file w) (validated d file w)
                (reachable_engine_ref w Hreach Hready)) as H.
  cbv zeta in H. change (VideoFile.file (intake d file w)) with file in H.
  change (VideoFile.duration (intake d file w)) with d in H.
  intros Ho. rewrite Ho, Hwrite in H. destruct H as (Hin & H).
  split; [exact Hin|]. destruct (exec_error eng).
  - exists 2%nat. split; [lia|apply H].
  - exists 3%nat. split; [lia|apply H].
Qed.

Lemma run_failure_leaves_input_witness :
  let eng := {| write_error := None; exec_progress := [];
                exec_output := None; exec_error := None |} in
  let r := handleFile (LoadedMetadata (Num.of_Z 10)) eng (clip "a.mp4")
             ready_world in
  reachable ready_world /\
  ffmpegReady ready_world = true /\
  Num.leb (Num.of_Z 10) (Num.of_Z 3) = false /\
  write_error eng = None /\
  outcome r = Some (RunFailure "ErrnoError: FS error") /\
  workspace (final r) !! "input.mp4" = Some (File.data (clip "a.mp4")).
Proof.
  intros eng r; subst eng r.
  assert (outcome (handleFile (LoadedMetadata (Num.of_Z 10))
                     {| write_error := None; exec_progress := [];
                        exec_output := None; exec_error := None |}
                     (clip "a.mp4") ready_world)
          = Some (RunFailure "ErrnoError: FS error")) as Ho
    by (vm_compute; reflexivity).
  destruct (run_failure_leaves_input ready_world (Num.of_Z 10)
           {| write_error := None; exec_progress := [];
              exec_output := None; exec_error := None |}
           (clip "a.mp4") "ErrnoError: FS error"
           reachable_ready_world eq_refl eq_refl eq_refl Ho) as [Hin _].
  split; [exact reachable_ready_world|]. split; [reflexivity|].
  split; [reflexivity|]. split; [reflexivity|]. split; [exact Ho|exact Hin].
Defined.

(** X17. The output is read by name only: when the invocation returns
    without having written its output and an entry of an earlier run is
    still under the output name, the run succeeds and publishes that entry
    under the name of the new file. *)
Theorem stale_output_published
  (w : World) (d : Num.number) (eng : EngineRun) (file : File.t) (stale : bytes) :
  reachable w ->
  ffmpegReady w = true ->
  Num.leb d (Num.of_Z 3) = false ->
  write_error eng = None ->
  exec_error eng = None ->
  exec_output eng = None ->
  workspace w !! ("output." +:+ getFileExtension (File.name file)) = Some stale ->
  let r := handleFile (LoadedMetadata d) eng file w in
  exists v : ProcessedVideo.t,
    outcome r = Some (Success v) /\
    processedVideo (final r) = Some v /\
    Blob.data (ProcessedVideo.blob v) = stale /\
    ProcessedVideo.originalName v = File.name file.
Proof.
  intros Hreach Hready Hd Hwrite Hexec Hout Hstale r; subst r.
  rewrite handleFile_accepted by assumption.
  pose proof (reachable_engine_ref w Hreach Hready) as Href.
  change (ffmpegRef w) with (ffmpegRef (validated d file w)) in Href.
  change (workspace w) with (workspace (validated d file w)) in Hstale.
  generalize dependent (validated d file w). intros w' Hstale Href.
  change file with (VideoFile.file (intake d file w)) in Hstale.
  trim_cases w' eng (intake d file w); try congruence.
  injection Hstale as ->.
  eexists. repeat split.
Qed.

Lemma stale_output_published_witness :
  let crashing := {| write_error := None; exec_progress := [];
                     exec_output := Some [Byte.x01];
                     exec_error := Some "Error: terminated" |} in
  let silent := {| write_error := None; exec_progress := [];
                   exec_output := None; exec_error := None |} in
  let w := final (handleFile (LoadedMetadata (Num.of_Z 10)) crashing
                    (clip "first.mp4") ready_world) in
  let r := handleFile (LoadedMetadata (Num.of_Z 12)) silent
             (clip "second.mp4") w in
  reachable w /\
  ffmpegReady w = true /\
  Num.leb (Num.of_Z 12) (Num.of_Z 3) = false /\
  write_error silent = None /\ exec_error silent = None /\
  exec_output silent = None /\
  workspace w !! ("output." +:+ getFileExtension "second.mp4") = Some [Byte.x01] /\
  exists v : ProcessedVideo.t,
    outcome r = Some (Success v) /\
    processedVideo (final r) = Some v /\
    Blob.data (ProcessedVideo.blob v) = [Byte.x01] /\
    ProcessedVideo.originalName v = "second.mp4".
Proof.
  intros crashing silent w r; subst crashing silent w r.
  match goal with
  | |- reachable ?w /\ _ =>
      assert (reachable w) as Hreach
        by (apply reach_handleFile, reachable_ready_world);
      assert (ffmpegReady w = true) as Hready by (vm_compute; reflexivity);
      assert (workspace w !! ("output." +:+ getFileExtension "second.mp4")
              = Some [Byte.x01]) as Hstale by (vm_compute; reflexivity)
  end.
  split; [exact Hreach|]. split; [exact Hready|]. split; [reflexivity|].
  split; [reflexivity|]. split; [reflexivity|]. split; [reflexivity|].
  split; [exact Hstale|].
  exact (stale_output_published _ (Num.of_Z 12)
           {| write_error := None; exec_progress := [];
              exec_output := None; exec_error := None |}
           (clip "second.mp4") [Byte.x01]
           Hreach Hready eq_refl eq_refl eq_refl eq_refl Hstale).
Defined.

(** *** The object URLs of a successful run *)

(** X18. A successful run creates four object URLs and revokes the first,
    the probe's. The fourth, made for the console, is live afterwards and
    is neither the URL of the result nor that of the current video: nothing
    in the state holds it. *)
Theorem logged_url_leaks
  (w : World) (probe : ProbeResult) (eng : EngineRun) (file : File.t)
  (v : ProcessedVideo.t) :
  reachable w ->
  let r := handleFile probe eng file w in
  let n := next_url w in
  outcome r = Some (Success v) ->
  created (since w (final r)) = [n; S n; S (S n); S (S (S n))] /\
  (forall u, revocations u (since w (final r))
             = (if Nat.eqb u n then 1 else 0)%nat) /\
  S (S (S n)) ∈ live_urls (final r) /\
  (S (S (S n)) ∉ live_urls w) /\
  processedVideo (final r) = Some v /\
  ProcessedVideo.url v = S (S n) /\
  exists c, currentVideo (final r) = Some c /\ VideoFile.url c = S n.
Proof.
  intros Hreach r n Hv; subst r n.
  pose proof (reachable_invariant w Hreach) as [_ Hfresh _ _].
  destruct (handleFile_trim_inv w probe eng file) as (Hready & d & -> & Hd);
    [eauto|].
  destruct (handleFile_success_lifecycle w d eng file v Hready Hd Hv)
    as (Hu & Hp & Hl & Hlife).
  split; [rewrite <- created_lifecycle, Hlife; reflexivity|].
  split.
  { intros u. rewrite <- revocations_lifecycle, Hlife. cbn.
    destruct (Nat.eqb u (next_url w)); reflexivity. }
  split; [rewrite Hl; apply elem_of_union_l, elem_of_singleton; reflexivity|].
  split; [intros Hin; specialize (Hfresh _ Hin); lia|].
  split; [exact Hp|]. split; [exact Hu|].
  exists (intake d file w). split; [|reflexivity].
  rewrite handleFile_accepted by assumption.
  destruct (trimVideo_frame eng (intake d file w) (validated d file w))
    as (Hc & _). rewrite Hc. reflexivity.
Qed.

Lemma logged_url_leaks_witness :
  let r := handleFile (LoadedMetadata (Num.of_Z 10)) (engine_ok [] [Byte.x01])
             (clip "a.mov") ready_world in
  reachable ready_world /\
  outcome r = Some (Success first_result) /\
  created (since ready_world (final r)) = [0; 1; 2; 3]%nat /\
  3%nat ∈ live_urls (final r) /\
  ProcessedVideo.url first_result = 2%nat.
Proof.
  intros r; subst r.
  assert (outcome (handleFile (LoadedMetadata (Num.of_Z 10))
                     (engine_ok [] [Byte.x01]) (clip "a.mov") ready_world)
          = Some (Success first_result)) as Ho
    by (vm_compute; reflexivity).
  destruct (logged_url_leaks ready_world (LoadedMetadata (Num.of_Z 10))
              (engine_ok [] [Byte.x01]) (clip "a.mov") first_result
              reachable_ready_world Ho) as (Hc & _ & Hl & _ & _ & Hu & _).
  split; [exact reachable_ready_world|]. split; [exact Ho|].
  split; [exact Hc|]. split; [exact Hl|exact Hu].
Defined.

(** *** The result and the current video *)







(** X20. In every reachable state the link [downloadTrimmedVideo] builds
    points to the object URL of the published result, which is live; when
    it builds none there is no result. *)
Theorem download_link_live (w : World) :
  reachable w ->
  match downloadTrimmedVideo w with
  | Some (href, name) =>
      href ∈ live_urls w /\
      exists v, processedVideo w = Some v /\
                href = ProcessedVideo.url v /\
                name = downloadName (ProcessedVideo.originalName v)
  | None => processedVideo w = None
  end.
Proof.
  intros Hreach. pose proof (reachable_invariant w Hreach) as [_ _ _ Hres].
  unfold downloadTrimmedVideo. destruct (processedVideo w) as [v|]; [|reflexivity].
  split; [apply Hres; reflexivity|]. exists v. repeat split.
Qed.

Lemma download_link_live_witness :
  let w := final (handleFile (LoadedMetadata (Num.of_Z 10))
                    (engine_ok [] [Byte.x01]) (clip "a.mov") ready_world) in
  reachable w /\
  downloadTrimmedVideo w = Some (2%nat, "a_trimmed.mov") /\
  2%nat ∈ live_urls w.
Proof.
  intros w; subst w.
  match goal with
  | |- reachable ?w /\ _ =>
      assert (reachable w) as Hreach
        by (apply reach_handleFile, reachable_ready_world);
      pose proof (download_link_live w Hreach) as H;
      assert (downloadTrimmedVideo w = Some (2%nat, "a_trimmed.mov"))
        as Hd by (vm_compute; reflexivity)
  end.
  rewrite Hd in H. destruct H as [Hl _].
  split; [exact Hreach|]. split; [exact Hd|exact Hl].
Defined.

(** *** The intake handlers *)



(** X22. Only the drop looks at the type of the file. A drop whose first
    file has a type that does not start with "video/" starts nothing, not
    even when a later file of the drop is a video: the state is as before
    but for the drag flag. The same files chosen through the file input
    start a run on the first of them, which with the engine ready creates
    the object URL of the probe. *)
Theorem drop_filters_by_type
  (p : Page) (file : File.t) (others : list File.t)
  (probe : ProbeResult) (eng : EngineRun) :
  startsWith "video/" (File.type file) = false ->
  let dropped := fst (handleDrop (file :: others) probe eng p) in
  let chosen := handleFileInput (Some (file :: others)) probe eng p in
  world dropped = world p /\
  isDragOver dropped = false /\
  world chosen = final (handleFile probe eng file (world p)) /\
  (ffmpegReady (world p) = true ->
   head (created (since (world p) (world chosen))) = Some (next_url (world p))).
Proof.
  intros Htype dropped chosen; subst dropped chosen.
  unfold handleDrop, handleFileInput. cbn [head mbind option_bind fst world].
  rewrite Htype. cbn [world isDragOver].
  repeat split.
  intros Hready.
  destruct (handleFile_ready_cases (world p) probe eng file Hready)
    as [Hrej|(d & -> & Hd)].
  - destruct (handleFile_rejected (world p) probe eng file Hready Hrej)
      as (_ & _ & _ & _ & _ & _ & _ & _ & _ & _ & _ & Hlife).
    rewrite <- created_lifecycle, Hlife. reflexivity.
  - rewrite handleFile_accepted_since by assumption.
    rewrite created_app, since_validated. reflexivity.
Qed.

Lemma drop_filters_by_type_witness :
  let file := {| File.name := "notes.txt"; File.type := "text/plain";
                 File.data := [Byte.x68; Byte.x69] |} in
  let p := {| isDragOver := true; world := ready_world |} in
  let dropped := fst (handleDrop [file; clip "a.mp4"] ProbeError
                        (engine_ok [] [Byte.x01]) p) in
  startsWith "video/" (File.type file) = false /\
  world dropped = ready_world /\
  isDragOver dropped = false.
Proof.
  intros file p dropped; subst file p dropped.
  split; [reflexivity|].
  destruct (drop_filters_by_type
              {| isDragOver := true; world := ready_world |}
              {| File.name := "notes.txt"; File.type := "text/plain";
                 File.data := [Byte.x68; Byte.x69] |}
              [clip "a.mp4"] ProbeError (engine_ok [] [Byte.x01]) eq_refl)
    as (Hw & Hd & _).
  split; [exact Hw|exact Hd].
Defined.

(** *** What is shown after a run *)

Lemma shown_error_message (e : exn) :
  shown ("Error processing video: " +:+ e) = Some ("Error processing video: " +:+ e).
Proof. reflexivity. Qed.

(** X23. After a call of [handleFile] with the engine ready the page shows
    either the block of the result, without an error box and with the bar
    at "100%" and "Complete!", or the error box with "Error processing
    video: " and the reason, without a result; the info box is never
    shown. *)
Theorem view_after_run
  (w : World) (probe : ProbeResult) (eng : EngineRun) (file : File.t) :
  ffmpegReady w = true ->
  let r := handleFile probe eng file w in
  let v := view (final r) in
  view_info v = None /\
  match outcome r with
  | Some (Success res) =>
      view_error v = None /\
      (exists b, view_result v = Some b /\ result_src b = ProcessedVideo.url res) /\
      view_bar v = Some {| bar_width := "100%"; bar_text := "Complete!" |}
  | Some (RunFailure e) | Some (ValidationRejected e) =>
      view_error v = Some ("Error processing video: " +:+ e) /\
      view_result v = None
  | _ => False
  end.
Proof.
  intros Hready r v; subst r v.
  destruct (handleFile_after w probe eng file Hready) as (_ & Hi & H).
  split; [unfold view; cbn [view_info]; rewrite Hi; reflexivity|].
  destruct (outcome _) as [[| |e|res]|]; try contradiction.
  - destruct H as (He & _ & _ & Hres). unfold view. cbn [view_error view_result].
    rewrite He, Hres. split; reflexivity.
  - destruct H as (He & _ & _ & Hres). unfold view. cbn [view_error view_result].
    rewrite He, Hres. split; reflexivity.
  - destruct H as (He & Hprog & _ & Hres).
    unfold view. cbn [view_error view_result view_bar].
    rewrite He, Hres, Hprog. split; [reflexivity|]. split; [|reflexivity].
    eexists. split; reflexivity.
Qed.

Lemma view_after_run_witness :
  let r := handleFile (LoadedMetadata (Num.of_Z 2)) (engine_ok [] [Byte.x01])
             (clip "a.mp4") ready_world in
  ffmpegReady ready_world = true /\
  view_info (view (final r)) = None /\
  view_result (view (final r)) = None /\
  view_error (view (final r))
  = Some "Error processing video: Error: Video is too short (3 seconds or less). Cannot trim 3 seconds.".
Proof.
  intros r; subst r.
  pose proof (view_after_run ready_world (LoadedMetadata (Num.of_Z 2))
                (engine_ok [] [Byte.x01]) (clip "a.mp4") eq_refl) as H.
  cbv zeta in H.
  assert (outcome (handleFile (LoadedMetadata (Num.of_Z 2))
                     (engine_ok [] [Byte.x01]) (clip "a.mp4") ready_world)
          = Some (ValidationRejected
                    "Error: Video is too short (3 seconds or less). Cannot trim 3 seconds."))
    as Ho by (vm_compute; reflexivity).
  rewrite Ho in H. destruct H as (Hi & He & Hr).
  split; [reflexivity|]. split; [exact Hi|]. split; [exact Hr|exact He].
Defined.



(** *** The whole percentages as strings *)

(** The whole percentages 0 to 100 are written with their digits. *)
Lemma whole_percentage_strings :
  forallb (fun k => String.eqb (Num.toString (Num.of_Z k)) (Num.digits k))
    whole_percentages = true.
Proof. vm_compute. reflexivity. Qed.

Lemma toString_whole_percentage (k : Z) :
  0 <= k <= 100 -> Num.toString (Num.of_Z k) = Num.digits k.
Proof.
  intros Hk. pose proof whole_percentage_strings as H.
  rewrite forallb_forall in H.
  apply String.eqb_eq, H, whole_percentage_in, Hk.
Qed.

(** *** When a run succeeds *)

(** The conditions of the two outcomes of [trimVideo], and the bytes of the
    result. *)
Lemma trimVideo_outcome_conditions
  (eng : EngineRun) (vf : VideoFile.t) (w : World) :
  ffmpegRef w = true ->
  let r := trimVideo eng vf w in
  let out := "output." +:+ getFileExtension (File.name (VideoFile.file vf)) in
  match outcome r with
  | Some (Success v) =>
      write_error eng = None /\ exec_error eng = None /\
      Some (Blob.data (ProcessedVideo.blob v))
      = match exec_output eng with
        | Some d => Some d
        | None => workspace w !! out
        end
  | Some (RunFailure _) =>
      write_error eng <> None \/ exec_error eng <> None \/
      (exec_output eng = None /\ workspace w !! out = None)
  | _ => False
  end.
Proof.
  intros Href r out; subst r out.
  trim_cases w eng vf; try discriminate.
  all: first [ left; discriminate
             | right; left; discriminate
             | right; right; split; reflexivity
             | repeat split; reflexivity ].
Qed.

(** X25. With the engine ready, in a reachable state, a call of
    [handleFile] ends in Success exactly when the probe gives a duration
    that is not [<= 3], staging and invocation do not throw, and an entry is
    under the output name afterwards: the one the invocation wrote or, if it
    wrote none, one that was there before. The blob of the result holds the
    bytes of that entry. *)
Theorem success_exactly_when
  (w : World) (probe : ProbeResult) (eng : EngineRun) (file : File.t) :
  reachable w ->
  ffmpegReady w = true ->
  let r := handleFile probe eng file w in
  let out := "output." +:+ getFileExtension (File.name file) in
  let entry := match exec_output eng with
               | Some d => Some d
               | None => workspace w !! out
               end in
  ((exists v, outcome r = Some (Success v)) <->
   (exists d, probe = LoadedMetadata d /\ Num.leb d (Num.of_Z 3) = false) /\
   write_error eng = None /\ exec_error eng = None /\ is_Some entry) /\
  (forall v, outcome r = Some (Success v) ->
     Some (Blob.data (ProcessedVideo.blob v)) = entry).
Proof.
  intros Hreach Hready r out entry; subst r out entry.
  pose proof (reachable_engine_ref w Hreach Hready) as Href.
  destruct (handleFile_ready_cases w probe eng file Hready)
    as [Hrej|(d & -> & Hd)].
  - destruct (handleFile_rejected w probe eng file Hready Hrej) as (Ho & _).
    rewrite Ho. split; [split|].
    + intros [v [=]].
    + intros ((d & -> & Hd) & _). cbn in Hrej. congruence.
    + intros v [=].
  - rewrite handleFile_accepted by assumption.
    pose proof (trimVideo_outcome_conditions eng (intake d file w)
                  (validated d file w) Href) as H.
    cbv zeta in H. change (VideoFile.file (intake d file w)) with file in H.
    change (workspace (validated d file w)) with (workspace w) in H.
    destruct (outcome (trimVideo eng (intake d file w) (validated d file w)))
      as [[| |e|v]|]; try contradiction.
    + split; [split|].
      * intros [v [=]].
      * intros (_ & Hw & He & Hentry). exfalso.
        destruct H as [H|[H|[Hout Hstale]]]; [congruence|congruence|].
        rewrite Hout, Hstale in Hentry. destruct Hentry as [x [=]].
      * intros v [=].
    + destruct H as (Hw & He & Hdata). split; [split|].
      * intros _. split; [eauto|]. split; [exact Hw|]. split; [exact He|].
        rewrite <- Hdata. eauto.
      * intros _. eauto.
      * intros v' [= <-]. exact Hdata.
Qed.

Lemma success_exactly_when_witness :
  let silent := {| write_error := None; exec_progress := [];
                   exec_output := None; exec_error := None |} in
  let r := handleFile (LoadedMetadata (Num.of_Z 10)) silent (clip "a.mp4")
             ready_world in
  reachable ready_world /\
  ffmpegReady ready_world = true /\
  ~ (exists v, outcome r = Some (Success v)).
Proof.
  intros silent r; subst silent r.
  destruct (success_exactly_when ready_world (LoadedMetadata (Num.of_Z 10))
              {| write_error := None; exec_progress := [];
                 exec_output := None; exec_error := None |}
              (clip "a.mp4") reachable_ready_world eq_refl) as [[Hif _] _].
  split; [exact reachable_ready_world|]. split; [reflexivity|].
  intros Hv. destruct (Hif Hv) as (_ & _ & _ & [x Hx]).
  vm_compute in Hx. discriminate.
Defined.

(** *** The load of the engine and the resets of the bar *)

(** X26. When the load of the engine fails the bar is hidden, the error
    names what was thrown, the engine stays not ready, and every later
    selection is rejected as not ready without touching anything but the
    error message. *)
Theorem failed_load_blocks_intake
  (w : World) (e : exn)
  (probe : ProbeResult) (eng : EngineRun) (file : File.t) :
  ffmpegReady w = false ->
  let w1 := final (initializeFFmpeg (Some e) w) in
  let r := handleFile probe eng file w1 in
  progress w1 = hidden /\
  error w1 = "Failed to load FFmpeg: " +:+ e
             +:+ ". Please refresh the page and try again." /\
  info w1 = info w /\
  ffmpegReady w1 = false /\
  outcome r = Some NotReady /\
  final r = emit (SetError not_ready_message) (with_error not_ready_message w1).
Proof.
  intros Hready w1 r; subst w1 r.
  run. rewrite Hready. proj. repeat split.
Qed.

Lemma failed_load_blocks_intake_witness :
  let w1 := final (initializeFFmpeg (Some "TypeError: Failed to fetch") initial) in
  let r := handleFile (LoadedMetadata (Num.of_Z 10)) (engine_ok [] [Byte.x01])
             (clip "a.mp4") w1 in
  ffmpegReady initial = false /\
  error w1 = "Failed to load FFmpeg: TypeError: Failed to fetch. Please refresh the page and try again." /\
  outcome r = Some NotReady.
Proof.
  intros w1 r; subst w1 r.
  destruct (failed_load_blocks_intake initial "TypeError: Failed to fetch"
              (LoadedMetadata (Num.of_Z 10)) (engine_ok [] [Byte.x01])
              (clip "a.mp4") eq_refl) as (_ & He & _ & _ & Ho & _).
  split; [reflexivity|]. split; [exact He|exact Ho].
Defined.

(** X27. A reset of the bar that is pending is never cancelled: a call of
    [handleFile] leaves at least as many resets pending as there were, and a
    reset that fires after the call hides the bar, whatever the call left on
    it. *)
Theorem pending_reset_survives_run
  (w : World) (probe : ProbeResult) (eng : EngineRun) (file : File.t) :
  let r := handleFile probe eng file w in
  (timers w <= timers (final r))%nat /\
  ((0 < timers w)%nat ->
   progress (fire_reset (final r)) = hidden /\
   timers (fire_reset (final r)) = pred (timers (final r))).
Proof.
  intros r; subst r.
  assert (timers w <= timers (final (handleFile probe eng file w)))%nat as Hle.
  { destruct (ffmpegReady w) eqn:Hready.
    - destruct (handleFile_after w probe eng file Hready) as (_ & _ & H).
      destruct (outcome _) as [[| | |]|]; try contradiction;
        destruct H as (_ & _ & -> & _); lia.
    - run. rewrite Hready. proj. lia. }
  split; [exact Hle|]. intros Hpos. unfold fire_reset.
  destruct (timers (final (handleFile probe eng file w))) as [|n]; [lia|].
  cbv [setProgress modify]. proj. split; reflexivity.
Qed.

Lemma pending_reset_survives_run_witness :
  let w := final (handleFile (LoadedMetadata (Num.of_Z 10))
                    (engine_ok [] [Byte.x01]) (clip "a.mov") ready_world) in
  let r := handleFile (LoadedMetadata (Num.of_Z 12)) engine_exec_fails
             (clip "b.webm") w in
  (0 < timers w)%nat /\
  visible (progress (final r)) = true /\
  progress (fire_reset (final r)) = hidden.
Proof.
  intros w r; subst w r.
  match goal with
  | |- (0 < timers ?w)%nat /\ _ =>
      assert (0 < timers w)%nat as Hpos by (vm_compute; lia);
      destruct (pending_reset_survives_run w (LoadedMetadata (Num.of_Z 12))
                  engine_exec_fails (clip "b.webm")) as [_ H];
      destruct (H Hpos) as [Hh _]
  end.
  split; [exact Hpos|]. split; [vm_compute; reflexivity|exact Hh].
Defined.

(** *** Fractions between 0 and 1 *)

Section Fractions.

Local Abbreviation fexp := (SpecFloat.fexp Num.prec Num.emax).

Lemma shr_1_double (x : Z) :
  0 <= x ->
  shr_1 {| shr_m := 2 * x; shr_r := false; shr_s := false |}
  = {| shr_m := x; shr_r := false; shr_s := false |}.
Proof. destruct x as [|q|q]; [reflexivity|reflexivity|lia]. Qed.

(** Shifting out bits that are all zero loses nothing. *)
Lemma iter_shr_1_exact (p : positive) (c : Z) :
  0 <= c ->
  SpecFloat.iter_pos shr_1 p
    {| shr_m := 2 ^ Z.pos p * c; shr_r := false; shr_s := false |}
  = {| shr_m := c; shr_r := false; shr_s := false |}.
Proof.
  revert c. induction p as [p IH|p IH|]; intros c Hc; cbn [SpecFloat.iter_pos].
  - assert (0 < 2 ^ Z.pos p) as Hp by (apply Z.pow_pos_nonneg; lia).
    replace (2 ^ Z.pos p~1 * c) with (2 * (2 ^ Z.pos p * (2 ^ Z.pos p * c))).
    + rewrite shr_1_double by nia. rewrite IH by nia. apply IH, Hc.
    + replace (Z.pos p~1) with (1 + Z.pos p + Z.pos p) by lia.
      rewrite !Z.pow_add_r by lia. change (2 ^ 1) with 2. ring.
  - assert (0 < 2 ^ Z.pos p) as Hp by (apply Z.pow_pos_nonneg; lia).
    replace (2 ^ Z.pos p~0 * c) with (2 ^ Z.pos p * (2 ^ Z.pos p * c)).
    + rewrite IH by nia. apply IH, Hc.
    + replace (Z.pos p~0) with (Z.pos p + Z.pos p) by lia.
      rewrite !Z.pow_add_r by lia. ring.
  - change (2 ^ 1) with 2. apply shr_1_double, Hc.
Qed.

(** The first shift of a rounding, on a mantissa that is [c] times the
    power of two shifted out. *)
Lemma shr_fexp_exact (c e n : Z) :
  0 <= c -> 0 <= n ->
  fexp (Zdigits2 (2 ^ n * c) + e) = e + n ->
  shr_fexp Num.prec Num.emax (2 ^ n * c) e loc_Exact
  = ({| shr_m := c; shr_r := false; shr_s := false |}, e + n).
Proof.
  intros Hc Hn Hf. unfold shr_fexp, shr.
  change IntDef.Z.sub with Z.sub. change IntDef.Z.add with Z.add.
  rewrite Hf. replace (e + n - e) with n by lia.
  cbn [shr_record_of_loc].
  destruct n as [|p|p]; [|rewrite iter_shr_1_exact by exact Hc; reflexivity|lia].
  rewrite Z.add_0_r. f_equal. f_equal.
  change (2 ^ 0) with 1. lia.
Qed.

(** Rounding to nearest does not cross a bound that is a multiple of the
    unit in the last place: a value of at most [C] units rounds to at most
    [C] units. *)
Lemma binary_round_aux_below (M0 E0 C : Z) :
  0 <= M0 -> E0 <= fexp (Zdigits2 M0 + E0) ->
  M0 <= C * 2 ^ (fexp (Zdigits2 M0 + E0) - E0) ->
  (forall e3, fexp (Zdigits2 M0 + E0) <= e3 ->
              2 ^ (e3 - fexp (Zdigits2 M0 + E0)) <= C -> e3 <= 971) ->
  match binary_round_aux Num.prec Num.emax false M0 E0 loc_Exact with
  | S754_zero false => True
  | S754_finite false m3 e3 =>
      fexp (Zdigits2 M0 + E0) <= e3 /\
      Z.pos m3 * 2 ^ (e3 - fexp (Zdigits2 M0 + E0)) <= C
  | _ => False
  end.
Proof.
  intros Hm He Hle Hfin. unfold binary_round_aux.
  set (e1 := fexp (Zdigits2 M0 + E0)) in *.
  assert (0 < 2 ^ (e1 - E0)) as Hpow by (apply Z.pow_pos_nonneg; lia).
  assert (0 <= C) as HC by nia.
  destruct (shr_fexp_spec M0 E0 loc_Exact Hm He) as (He1 & Hm1 & Hpos1).
  destruct (shr_fexp_canonical M0 E0 loc_Exact Hm He) as (Hcan1 & Hzero1).
  assert (M0 = 2 ^ (e1 - E0) * C ->
          fst (shr_fexp Num.prec Num.emax M0 E0 loc_Exact)
          = {| shr_m := C; shr_r := false; shr_s := false |}) as Hexact.
  { intros Heq. rewrite Heq. rewrite shr_fexp_exact; [reflexivity|exact HC|lia|].
    rewrite <- Heq. fold e1. lia. }
  destruct (shr_fexp Num.prec Num.emax M0 E0 loc_Exact) as [mrs1 e1'].
  cbn [fst snd] in *. fold e1 in He1. subst e1'.
  set (m2 := round_nearest_even (shr_m mrs1) (loc_of_shr_record mrs1)).
  pose proof (round_nearest_even_range (shr_m mrs1) (loc_of_shr_record mrs1))
    as Hm2. fold m2 in Hm2.
  assert (m2 <= C) as Hm2C.
  { destruct (Z.eq_dec M0 (2 ^ (e1 - E0) * C)) as [Heq|Hne].
    - subst m2. rewrite (Hexact Heq). cbn. lia.
    - assert (shr_m mrs1 < C); [|lia].
      rewrite Hm1. apply Z.div_lt_upper_bound; [exact Hpow|]. lia. }
  assert (0 <= m2) as Hpos2 by lia.
  assert (e1 <= fexp (Zdigits2 m2 + e1)) as He2.
  { destruct (Z.eq_dec (shr_m mrs1) 0) as [Hz|Hnz].
    - rewrite (Hzero1 Hz). apply fexp_least.
    - rewrite <- (Hcan1 ltac:(lia)) at 1. apply fexp_mono.
      apply Z.add_le_mono_r, Zdigits2_mono. lia. }
  destruct (shr_fexp_spec m2 e1 loc_Exact Hpos2 He2) as (He3 & Hm3 & Hpos3).
  destruct (shr_fexp Num.prec Num.emax m2 e1 loc_Exact) as [mrs3 e3].
  cbn [fst snd] in *.
  assert (0 < 2 ^ (e3 - e1)) as Hpow3 by (apply Z.pow_pos_nonneg; lia).
  assert (shr_m mrs3 * 2 ^ (e3 - e1) <= m2) as Hfloor.
  { rewrite Hm3. rewrite Z.mul_comm. apply Z.mul_div_le. exact Hpow3. }
  destruct (shr_m mrs3) as [|m3|m3] eqn:Hm3'; [exact I| |lia].
  assert (e3 <= 971) as He971 by (apply Hfin; [lia|nia]).
  replace (e3 <=? IntDef.Z.sub Num.emax Num.prec) with true
    by (symmetry; apply Z.leb_le; exact He971).
  split; [lia|lia].
Qed.

Lemma Zdigits2_below (m k : Z) : 0 <= k -> 0 <= m < 2 ^ k -> Zdigits2 m <= k.
Proof.
  intros Hk Hm. destruct (Z.eq_dec m 0) as [->|Hne]; [cbn; lia|].
  rewrite Zdigits2_log2 by lia.
  assert (Z.log2 m < k) by (apply Z.log2_lt_pow2; lia). lia.
Qed.

Lemma hundred_eq : Num.of_Z 100 = S754_finite false 7036874417766400 (-46).
Proof. vm_compute. reflexivity. Qed.

Lemma one_eq : Num.of_Z 1 = S754_finite false 4503599627370496 (-52).
Proof. vm_compute. reflexivity. Qed.

(** A fraction of at most 1 is at most 100 when taken a hundred times. *)
Lemma hundredfold (m : positive) (e : Z) :
  Num.valid (S754_finite false m e) = true ->
  Num.leb (S754_finite false m e) (Num.of_Z 1) = true ->
  match Num.mul (S754_finite false m e) (Num.of_Z 100) with
  | S754_zero false => True
  | S754_finite false m3 e3 => e3 < 0 /\ Z.pos m3 <= 100 * 2 ^ (- e3)
  | _ => False
  end.
Proof.
  intros Hval Hle.
  assert (e <= -52 /\ Z.pos m <= 2 ^ (- e)) as [He Hm].
  { rewrite one_eq in Hle. apply leb_finite in Hle.
    apply valid_finite in Hval. pose proof (digits2_pos_bounds m) as Hb.
    destruct Hle as [Hlt|[-> Hmle]].
    - split; [lia|].
      assert (2 ^ Z.pos (digits2_pos m) <= 2 ^ (- e))
        by (apply Z.pow_le_mono_r; lia).
      lia.
    - split; [lia|]. change (2 ^ (- -52)) with 4503599627370496. exact Hmle. }
  assert (0 < 2 ^ (- e)) as Hpe by (apply Z.pow_pos_nonneg; lia).
  pose proof (Pos2Z.is_pos m) as Hmpos.
  set (M0 := Z.pos m * 7036874417766400).
  set (E0 := e + -46).
  assert (Num.mul (S754_finite false m e) (Num.of_Z 100)
          = binary_round_aux Num.prec Num.emax false M0 E0 loc_Exact) as Hmul.
  { rewrite hundred_eq. unfold Num.mul, SFmul. cbn [xorb].
    rewrite Pos2Z.inj_mul. reflexivity. }
  assert (53 <= Zdigits2 M0) as Hd53.
  { change 53 with (Zdigits2 7036874417766400).
    apply Zdigits2_mono. unfold M0. lia. }
  assert (Zdigits2 M0 <= 53 - e) as Hdtop.
  { apply Zdigits2_below; [lia|]. split; [unfold M0; lia|].
    replace (53 - e) with (- e + 53) by lia. rewrite Z.pow_add_r by lia.
    change (2 ^ 53) with 9007199254740992. unfold M0. nia. }
  pose proof (fexp_eq (Zdigits2 M0 + E0)) as Hf.
  set (e1 := SpecFloat.fexp Num.prec Num.emax (Zdigits2 M0 + E0)) in *.
  assert (E0 <= e1 <= -46) as He1 by (unfold E0 in *; lia).
  assert (0 < 2 ^ (- e1)) as Hpe1 by (apply Z.pow_pos_nonneg; lia).
  assert (2 ^ (- e1) * 2 ^ (e1 - E0) = 70368744177664 * 2 ^ (- e)) as Hsplit.
  { rewrite <- Z.pow_add_r by lia.
    replace (- e1 + (e1 - E0)) with (46 + - e) by (unfold E0; lia).
    rewrite Z.pow_add_r by lia. reflexivity. }
  pose proof (binary_round_aux_valid false M0 E0 loc_Exact
                ltac:(unfold M0; lia) ltac:(fold e1; lia)) as Hvalid.
  assert (M0 <= 100 * 2 ^ (- e1) * 2 ^ (e1 - E0)) as Hbound.
  { rewrite <- Z.mul_assoc, Hsplit. unfold M0. nia. }
  assert (forall e3, e1 <= e3 -> 2 ^ (e3 - e1) <= 100 * 2 ^ (- e1) -> e3 <= 971)
    as Hfin.
  { intros e3' He3' Hpow.
    destruct (Z.le_gt_cases e3' 6) as [|Hgt]; [lia|]. exfalso.
    assert (2 ^ (7 - e1) <= 2 ^ (e3' - e1)) as Hmono
      by (apply Z.pow_le_mono_r; lia).
    replace (7 - e1) with (7 + - e1) in Hmono by lia.
    rewrite Z.pow_add_r in Hmono by lia. change (2 ^ 7) with 128 in Hmono.
    lia. }
  pose proof (binary_round_aux_below M0 E0 (100 * 2 ^ (- e1))
                ltac:(unfold M0; lia) ltac:(fold e1; lia) Hbound Hfin) as Hbelow.
  fold e1 in Hbelow.
  rewrite Hmul.
  destruct (binary_round_aux Num.prec Num.emax false M0 E0 loc_Exact)
    as [[|]|[|]| |[|] m3 e3]; try contradiction; try exact I.
  destruct Hbelow as [Hge Hval3].
  assert (0 < 2 ^ (e3 - e1)) as Hp3 by (apply Z.pow_pos_nonneg; lia).
  assert (e3 < 0) as Hneg.
    { destruct (Z.lt_ge_cases e3 0) as [|Hnn]; [assumption|]. exfalso.
      apply valid_finite in Hvalid. pose proof (digits2_pos_bounds m3) as Hb.
      destruct Hvalid as [[Hd _]|[_ Heq]]; [|lia].
      rewrite Hd in Hb. change (2 ^ (53 - 1)) with 4503599627370496 in Hb.
      assert (2 ^ (- e1) <= 2 ^ (e3 - e1)) by (apply Z.pow_le_mono_r; lia).
      nia. }
    split; [exact Hneg|].
    assert (2 ^ (- e1) = 2 ^ (- e3) * 2 ^ (e3 - e1)) as Hsp.
    { rewrite <- Z.pow_add_r by lia. f_equal. lia. }
    assert (0 < 2 ^ (- e3)) as Hp4 by (apply Z.pow_pos_nonneg; lia).
    revert Hval3 Hsp Hp3 Hp4.
    generalize (2 ^ (- e1)) (2 ^ (- e3)) (2 ^ (e3 - e1)).
    intros c a b Hval3 -> Hb Ha.
    apply Z.mul_le_mono_pos_r with (p := b); [exact Hb|].
    replace (100 * a * b) with (100 * (a * b)) by ring. exact Hval3.
Qed.

(** [Math.round] of a positive number of at most 100 is a whole number
    from 0 to 100. *)
Lemma Math_round_percentage (m : positive) (e : Z) :
  e < 0 -> Z.pos m <= 100 * 2 ^ (- e) ->
  exists k : Z,
    0 <= k <= 100 /\ Num.Math_round (S754_finite false m e) = Num.of_Z k.
Proof.
  intros He Hm. unfold Num.Math_round.
  replace (0 <=? e) with false by (symmetry; apply Z.leb_gt; exact He).
  cbv zeta.
  assert (0 < 2 ^ (- e)) as Hd by (apply Z.pow_pos_nonneg; lia).
  set (d := 2 ^ (- e)) in *.
  set (k := (2 * Z.pos m + d) / (2 * d)).
  assert (0 <= k <= 100) as Hk.
  { subst k. split.
    - apply Z.div_pos; lia.
    - assert ((2 * Z.pos m + d) / (2 * d) < 101); [|lia].
      apply Z.div_lt_upper_bound; lia. }
  exists k. split; [exact Hk|].
  destruct (Z.eqb_spec k 0) as [->|_]; reflexivity.
Qed.

(** The whole percentage of a fraction from 0 to 1, the negative zero set
    apart: [Math.round] keeps it. *)
Lemma progressPercent_fraction (p : Num.number) :
  Num.valid p = true ->
  Num.leb (Num.of_Z 0) p = true ->
  Num.leb p (Num.of_Z 1) = true ->
  progressPercent p = S754_zero true \/
  exists k : Z, 0 <= k <= 100 /\ progressPercent p = Num.of_Z k.
Proof.
  intros Hval H0 H1. destruct p as [[|]|[|]| |[|] m e]; try discriminate.
  - left. reflexivity.
  - right. exists 0. split; [lia|reflexivity].
  - right. unfold progressPercent.
    pose proof (hundredfold m e Hval H1) as H.
    destruct (Num.mul (S754_finite false m e) (Num.of_Z 100))
      as [[|]|[|]| |[|] m3 e3]; try contradiction.
    + exists 0. split; [lia|reflexivity].
    + destruct H as [He3 Hm3]. apply Math_round_percentage; assumption.
Qed.

(** X28. For every fraction from 0 to 1 that the engine reports, the
    handler sets a percentage between 30 and 90 and the text "Processing
    video... k%" with a whole number [k] from 0 to 100; the visibility of
    the bar is kept. *)
Theorem progress_of_fraction (p : Num.number) (prev : ProgressState) :
  Num.valid p = true ->
  Num.leb (Num.of_Z 0) p = true ->
  Num.leb p (Num.of_Z 1) = true ->
  let s := progressUpdate p prev in
  visible s = visible prev /\
  (exists k : Z,
     0 <= k <= 100 /\ text s = "Processing video... " +:+ Num.digits k +:+ "%") /\
  Num.leb (Num.of_Z 30) (percent s) = true /\
  Num.leb (percent s) (Num.of_Z 90) = true.
Proof.
  intros Hval H0 H1 s; subst s. unfold progressUpdate. cbn [visible text percent].
  split; [reflexivity|].
  destruct (progressPercent_fraction p Hval H0 H1) as [->|(k & Hk & ->)].
  - split; [exists 0; split; [lia|reflexivity]|].
    split; vm_compute; reflexivity.
  - rewrite toString_whole_percentage by exact Hk.
    split; [exists k; split; [exact Hk|reflexivity]|].
    exact (composite_of_bounds k Hk).
Qed.

Lemma progress_of_fraction_witness :
  let s := progressUpdate (Num.of_decimal 995 3) hidden in
  Num.valid (Num.of_decimal 995 3) = true /\
  Num.leb (Num.of_Z 0) (Num.of_decimal 995 3) = true /\
  Num.leb (Num.of_decimal 995 3) (Num.of_Z 1) = true /\
  text s = "Processing video... 100%" /\
  Num.leb (Num.of_Z 30) (percent s) = true /\
  Num.leb (percent s) (Num.of_Z 90) = true.
Proof.
  intros s; subst s.
  destruct (progress_of_fraction (Num.of_decimal 995 3) hidden
              eq_refl eq_refl eq_refl) as (_ & _ & Hlo & Hhi).
  split; [reflexivity|]. split; [reflexivity|]. split; [reflexivity|].
  split; [vm_compute; reflexivity|]. split; assumption.
Defined.

Lemma composite_fraction (p : Num.number) :
  fraction p = true ->
  Num.leb (Num.of_Z 30) (composite p) = true /\
  Num.leb (composite p) (Num.of_Z 90) = true.
Proof.
  unfold fraction. intros H. apply andb_prop in H as [H H1].
  apply andb_prop in H as [Hval H0]. unfold composite.
  destruct (progressPercent_fraction p Hval H0 H1) as [->|(k & Hk & ->)].
  - split; vm_compute; reflexivity.
  - exact (composite_of_bounds k Hk).
Qed.

(** X29. When all the fractions the engine reports during a run are from
    0 to 1, every percentage the run sets on the bar is 10, 20 or 100, or
    lies between 30 and 90. *)
Theorem run_percentages_bounded
  (w : World) (probe : ProbeResult) (eng : EngineRun) (file : File.t) :
  Forall (fun p => fraction p = true) (exec_progress eng) ->
  let r := handleFile probe eng file w in
  Forall stage_or_transcoding (percents (since w (final r))).
Proof.
  intros Hps r; subst r.
  destruct (handleFile_percents w probe eng file) as [[rest Hpre] _].
  assert (Forall stage_or_transcoding (run_percents (exec_progress eng))) as Hall.
  { unfold run_percents, stage_or_transcoding.
    repeat (apply Forall_cons; split; [auto|]).
    apply Forall_app. split.
    - apply Forall_fmap. eapply Forall_impl; [exact Hps|].
      intros p Hp. cbn. right. right. right. exact (composite_fraction p Hp).
    - repeat (apply Forall_cons; split;
              [first [ right; right; left; reflexivity
                     | right; right; right; split; vm_compute; reflexivity ]|]).
      apply Forall_nil. exact I. }
  rewrite Hpre in Hall. apply Forall_app in Hall as [Hall _]. exact Hall.
Qed.

Lemma run_percentages_bounded_witness :
  let eng := engine_ok [Num.of_decimal 25 2; Num.of_Z 1; Num.of_decimal 5 1]
               [Byte.x01] in
  let r := handleFile (LoadedMetadata (Num.of_Z 10)) eng (clip "a.mp4")
             ready_world in
  Forall (fun p => fraction p = true) (exec_progress eng) /\
  Forall stage_or_transcoding (percents (since ready_world (final r))).
Proof.
  intros eng r; subst eng r.
  assert (Forall (fun p => fraction p = true)
            (exec_progress (engine_ok [Num.of_decimal 25 2; Num.of_Z 1;
                                       Num.of_decimal 5 1] [Byte.x01]))) as Hps
    by (repeat (apply Forall_cons; split; [vm_compute; reflexivity|]);
        apply Forall_nil; exact I).
  split; [exact Hps|].
  exact (run_percentages_bounded ready_world (LoadedMetadata (Num.of_Z 10))
           _ (clip "a.mp4") Hps).
Defined.

End Fractions.
